(** * TinyG G-code interpreter (firmware/tinyg_exp/gcode.c)

    A shallow embedding of the RS274/NGC block interpreter: the line
    normalizer, the statement tokenizer, the letter dispatch that fills the
    next-state model [gn] and its flags [gf], and the ordered dispatch to
    the canonical machine.

    Conventions of the embedding
    - a [char] is an [ascii]; a buffer is the list of its bytes, and the
      byte that follows the last listed one is the NUL terminator;
    - a [uint8_t] index is a [Z] reduced modulo 256 after every update;
    - a [double] is the exact rational its token denotes (rounding is not
      modelled);
    - the C library ([strtod], the signedness of plain [char]) and the
      canonical machine are interfaces, given as type classes;
    - every [while] loop takes fuel and returns [None] when it runs out. *)

From Stdlib Require Import ZArith QArith Ascii String Lia Bool Sorted.
From stdpp Require Import base option list.

Local Open Scope char_scope.
Local Open Scope Z_scope.

(** ** Characters and the C library *)

Definition NUL : ascii := Ascii.zero.

Definition code (c : ascii) : Z := Z.of_nat (nat_of_ascii c).

(** The part of the C library the interpreter links against.  [strtod s]
    gives the value read at the start of the C string [s] and the number of
    characters consumed ([end - start]); the end pointer never leaves the
    string. *)
Class Libc := {
  plain_char_signed : bool;
  strtod : list ascii -> Q * nat;
  strtod_end : forall s, (snd (strtod s) <= length s)%nat
}.

(** Integer promotion of a plain [char]. *)
Definition char_to_int `{Libc} (c : ascii) : Z :=
  if plain_char_signed && (128 <=? code c) then code c - 256 else code c.

Definition isupper (c : ascii) : bool := (65 <=? code c) && (code c <=? 90).
Definition islower (c : ascii) : bool := (97 <=? code c) && (code c <=? 122).
Definition isdigit (c : ascii) : bool := (48 <=? code c) && (code c <=? 57).

Definition toupper (c : ascii) : ascii :=
  if islower c then ascii_of_nat (nat_of_ascii c - 32) else c.

(** [strchr(s, c) != 0] for a character [c] other than NUL. *)
Definition strchr (s : list ascii) (c : ascii) : bool :=
  existsb (Ascii.eqb c) s.

(** The literal of the invalid punctuation, [!$%,;:?@^_~`'] and the double
    quote (code 34). *)
Definition invalid_punctuation : list ascii :=
  ["!"; "$"; "%"; ","; ";"; ":"; "?"; "@"; "^"; "_"; "~"; "`"; "'"; "034"].

(** [trunc] and the [(int)] cast both round toward zero. *)
Definition trunc (q : Q) : Z := Z.quot (Qnum q) (Zpos (Qden q)).

(** ** Buffers and 8-bit indices *)

Definition uint8 (z : Z) : Z := z mod 256.

Definition rd (block : list ascii) (i : Z) : ascii :=
  default NUL (block !! Z.to_nat i).

Definition wr (block : list ascii) (i : Z) (c : ascii) : list ascii :=
  <[Z.to_nat i := c]> block.

(** The C string that starts a list of bytes: its bytes up to the first NUL. *)
Fixpoint cstring (s : list ascii) : list ascii :=
  match s with
  | [] => []
  | c :: s' => if Ascii.eqb c NUL then [] else c :: cstring s'
  end.

(** The C string found at [block + i]. *)
Definition cstring_at (block : list ascii) (i : Z) : list ascii :=
  cstring (drop (Z.to_nat i) block).

(** ** Status codes and enumerations

    Modelled from the spec: tinyg.h and gcode.h are not among the sources.
    The status codes are those the interpreter names, plus [TG_OTHER] for
    every other code a canonical-machine call may return; [TG_OK] is the
    only code that tests false.  Each enumeration lists the constants the
    interpreter uses, its first constructor standing for the value that
    [memset] leaves in a zeroed field. *)

Inductive status : Set :=
  | TG_OK
  | TG_QUIT
  | TG_EXPECTED_COMMAND_LETTER
  | TG_BAD_NUMBER_FORMAT
  | TG_UNSUPPORTED_STATEMENT
  | TG_OTHER (n : nat).

Definition nonzero (r : status) : bool :=
  match r with TG_OK => false | _ => true end.

Inductive gcNextAction : Set :=
  | NEXT_ACTION_NONE
  | NEXT_ACTION_MOTION
  | NEXT_ACTION_DWELL
  | NEXT_ACTION_GO_HOME
  | NEXT_ACTION_OFFSET_COORDINATES.

Inductive gcMotionMode : Set :=
  | MOTION_MODE_STRAIGHT_TRAVERSE
  | MOTION_MODE_STRAIGHT_FEED
  | MOTION_MODE_CW_ARC
  | MOTION_MODE_CCW_ARC
  | MOTION_MODE_CANCEL_MOTION_MODE.

Inductive gcCanonicalPlane : Set :=
  | CANON_PLANE_XY
  | CANON_PLANE_XZ
  | CANON_PLANE_YZ.

Inductive gcProgramFlow : Set :=
  | PROGRAM_FLOW_RUNNING
  | PROGRAM_FLOW_STOP
  | PROGRAM_FLOW_END.

Inductive gcSpindle : Set :=
  | SPINDLE_OFF
  | SPINDLE_CW
  | SPINDLE_CCW.

Definition next_action_eqb (a b : gcNextAction) : bool :=
  match a, b with
  | NEXT_ACTION_NONE, NEXT_ACTION_NONE
  | NEXT_ACTION_MOTION, NEXT_ACTION_MOTION
  | NEXT_ACTION_DWELL, NEXT_ACTION_DWELL
  | NEXT_ACTION_GO_HOME, NEXT_ACTION_GO_HOME
  | NEXT_ACTION_OFFSET_COORDINATES, NEXT_ACTION_OFFSET_COORDINATES => true
  | _, _ => false
  end.

Definition motion_mode_eqb (a b : gcMotionMode) : bool :=
  match a, b with
  | MOTION_MODE_STRAIGHT_TRAVERSE, MOTION_MODE_STRAIGHT_TRAVERSE
  | MOTION_MODE_STRAIGHT_FEED, MOTION_MODE_STRAIGHT_FEED
  | MOTION_MODE_CW_ARC, MOTION_MODE_CW_ARC
  | MOTION_MODE_CCW_ARC, MOTION_MODE_CCW_ARC
  | MOTION_MODE_CANCEL_MOTION_MODE, MOTION_MODE_CANCEL_MOTION_MODE => true
  | _, _ => false
  end.

Definition spindle_eqb (a b : gcSpindle) : bool :=
  match a, b with
  | SPINDLE_OFF, SPINDLE_OFF
  | SPINDLE_CW, SPINDLE_CW
  | SPINDLE_CCW, SPINDLE_CCW => true
  | _, _ => false
  end.

(** Axis indices into [target] ([Z_axis] is the Z of the source). *)
Definition X : nat := 0.
Definition Y : nat := 1.
Definition Z_axis : nat := 2.

(** ** The block models

    [gn] holds the values of the block being parsed.  [gf] has the layout
    of [gn] and only ever holds 0 or 1, so its fields are booleans. *)

Record GCodeModel : Type := {
  next_action : gcNextAction;
  motion_mode : gcMotionMode;
  target : list Q;
  offset : list Q;
  radius : Q;
  feed_rate : Q;
  dwell_time : Q;
  spindle_speed : Q;
  spindle_mode : gcSpindle;
  tool : Z;
  change_tool : bool;
  set_plane : gcCanonicalPlane;
  inches_mode : bool;
  absolute_override : bool;
  absolute_mode : bool;
  set_origin_mode : bool;
  inverse_feed_rate_mode : bool;
  program_flow : gcProgramFlow
}.

Record GCodeFlags : Type := {
  f_next_action : bool;
  f_motion_mode : bool;
  f_target : list bool;
  f_offset : list bool;
  f_radius : bool;
  f_feed_rate : bool;
  f_dwell_time : bool;
  f_spindle_speed : bool;
  f_spindle_mode : bool;
  f_tool : bool;
  f_change_tool : bool;
  f_set_plane : bool;
  f_inches_mode : bool;
  f_absolute_override : bool;
  f_absolute_mode : bool;
  f_set_origin_mode : bool;
  f_inverse_feed_rate_mode : bool;
  f_program_flow : bool
}.

(** [ZERO_MODEL_STATE] *)
Definition zero_model : GCodeModel := {|
  next_action := NEXT_ACTION_NONE;
  motion_mode := MOTION_MODE_STRAIGHT_TRAVERSE;
  target := [0%Q; 0%Q; 0%Q];
  offset := [0%Q; 0%Q; 0%Q];
  radius := 0%Q;
  feed_rate := 0%Q;
  dwell_time := 0%Q;
  spindle_speed := 0%Q;
  spindle_mode := SPINDLE_OFF;
  tool := 0;
  change_tool := false;
  set_plane := CANON_PLANE_XY;
  inches_mode := false;
  absolute_override := false;
  absolute_mode := false;
  set_origin_mode := false;
  inverse_feed_rate_mode := false;
  program_flow := PROGRAM_FLOW_RUNNING
|}.

Definition zero_flags : GCodeFlags := {|
  f_next_action := false;
  f_motion_mode := false;
  f_target := [false; false; false];
  f_offset := [false; false; false];
  f_radius := false;
  f_feed_rate := false;
  f_dwell_time := false;
  f_spindle_speed := false;
  f_spindle_mode := false;
  f_tool := false;
  f_change_tool := false;
  f_set_plane := false;
  f_inches_mode := false;
  f_absolute_override := false;
  f_absolute_mode := false;
  f_set_origin_mode := false;
  f_inverse_feed_rate_mode := false;
  f_program_flow := false
|}.

(** Field setters for [gn] and [gf]. *)
Definition set_next_action v g :=
  let 'Build_GCodeModel _ b c d e f h i j k l m n o p q r t := g in
  Build_GCodeModel v b c d e f h i j k l m n o p q r t.
Definition set_motion_mode v g :=
  let 'Build_GCodeModel a _ c d e f h i j k l m n o p q r t := g in
  Build_GCodeModel a v c d e f h i j k l m n o p q r t.
Definition set_target v g :=
  let 'Build_GCodeModel a b _ d e f h i j k l m n o p q r t := g in
  Build_GCodeModel a b v d e f h i j k l m n o p q r t.
Definition set_offset v g :=
  let 'Build_GCodeModel a b c _ e f h i j k l m n o p q r t := g in
  Build_GCodeModel a b c v e f h i j k l m n o p q r t.
Definition set_radius v g :=
  let 'Build_GCodeModel a b c d _ f h i j k l m n o p q r t := g in
  Build_GCodeModel a b c d v f h i j k l m n o p q r t.
Definition set_feed_rate v g :=
  let 'Build_GCodeModel a b c d e _ h i j k l m n o p q r t := g in
  Build_GCodeModel a b c d e v h i j k l m n o p q r t.
Definition set_dwell_time v g :=
  let 'Build_GCodeModel a b c d e f _ i j k l m n o p q r t := g in
  Build_GCodeModel a b c d e f v i j k l m n o p q r t.
Definition set_spindle_speed v g :=
  let 'Build_GCodeModel a b c d e f h _ j k l m n o p q r t := g in
  Build_GCodeModel a b c d e f h v j k l m n o p q r t.
Definition set_spindle_mode v g :=
  let 'Build_GCodeModel a b c d e f h i _ k l m n o p q r t := g in
  Build_GCodeModel a b c d e f h i v k l m n o p q r t.
Definition set_tool v g :=
  let 'Build_GCodeModel a b c d e f h i j _ l m n o p q r t := g in
  Build_GCodeModel a b c d e f h i j v l m n o p q r t.
Definition set_change_tool v g :=
  let 'Build_GCodeModel a b c d e f h i j k _ m n o p q r t := g in
  Build_GCodeModel a b c d e f h i j k v m n o p q r t.
Definition set_set_plane v g :=
  let 'Build_GCodeModel a b c d e f h i j k l _ n o p q r t := g in
  Build_GCodeModel a b c d e f h i j k l v n o p q r t.
Definition set_inches_mode v g :=
  let 'Build_GCodeModel a b c d e f h i j k l m _ o p q r t := g in
  Build_GCodeModel a b c d e f h i j k l m v o p q r t.
Definition set_absolute_override v g :=
  let 'Build_GCodeModel a b c d e f h i j k l m n _ p q r t := g in
  Build_GCodeModel a b c d e f h i j k l m n v p q r t.
Definition set_absolute_mode v g :=
  let 'Build_GCodeModel a b c d e f h i j k l m n o _ q r t := g in
  Build_GCodeModel a b c d e f h i j k l m n o v q r t.
Definition set_set_origin_mode v g :=
  let 'Build_GCodeModel a b c d e f h i j k l m n o p _ r t := g in
  Build_GCodeModel a b c d e f h i j k l m n o p v r t.
Definition set_inverse_feed_rate_mode v g :=
  let 'Build_GCodeModel a b c d e f h i j k l m n o p q _ t := g in
  Build_GCodeModel a b c d e f h i j k l m n o p q v t.
Definition set_program_flow v g :=
  let 'Build_GCodeModel a b c d e f h i j k l m n o p q r _ := g in
  Build_GCodeModel a b c d e f h i j k l m n o p q r v.

Definition flag_next_action v g :=
  let 'Build_GCodeFlags _ b c d e f h i j k l m n o p q r t := g in
  Build_GCodeFlags v b c d e f h i j k l m n o p q r t.
Definition flag_motion_mode v g :=
  let 'Build_GCodeFlags a _ c d e f h i j k l m n o p q r t := g in
  Build_GCodeFlags a v c d e f h i j k l m n o p q r t.
Definition flag_target v g :=
  let 'Build_GCodeFlags a b _ d e f h i j k l m n o p q r t := g in
  Build_GCodeFlags a b v d e f h i j k l m n o p q r t.
Definition flag_offset v g :=
  let 'Build_GCodeFlags a b c _ e f h i j k l m n o p q r t := g in
  Build_GCodeFlags a b c v e f h i j k l m n o p q r t.
Definition flag_radius v g :=
  let 'Build_GCodeFlags a b c d _ f h i j k l m n o p q r t := g in
  Build_GCodeFlags a b c d v f h i j k l m n o p q r t.
Definition flag_feed_rate v g :=
  let 'Build_GCodeFlags a b c d e _ h i j k l m n o p q r t := g in
  Build_GCodeFlags a b c d e v h i j k l m n o p q r t.
Definition flag_dwell_time v g :=
  let 'Build_GCodeFlags a b c d e f _ i j k l m n o p q r t := g in
  Build_GCodeFlags a b c d e f v i j k l m n o p q r t.
Definition flag_spindle_speed v g :=
  let 'Build_GCodeFlags a b c d e f h _ j k l m n o p q r t := g in
  Build_GCodeFlags a b c d e f h v j k l m n o p q r t.
Definition flag_spindle_mode v g :=
  let 'Build_GCodeFlags a b c d e f h i _ k l m n o p q r t := g in
  Build_GCodeFlags a b c d e f h i v k l m n o p q r t.
Definition flag_tool v g :=
  let 'Build_GCodeFlags a b c d e f h i j _ l m n o p q r t := g in
  Build_GCodeFlags a b c d e f h i j v l m n o p q r t.
Definition flag_change_tool v g :=
  let 'Build_GCodeFlags a b c d e f h i j k _ m n o p q r t := g in
  Build_GCodeFlags a b c d e f h i j k v m n o p q r t.
Definition flag_set_plane v g :=
  let 'Build_GCodeFlags a b c d e f h i j k l _ n o p q r t := g in
  Build_GCodeFlags a b c d e f h i j k l v n o p q r t.
Definition flag_inches_mode v g :=
  let 'Build_GCodeFlags a b c d e f h i j k l m _ o p q r t := g in
  Build_GCodeFlags a b c d e f h i j k l m v o p q r t.
Definition flag_absolute_override v g :=
  let 'Build_GCodeFlags a b c d e f h i j k l m n _ p q r t := g in
  Build_GCodeFlags a b c d e f h i j k l m n v p q r t.
Definition flag_absolute_mode v g :=
  let 'Build_GCodeFlags a b c d e f h i j k l m n o _ q r t := g in
  Build_GCodeFlags a b c d e f h i j k l m n o v q r t.
Definition flag_set_origin_mode v g :=
  let 'Build_GCodeFlags a b c d e f h i j k l m n o p _ r t := g in
  Build_GCodeFlags a b c d e f h i j k l m n o p v r t.
Definition flag_inverse_feed_rate_mode v g :=
  let 'Build_GCodeFlags a b c d e f h i j k l m n o p q _ t := g in
  Build_GCodeFlags a b c d e f h i j k l m n o p q v t.
Definition flag_program_flow v g :=
  let 'Build_GCodeFlags a b c d e f h i j k l m n o p q r _ := g in
  Build_GCodeFlags a b c d e f h i j k l m n o p q r v.

(** A member [a] of the model struct, as the macros name it: how to read
    and write [gn.a], and how to test and set [gf.a]. *)
Record member (V : Type) : Type := {
  get : GCodeModel -> V;
  put : V -> GCodeModel -> GCodeModel;
  flagged : GCodeFlags -> bool;
  mark : bool -> GCodeFlags -> GCodeFlags
}.
Arguments get {V} _ _.
Arguments put {V} _ _ _.
Arguments flagged {V} _ _.
Arguments mark {V} _ _ _.

Definition m_next_action := {|
  get := next_action; put := set_next_action;
  flagged := f_next_action; mark := flag_next_action
|}.
Definition m_motion_mode := {|
  get := motion_mode; put := set_motion_mode;
  flagged := f_motion_mode; mark := flag_motion_mode
|}.
Definition m_radius := {|
  get := radius; put := set_radius;
  flagged := f_radius; mark := flag_radius
|}.
Definition m_feed_rate := {|
  get := feed_rate; put := set_feed_rate;
  flagged := f_feed_rate; mark := flag_feed_rate
|}.
Definition m_dwell_time := {|
  get := dwell_time; put := set_dwell_time;
  flagged := f_dwell_time; mark := flag_dwell_time
|}.
Definition m_spindle_speed := {|
  get := spindle_speed; put := set_spindle_speed;
  flagged := f_spindle_speed; mark := flag_spindle_speed
|}.
Definition m_spindle_mode := {|
  get := spindle_mode; put := set_spindle_mode;
  flagged := f_spindle_mode; mark := flag_spindle_mode
|}.
Definition m_tool := {|
  get := tool; put := set_tool;
  flagged := f_tool; mark := flag_tool
|}.
Definition m_change_tool := {|
  get := change_tool; put := set_change_tool;
  flagged := f_change_tool; mark := flag_change_tool
|}.
Definition m_set_plane := {|
  get := set_plane; put := set_set_plane;
  flagged := f_set_plane; mark := flag_set_plane
|}.
Definition m_inches_mode := {|
  get := inches_mode; put := set_inches_mode;
  flagged := f_inches_mode; mark := flag_inches_mode
|}.
Definition m_absolute_override := {|
  get := absolute_override; put := set_absolute_override;
  flagged := f_absolute_override; mark := flag_absolute_override
|}.
Definition m_absolute_mode := {|
  get := absolute_mode; put := set_absolute_mode;
  flagged := f_absolute_mode; mark := flag_absolute_mode
|}.
Definition m_set_origin_mode := {|
  get := set_origin_mode; put := set_set_origin_mode;
  flagged := f_set_origin_mode; mark := flag_set_origin_mode
|}.
Definition m_inverse_feed_rate_mode := {|
  get := inverse_feed_rate_mode; put := set_inverse_feed_rate_mode;
  flagged := f_inverse_feed_rate_mode; mark := flag_inverse_feed_rate_mode
|}.
Definition m_program_flow := {|
  get := program_flow; put := set_program_flow;
  flagged := f_program_flow; mark := flag_program_flow
|}.

(** The array members [target[i]] and [offset[i]]. *)
Definition elt (l : list Q) (i : nat) : Q := default 0%Q (l !! i).
Definition elt_flag (l : list bool) (i : nat) : bool := default false (l !! i).

Definition m_target (i : nat) : member Q := {|
  get := fun g => elt (target g) i;
  put := fun v g => set_target (<[i := v]> (target g)) g;
  flagged := fun g => elt_flag (f_target g) i;
  mark := fun v g => flag_target (<[i := v]> (f_target g)) g
|}.

Definition m_offset (i : nat) : member Q := {|
  get := fun g => elt (offset g) i;
  put := fun v g => set_offset (<[i := v]> (offset g)) g;
  flagged := fun g => elt_flag (f_offset g) i;
  mark := fun v g => flag_offset (<[i := v]> (f_offset g)) g
|}.

(** ** The canonical machine

    Modelled from the spec: canonical_machine.h is not among the sources.
    Every setter and action of the interface is a [cm_call]; [cm_exec]
    gives the status the machine returns and the machine state that
    results.  The getters only read the machine state. *)

Inductive cm_call : Type :=
  | CM_message (text : list ascii)
  | CM_set_inverse_feed_rate_mode (mode : bool)
  | CM_set_feed_rate (rate : Q)
  | CM_set_spindle_speed (speed : Q)
  | CM_select_tool (t : Z)
  | CM_change_tool (t : Z)
  | CM_start_spindle_clockwise
  | CM_start_spindle_counterclockwise
  | CM_stop_spindle_turning
  | CM_dwell (seconds : Q)
  | CM_select_plane (plane : gcCanonicalPlane)
  | CM_use_length_units (inches : bool)
  | CM_set_distance_mode (absolute : bool)
  | CM_return_to_home
  | CM_set_origin_offsets (x y z : Q)
  | CM_straight_traverse (x y z : Q)
  | CM_straight_feed (x y z : Q)
  | CM_arc_feed (x y z i j k r : Q) (mode : gcMotionMode).

Class CanonicalMachine := {
  machine : Type;
  cm_get_next_action : machine -> gcNextAction;
  cm_get_motion_mode : machine -> gcMotionMode;
  cm_get_position : nat -> machine -> Q;
  cm_exec : cm_call -> machine -> status * machine
}.

(** ** The interpreter *)

Section Interpreter.

Context `{libc : Libc} `{cm : CanonicalMachine}.

(** Everything a call of the interpreter can read or change, apart from the
    line buffer: the parser variables [gp], the block models [gn] and [gf],
    the canonical machine's own state [gm], the setters and actions called
    on it so far, and what [tg_print_status] was given. *)
Record State : Type := {
  gp_letter : ascii;
  gp_value : Q;
  gp_fraction : Q;
  gp_status : status;
  gn : GCodeModel;
  gf : GCodeFlags;
  gm : machine;
  calls : list cm_call;
  printed : list (status * list ascii)
}.

Definition set_gp_letter v s :=
  let 'Build_State _ b c d e f g h i := s in
  Build_State v b c d e f g h i.
Definition set_gp_value v s :=
  let 'Build_State a _ c d e f g h i := s in
  Build_State a v c d e f g h i.
Definition set_gp_fraction v s :=
  let 'Build_State a b _ d e f g h i := s in
  Build_State a b v d e f g h i.
Definition set_gp_status v s :=
  let 'Build_State a b c _ e f g h i := s in
  Build_State a b c v e f g h i.
Definition set_gn v s :=
  let 'Build_State a b c d _ f g h i := s in
  Build_State a b c d v f g h i.
Definition set_gf v s :=
  let 'Build_State a b c d e _ g h i := s in
  Build_State a b c d e v g h i.
Definition set_gm v s :=
  let 'Build_State a b c d e f _ h i := s in
  Build_State a b c d e f v h i.
Definition set_calls v s :=
  let 'Build_State a b c d e f g _ i := s in
  Build_State a b c d e f g v i.
Definition set_printed v s :=
  let 'Build_State a b c d e f g h _ := s in
  Build_State a b c d e f g h v.

(** A call of a canonical-machine setter or action. *)
Definition call_cm (c : cm_call) (s : State) : status * State :=
  let (r, m) := cm_exec c (gm s) in
  (r, set_calls (calls s ++ [c]) (set_gm m s)).

Definition tg_print_status (r : status) (block : list ascii) (s : State) : State :=
  set_printed (printed s ++ [(r, cstring block)]) s.

(** *** _gc_normalize_gcode_block *)

(** The [while] loop that copies the command part.  It yields the buffer,
    [j], and the comment pointer as an offset into the buffer ([None] is
    the null pointer). *)
Fixpoint normalize_loop (fuel : nat) (block : list ascii) (i j : Z)
  : option (list ascii * Z * option Z) :=
  match fuel with
  | O => None
  | S fuel =>
    let c := toupper (rd block i) in
    let i := uint8 (i + 1) in
    if Ascii.eqb c NUL then Some (block, j, None)
    else if isupper c || isdigit c then
      normalize_loop fuel (wr block j c) i (uint8 (j + 1))
    else if Ascii.eqb c "(" then Some (wr block j NUL, j, Some i)
    else if char_to_int c <=? char_to_int " " then normalize_loop fuel block i j
    else if char_to_int c =? 127 then normalize_loop fuel block i j
    else if strchr invalid_punctuation c then normalize_loop fuel block i j
    else normalize_loop fuel (wr block j c) i (uint8 (j + 1))
  end.

(** The [while] loop that cuts the comment at its closing parenthesis. *)
Fixpoint trailing_paren_loop (fuel : nat) (block : list ascii) (comment i : Z)
  : option (list ascii) :=
  match fuel with
  | O => None
  | S fuel =>
    let c := rd block (comment + i) in
    let i := uint8 (i + 1) in
    if Ascii.eqb c NUL then Some block
    else if Ascii.eqb c ")" then Some (wr block (comment + uint8 (i - 1)) NUL)
    else trailing_paren_loop fuel block comment i
  end.

Definition _gc_normalize_gcode_block (fuel : nat) (block : list ascii) (s : State)
  : option (list ascii * State) :=
  if Ascii.eqb (rd block 0) "/" then Some (wr block 0 NUL, s)
  else
    match normalize_loop fuel block 0 0 with
    | None => None
    | Some (block, j, comment) =>
      let block := wr block j NUL in
      match comment with
      | None => Some (block, s)
      | Some comment =>
        if Ascii.eqb (toupper (rd block comment)) "M"
           && Ascii.eqb (toupper (rd block (comment + 1))) "S"
           && Ascii.eqb (toupper (rd block (comment + 2))) "G"
        then
          match trailing_paren_loop fuel block comment 0 with
          | None => None
          | Some block =>
            Some (block, snd (call_cm (CM_message (cstring_at block (comment + 3))) s))
          end
        else Some (block, s)
      end
    end.

(** *** _gc_read_double and _gc_next_statement

    The three pointers the tokenizer is given are [&gp.letter], [&gp.value]
    and [&gp.fraction]; the cursor [*i] is passed in and handed back. *)

Definition _gc_read_double (buf : list ascii) (i : Z) (s : State)
  : bool * Z * State :=
  let start := i in
  let (v, n) := strtod (cstring_at buf start) in
  let s := set_gp_value v s in
  if (n =? 0)%nat then (false, i, set_gp_status TG_BAD_NUMBER_FORMAT s)
  else (true, uint8 (start + Z.of_nat n), s).

Definition _gc_next_statement (buf : list ascii) (i : Z) (s : State)
  : bool * Z * State :=
  if Ascii.eqb (rd buf i) NUL then (false, i, s)
  else
    let s := set_gp_letter (rd buf i) s in
    if negb (isupper (gp_letter s)) then
      (false, i, set_gp_status TG_EXPECTED_COMMAND_LETTER s)
    else
      let i := uint8 (i + 1) in
      let '(ok, i, s) := _gc_read_double buf i s in
      if negb ok then (false, i, s)
      else
        (true, i,
         set_gp_fraction (gp_value s - inject_Z (trunc (gp_value s)))%Q s).

(** *** _gc_parse_gcode_block *)

Definition assign {V} (a : member V) (v : V) (s : State) : State :=
  set_gn (put a v (gn s)) s.

Definition raise_flag {V} (a : member V) (s : State) : State :=
  set_gf (mark a true (gf s)) s.

Definition SET_NEXT_STATE {V} (a : member V) (v : V) (s : State) : State :=
  raise_flag a (assign a v s).

Definition SET_NEXT_ACTION_MOTION {V} (a : member V) (v : V) (s : State) : State :=
  raise_flag m_next_action
    (assign m_next_action NEXT_ACTION_MOTION (raise_flag a (assign a v s))).

(** The body of [switch(gp.letter)]. *)
Definition dispatch_statement (s : State) : State :=
  match gp_letter s with
  | "G" =>
    match trunc (gp_value s) with
    | 0 => SET_NEXT_ACTION_MOTION m_motion_mode MOTION_MODE_STRAIGHT_TRAVERSE s
    | 1 => SET_NEXT_ACTION_MOTION m_motion_mode MOTION_MODE_STRAIGHT_FEED s
    | 2 => SET_NEXT_ACTION_MOTION m_motion_mode MOTION_MODE_CW_ARC s
    | 3 => SET_NEXT_ACTION_MOTION m_motion_mode MOTION_MODE_CCW_ARC s
    | 4 => SET_NEXT_STATE m_next_action NEXT_ACTION_DWELL s
    | 17 => SET_NEXT_STATE m_set_plane CANON_PLANE_XY s
    | 18 => SET_NEXT_STATE m_set_plane CANON_PLANE_XZ s
    | 19 => SET_NEXT_STATE m_set_plane CANON_PLANE_YZ s
    | 20 => SET_NEXT_STATE m_inches_mode true s
    | 21 => SET_NEXT_STATE m_inches_mode false s
    | 28 => SET_NEXT_STATE m_next_action NEXT_ACTION_GO_HOME s
    | 30 => SET_NEXT_STATE m_next_action NEXT_ACTION_GO_HOME s
    | 53 => SET_NEXT_STATE m_absolute_override true s
    | 80 => SET_NEXT_STATE m_motion_mode MOTION_MODE_CANCEL_MOTION_MODE s
    | 90 => SET_NEXT_STATE m_absolute_mode true s
    | 91 => SET_NEXT_STATE m_absolute_mode false s
    | 92 => SET_NEXT_STATE m_set_origin_mode true s
    | 93 => SET_NEXT_STATE m_inverse_feed_rate_mode true s
    | 94 => SET_NEXT_STATE m_inverse_feed_rate_mode false s
    | 40 => s
    | 49 => s
    | 61 => s
    | _ => set_gp_status TG_UNSUPPORTED_STATEMENT s
    end
  | "M" =>
    match trunc (gp_value s) with
    | 0 | 1 => SET_NEXT_STATE m_program_flow PROGRAM_FLOW_STOP s
    | 2 | 30 | 60 => SET_NEXT_STATE m_program_flow PROGRAM_FLOW_END s
    | 3 => SET_NEXT_STATE m_spindle_mode SPINDLE_CW s
    | 4 => SET_NEXT_STATE m_spindle_mode SPINDLE_CCW s
    | 5 => SET_NEXT_STATE m_spindle_mode SPINDLE_OFF s
    | 6 => SET_NEXT_STATE m_change_tool true s
    | 7 => s
    | 8 => s
    | 9 => s
    | 48 => s
    | 49 => s
    | _ => set_gp_status TG_UNSUPPORTED_STATEMENT s
    end
  | "T" => SET_NEXT_STATE m_tool (trunc (gp_value s)) s
  | "F" => SET_NEXT_STATE m_feed_rate (gp_value s) s
  | "P" => SET_NEXT_STATE m_dwell_time (gp_value s) s
  | "S" => SET_NEXT_STATE m_spindle_speed (gp_value s) s
  | "X" => SET_NEXT_STATE (m_target X) (gp_value s) s
  | "Y" => SET_NEXT_STATE (m_target Y) (gp_value s) s
  | "Z" => SET_NEXT_STATE (m_target Z_axis) (gp_value s) s
  | "I" => SET_NEXT_STATE (m_offset 0) (gp_value s) s
  | "J" => SET_NEXT_STATE (m_offset 1) (gp_value s) s
  | "K" => SET_NEXT_STATE (m_offset 2) (gp_value s) s
  | "R" => SET_NEXT_STATE m_radius (gp_value s) s
  | "N" => s
  | _ => set_gp_status TG_UNSUPPORTED_STATEMENT s
  end.

(** The [while] loop over the statements of the block. *)
Fixpoint parse_loop (fuel : nat) (buf : list ascii) (i : Z) (s : State)
  : option State :=
  match fuel with
  | O => None
  | S fuel =>
    let '(more, i, s) := _gc_next_statement buf i s in
    if more then
      let s := dispatch_statement s in
      if nonzero (gp_status s) then Some s
      else parse_loop fuel buf i s
    else Some s
  end.

(** *** _gc_execute_gcode_block *)

(** [CALL_CM_FUNC(f,v)], followed by the rest [k] of the function. *)
Definition CALL_CM_FUNC {V} (f : V -> cm_call) (v : member V)
    (k : State -> status * State) (s : State) : status * State :=
  if flagged v (gf s) then
    let (r, s) := call_cm (f (get v (gn s))) s in
    let s := set_gp_status r s in
    if nonzero r then (gp_status s, s) else k s
  else k s.

(** An [if (cond) { if ((gp.status = call)) return (gp.status); }]. *)
Definition call_when (cond : State -> bool) (c : State -> cm_call)
    (k : State -> status * State) (s : State) : status * State :=
  if cond s then
    let (r, s) := call_cm (c s) s in
    let s := set_gp_status r s in
    if nonzero r then (gp_status s, s) else k s
  else k s.

(** An [if (cond) { gp.status = call; return (gp.status); }]. *)
Definition finish_when (cond : State -> bool) (c : State -> cm_call)
    (k : State -> status * State) (s : State) : status * State :=
  if cond s then
    let (r, s) := call_cm (c s) s in
    let s := set_gp_status r s in
    (gp_status s, s)
  else k s.

(** The spindle block: the status of the call is dropped. *)
Definition spindle_on_or_off (k : State -> status * State) (s : State)
  : status * State :=
  if f_spindle_mode (gf s) then
    if spindle_eqb (spindle_mode (gn s)) SPINDLE_CW then
      k (snd (call_cm CM_start_spindle_clockwise s))
    else if spindle_eqb (spindle_mode (gn s)) SPINDLE_CCW then
      k (snd (call_cm CM_start_spindle_counterclockwise s))
    else
      k (snd (call_cm CM_stop_spindle_turning s))
  else k s.

Definition next_action_is (a : gcNextAction) (s : State) : bool :=
  next_action_eqb (next_action (gn s)) a.

Definition motion_mode_is (m : gcMotionMode) (s : State) : bool :=
  motion_mode_eqb (motion_mode (gn s)) m.

Definition _gc_execute_gcode_block : State -> status * State :=
  CALL_CM_FUNC CM_set_inverse_feed_rate_mode m_inverse_feed_rate_mode (
  CALL_CM_FUNC CM_set_feed_rate m_feed_rate (
  CALL_CM_FUNC CM_set_spindle_speed m_spindle_speed (
  CALL_CM_FUNC CM_select_tool m_tool (
  CALL_CM_FUNC CM_change_tool m_tool (
  spindle_on_or_off (
  call_when (next_action_is NEXT_ACTION_DWELL)
    (fun s => CM_dwell (dwell_time (gn s))) (
  CALL_CM_FUNC CM_select_plane m_set_plane (
  CALL_CM_FUNC CM_use_length_units m_inches_mode (
  CALL_CM_FUNC CM_set_distance_mode m_absolute_mode (
  call_when (next_action_is NEXT_ACTION_GO_HOME) (fun _ => CM_return_to_home) (
  call_when (next_action_is NEXT_ACTION_OFFSET_COORDINATES)
    (fun s => CM_set_origin_offsets (elt (target (gn s)) X)
                (elt (target (gn s)) Y) (elt (target (gn s)) Z_axis)) (
  finish_when
    (fun s => next_action_is NEXT_ACTION_MOTION s
              && motion_mode_is MOTION_MODE_STRAIGHT_TRAVERSE s)
    (fun s => CM_straight_traverse (elt (target (gn s)) X)
                (elt (target (gn s)) Y) (elt (target (gn s)) Z_axis)) (
  finish_when
    (fun s => next_action_is NEXT_ACTION_MOTION s
              && motion_mode_is MOTION_MODE_STRAIGHT_FEED s)
    (fun s => CM_straight_feed (elt (target (gn s)) X)
                (elt (target (gn s)) Y) (elt (target (gn s)) Z_axis)) (
  finish_when
    (fun s => next_action_is NEXT_ACTION_MOTION s
              && (motion_mode_is MOTION_MODE_CW_ARC s
                  || motion_mode_is MOTION_MODE_CCW_ARC s))
    (fun s => CM_arc_feed (elt (target (gn s)) X)
                (elt (target (gn s)) Y) (elt (target (gn s)) Z_axis)
                (elt (offset (gn s)) 0) (elt (offset (gn s)) 1)
                (elt (offset (gn s)) 2) (radius (gn s)) (motion_mode (gn s))) (
  fun s => (gp_status s, s)))))))))))))))).

(** The part of [_gc_parse_gcode_block] that comes before its loop: both
    models are zeroed, the next action, the motion mode and the target (the
    [for] loop over the axes X to Z) are pulled from the canonical machine,
    and the status is reset. *)
Definition preset_next_state (s : State) : State :=
  let s := set_gn zero_model s in
  let s := set_gf zero_flags s in
  let s := assign m_next_action (cm_get_next_action (gm s)) s in
  let s := assign m_motion_mode (cm_get_motion_mode (gm s)) s in
  let s := assign (m_target X) (cm_get_position X (gm s)) s in
  let s := assign (m_target Y) (cm_get_position Y (gm s)) s in
  let s := assign (m_target Z_axis) (cm_get_position Z_axis (gm s)) s in
  set_gp_status TG_OK s.

Definition _gc_parse_gcode_block (fuel : nat) (buf : list ascii) (s : State)
  : option (status * State) :=
  match parse_loop fuel buf 0 (preset_next_state s) with
  | None => None
  | Some s => Some (_gc_execute_gcode_block s)
  end.

(** *** gc_gcode_parser *)

Definition gc_gcode_parser (fuel : nat) (block : list ascii) (s : State)
  : option (status * list ascii * State) :=
  match _gc_normalize_gcode_block fuel block s with
  | None => None
  | Some (block, s) =>
    if Ascii.eqb (rd block 0) NUL then Some (TG_OK, block, s)
    else if Ascii.eqb (rd block 0) "Q" then Some (TG_QUIT, block, s)
    else
      match _gc_parse_gcode_block fuel block s with
      | None => None
      | Some (r, s) =>
        let s := if nonzero r then tg_print_status (gp_status s) block s else s in
        Some (gp_status s, block, s)
      end
  end.

End Interpreter.

Arguments State {cm}.
Arguments Build_State {cm}.

(** [gc_init]: both models zeroed.  The parser variables start at zero. *)
Definition gc_init `{CanonicalMachine} (m : machine) : State :=
  Build_State NUL 0%Q 0%Q TG_OK zero_model zero_flags m [] [].

(** ** What the interpreter computes

    The definitions the facts and the claims are stated with. *)

Section Specification.

Context `{libc : Libc} `{cm : CanonicalMachine}.

(** *** The normalizer, on C strings *)

(** A character the copy loop drops. *)
Definition tossed (c : ascii) : bool :=
  (char_to_int c <=? char_to_int " ") || (char_to_int c =? 127)
  || strchr invalid_punctuation c.

(** The command part of a line: what the copy loop keeps, up to the first
    opening parenthesis. *)
Fixpoint command_of (line : list ascii) : list ascii :=
  match line with
  | [] => []
  | c0 :: line' =>
    let c := toupper c0 in
    if isupper c || isdigit c then c :: command_of line'
    else if Ascii.eqb c "(" then []
    else if tossed c then command_of line'
    else c :: command_of line'
  end.

(** The comment of a line: what follows the first opening parenthesis. *)
Fixpoint comment_of (line : list ascii) : option (list ascii) :=
  match line with
  | [] => None
  | c :: line' => if Ascii.eqb c "(" then Some line' else comment_of line'
  end.

(** A text up to its first closing parenthesis, or whole if it has none. *)
Fixpoint until_paren (s : list ascii) : list ascii :=
  match s with
  | [] => []
  | c :: s' => if Ascii.eqb c ")" then [] else c :: until_paren s'
  end.

(** The comment starts with MSG, in either case. *)
Definition is_msg (comment : list ascii) : bool :=
  match comment with
  | a :: b :: c :: _ =>
    Ascii.eqb (toupper a) "M" && Ascii.eqb (toupper b) "S"
    && Ascii.eqb (toupper c) "G"
  | _ => false
  end.

(** The line starts with the block-delete character. *)
Definition block_deleted (line : list ascii) : bool :=
  match line with
  | c :: _ => Ascii.eqb c "/"
  | [] => false
  end.

(** The normalized command of a line. *)
Definition normalized (line : list ascii) : list ascii :=
  if block_deleted line then [] else command_of line.

(** The message a line emits, if any. *)
Definition message_of (line : list ascii) : option (list ascii) :=
  if block_deleted line then None
  else
    match comment_of line with
    | Some comment =>
      if is_msg comment then Some (drop 3 (until_paren comment)) else None
    | None => None
    end.

(** What the copy loop has done to the buffer when it has moved [j] to
    [j']: the command copied so far is longer by [command]. *)
Definition copied (block block' : list ascii) (j j' : nat)
    (command : list ascii) : Prop :=
  length block' = length block
  /\ take j' block' = take j block ++ command
  /\ (j' = j + length command)%nat
  /\ (j' <= length block')%nat.

(** The comment pointer the copy loop yields: null when the line has no
    comment, and else the place in the buffer, beyond the command and
    within reach of the 8-bit index, where the comment stands. *)
Definition comment_at (block : list ascii) (j : nat) (comment : option Z)
    (text : option (list ascii)) : Prop :=
  match comment, text with
  | None, None => True
  | Some k, Some t =>
    exists k' : nat,
      k = Z.of_nat k' /\ (j < k' <= 255)%nat
      /\ (k' + length t <= 255)%nat
      /\ cstring (drop k' block) = t
  | _, _ => False
  end.

(** The effect of the message, if one is emitted. *)
Definition emit (text : option (list ascii)) (s : State) : State :=
  match text with
  | Some t => snd (call_cm (CM_message t) s)
  | None => s
  end.

(** *** The tokenizer *)

(** [value - trunc(value)] *)
Definition fraction_of (v : Q) : Q := (v - inject_Z (trunc v))%Q.



(** A line made of statements: each is an uppercase letter followed by a
    nonempty number, which is what [strtod] reads off the rest of the line. *)
Inductive statements_of : list ascii -> list (ascii * Q * Q) -> Prop :=
  | statements_nil : statements_of [] []
  | statements_cons (c : ascii) (num rest : list ascii) (v : Q) stmts :
      isupper c = true -> num <> [] ->
      strtod (num ++ rest) = (v, length num) ->
      statements_of rest stmts ->
      statements_of (c :: num ++ rest) ((c, v, fraction_of v) :: stmts).

(** *** The character set of a command *)

(** The punctuation the specification allows in a normalized command. *)
Definition spec_punctuation : list ascii :=
  ["+"; "-"; "."; "/"; "*"; "<"; "="; ">"; "|"; "%"; "#"; "("; ")"; "[";
   "]"; "{"; "}"].

(** The character set the specification gives a normalized command. *)
Definition spec_charset (c : ascii) : bool :=
  isupper c || isdigit c || strchr spec_punctuation c.

(** The characters the copy loop can leave in a command: those of the
    specification, the ampersand and the backslash, and, where plain [char]
    is unsigned, the bytes above 127. *)
Definition code_charset (c : ascii) : bool :=
  spec_charset c || strchr ["&"; "\"] c
  || (negb plain_char_signed && (128 <=? code c)).

(** *** The dispatcher *)

(** Two states that differ only in the parser variables [gp]. *)
Definition same_world (s s' : State) : Prop :=
  gm s' = gm s /\ calls s' = calls s /\ printed s' = printed s.

(** Two states with the same block models. *)
Definition same_models (s s' : State) : Prop :=
  gn s' = gn s /\ gf s' = gf s.

(** How the dispatcher treats the status of a call: it returns a status
    that is not OK ([Checked]), drops the status ([Unchecked], the spindle
    calls), or returns whatever the status is ([Final], the motions). *)
Inductive entry : Type :=
  | Checked (c : cm_call)
  | Unchecked (c : cm_call)
  | Final (c : cm_call).

Definition entry_call (e : entry) : cm_call :=
  match e with Checked c | Unchecked c | Final c => c end.

Definition when (b : bool) (e : entry) : list entry := if b then [e] else [].

Definition xyz {A} (f : Q -> Q -> Q -> A) (g : GCodeModel) : A :=
  f (elt (target g) X) (elt (target g) Y) (elt (target g) Z_axis).

(** The motion a block is due: none, or one of the three final calls. *)
Definition motion_plan (g : GCodeModel) : list entry :=
  if negb (next_action_eqb (next_action g) NEXT_ACTION_MOTION) then []
  else
    match motion_mode g with
    | MOTION_MODE_STRAIGHT_TRAVERSE => [Final (xyz CM_straight_traverse g)]
    | MOTION_MODE_STRAIGHT_FEED => [Final (xyz CM_straight_feed g)]
    | MOTION_MODE_CW_ARC | MOTION_MODE_CCW_ARC =>
      [Final (xyz CM_arc_feed g (elt (offset g) 0) (elt (offset g) 1)
                (elt (offset g) 2) (radius g) (motion_mode g))]
    | MOTION_MODE_CANCEL_MOTION_MODE => []
    end.

(** The calls a block is due before its motion, each under the test the
    dispatcher makes for it. *)
Definition settings_plan (g : GCodeModel) (f : GCodeFlags) : list entry :=
  when (f_inverse_feed_rate_mode f)
    (Checked (CM_set_inverse_feed_rate_mode (inverse_feed_rate_mode g)))
  ++ when (f_feed_rate f) (Checked (CM_set_feed_rate (feed_rate g)))
  ++ when (f_spindle_speed f) (Checked (CM_set_spindle_speed (spindle_speed g)))
  ++ when (f_tool f) (Checked (CM_select_tool (tool g)))
  ++ when (f_tool f) (Checked (CM_change_tool (tool g)))
  ++ when (f_spindle_mode f)
       (Unchecked
          match spindle_mode g with
          | SPINDLE_CW => CM_start_spindle_clockwise
          | SPINDLE_CCW => CM_start_spindle_counterclockwise
          | SPINDLE_OFF => CM_stop_spindle_turning
          end)
  ++ when (next_action_eqb (next_action g) NEXT_ACTION_DWELL)
       (Checked (CM_dwell (dwell_time g)))
  ++ when (f_set_plane f) (Checked (CM_select_plane (set_plane g)))
  ++ when (f_inches_mode f) (Checked (CM_use_length_units (inches_mode g)))
  ++ when (f_absolute_mode f) (Checked (CM_set_distance_mode (absolute_mode g)))
  ++ when (next_action_eqb (next_action g) NEXT_ACTION_GO_HOME)
       (Checked CM_return_to_home)
  ++ when (next_action_eqb (next_action g) NEXT_ACTION_OFFSET_COORDINATES)
       (Checked (xyz CM_set_origin_offsets g)).

(** The calls a block is due, in the order of the dispatcher, from the
    models [gn] and [gf] the parser has filled. *)
Definition plan (g : GCodeModel) (f : GCodeFlags) : list entry :=
  settings_plan g f ++ motion_plan g.

(** Carrying out a plan. *)
Fixpoint run_plan (p : list entry) (s : State) : status * State :=
  match p with
  | [] => (gp_status s, s)
  | Checked c :: p =>
    let (r, s) := call_cm c s in
    if nonzero r then (r, set_gp_status r s) else run_plan p (set_gp_status r s)
  | Unchecked c :: p => run_plan p (snd (call_cm c s))
  | Final c :: _ =>
    let (r, s) := call_cm c s in (r, set_gp_status r s)
  end.

(** A piece [k] of the dispatcher carries out the plan [p]. *)
Definition follows (k : State -> status * State)
    (p : GCodeModel -> GCodeFlags -> list entry) : Prop :=
  forall s, k s = run_plan (p (gn s) (gf s)) s.

(** The machine state after a sequence of calls, each applied to the state
    the one before it has left: nothing is rolled back. *)
Definition machine_after (cs : list cm_call) (m : machine) : machine :=
  fold_left (fun m c => snd (cm_exec c m)) cs m.

(** The status a call returns when it is made after the calls [before]. *)
Definition status_after (before : list cm_call) (c : cm_call) (m : machine)
  : status :=
  fst (cm_exec c (machine_after before m)).

Definition is_final (e : entry) : bool :=
  match e with Final _ => true | _ => false end.

Definition is_motion (c : cm_call) : bool :=
  match c with
  | CM_straight_traverse _ _ _ | CM_straight_feed _ _ _
  | CM_arc_feed _ _ _ _ _ _ _ _ => true
  | _ => false
  end.

(** The step of the dispatch order a call belongs to. *)
Definition step_of (c : cm_call) : nat :=
  match c with
  | CM_message _ => 0
  | CM_set_inverse_feed_rate_mode _ => 1
  | CM_set_feed_rate _ => 2
  | CM_set_spindle_speed _ => 3
  | CM_select_tool _ => 4
  | CM_change_tool _ => 5
  | CM_start_spindle_clockwise | CM_start_spindle_counterclockwise
  | CM_stop_spindle_turning => 6
  | CM_dwell _ => 7
  | CM_select_plane _ => 8
  | CM_use_length_units _ => 9
  | CM_set_distance_mode _ => 10
  | CM_return_to_home => 11
  | CM_set_origin_offsets _ _ _ => 12
  | CM_straight_traverse _ _ _ | CM_straight_feed _ _ _
  | CM_arc_feed _ _ _ _ _ _ _ _ => 13
  end.

(** The calls the block is due, in dispatch order. *)
Definition due (s : State) : list cm_call :=
  map entry_call (plan (gn s) (gf s)).

(** How carrying out a plan ends: all of it was done, or it stopped at a
    checked call that failed, or at a final call. *)
Inductive ending (m : machine) (p made : list entry) (r : status) : Prop :=
  | ending_done :
      made = p -> forallb (fun e => negb (is_final e)) p = true ->
      ending m p made r
  | ending_failed (before rest : list entry) (c : cm_call) :
      p = before ++ Checked c :: rest -> made = before ++ [Checked c] ->
      forallb (fun e => negb (is_final e)) before = true ->
      r = status_after (map entry_call before) c m -> nonzero r = true ->
      ending m p made r
  | ending_final (before rest : list entry) (c : cm_call) :
      p = before ++ Final c :: rest -> made = before ++ [Final c] ->
      forallb (fun e => negb (is_final e)) before = true ->
      r = status_after (map entry_call before) c m ->
      ending m p made r.

(** An entry that is neither final nor a motion. *)
Definition plain (e : entry) : bool :=
  negb (is_final e) && negb (is_motion (entry_call e)).

(** Lists of steps that increase strictly and lie above a bound. *)
Definition above (n : nat) (l : list nat) : Prop :=
  StronglySorted lt l /\ Forall (lt n) l.

End Specification.

(** ** A reference instance of the interfaces

    Used to run the interpreter on concrete lines. *)

Module Reference.

(** [strtod] on the decimal forms of C: white space, a sign, digits with an
    optional point, an optional exponent. *)

Definition isspace (c : ascii) : bool :=
  (code c =? 32) || ((9 <=? code c) && (code c <=? 13)).

Fixpoint skip_space (s : list ascii) : list ascii :=
  match s with
  | c :: s' => if isspace c then skip_space s' else s
  | [] => []
  end.

Fixpoint span_digits (s : list ascii) : list ascii * list ascii :=
  match s with
  | c :: s' =>
    if isdigit c then let (d, r) := span_digits s' in (c :: d, r) else ([], s)
  | [] => ([], [])
  end.

Definition digits_value (d : list ascii) : Z :=
  fold_left (fun acc c => 10 * acc + (code c - 48)) d 0.

Definition read_sign (s : list ascii) : bool * list ascii :=
  match s with
  | "-" :: s' => (true, s')
  | "+" :: s' => (false, s')
  | _ => (false, s)
  end.

Definition read_exponent (s : list ascii) : Z * list ascii :=
  match s with
  | c :: s' =>
    if Ascii.eqb (toupper c) "E" then
      let (neg, s1) := read_sign s' in
      let (d, s2) := span_digits s1 in
      match d with
      | [] => (0, s)
      | _ => ((if neg then - digits_value d else digits_value d), s2)
      end
    else (0, s)
  | [] => (0, s)
  end.

Definition scale10 (m k : Z) : Q :=
  if 0 <=? k then inject_Z (m * 10 ^ k) else Qred (Qmake m (Z.to_pos (10 ^ (- k)))).

(** The value read at the start of [s], and what is left of [s] after it
    (all of [s] when no number is found). *)
Definition scan_number (s : list ascii) : Q * list ascii :=
  let (neg, s1) := read_sign (skip_space s) in
  let (ip, s2) := span_digits s1 in
  let (fp, s3) :=
    match s2 with
    | "." :: t => span_digits t
    | _ => ([], s2)
    end in
  match ip ++ fp with
  | [] => (0%Q, s)
  | d =>
    let (e, s4) := read_exponent s3 in
    let m := digits_value d in
    (scale10 (if neg then - m else m) (e - Z.of_nat (length fp)), s4)
  end.

Definition strtod_dec (s : list ascii) : Q * nat :=
  (fst (scan_number s), (length s - length (snd (scan_number s)))%nat).

Definition libc (signed : bool) : Libc := {|
  plain_char_signed := signed;
  strtod := strtod_dec;
  strtod_end := fun s => Nat.le_sub_l (length s) (length (snd (scan_number s)))
|}.

(** A canonical machine that keeps its modal state fixed and answers every
    call with [TG_OK], except the calls in [reject]. *)
Record sim : Type := {
  sim_next_action : gcNextAction;
  sim_motion_mode : gcMotionMode;
  sim_position : list Q
}.

Definition TG_REJECTED : status := TG_OTHER 0.

Definition cm (reject : cm_call -> bool) : CanonicalMachine := {|
  machine := sim;
  cm_get_next_action := sim_next_action;
  cm_get_motion_mode := sim_motion_mode;
  cm_get_position := fun i m => elt (sim_position m) i;
  cm_exec := fun c m => (if reject c then TG_REJECTED else TG_OK, m)
|}.

Definition accept_all (c : cm_call) : bool := false.

(** The machine at rest at the origin. *)
Definition at_rest : sim := {|
  sim_next_action := NEXT_ACTION_NONE;
  sim_motion_mode := MOTION_MODE_STRAIGHT_TRAVERSE;
  sim_position := [0%Q; 0%Q; 0%Q]
|}.

(** The state after [gc_init], on the given machine. *)
Definition start (reject : cm_call -> bool) (m : sim) : @State (cm reject) :=
  @gc_init (cm reject) m.

(** Run the entry point on a line of text, with the reference library
    (plain [char] signed) and the given machine; the result is the status,
    the C string left in the buffer, and the calls made. *)
Definition run (reject : cm_call -> bool) (m : sim) (line : string)
  : option (status * list ascii * list cm_call) :=
  match @gc_gcode_parser (libc true) (cm reject) 300 (list_ascii_of_string line)
          (@gc_init (cm reject) m) with
  | Some (r, block, s) => Some (r, cstring block, @calls (cm reject) s)
  | None => None
  end.

End Reference.

(** ** Sample lines and machines *)

Definition text (s : string) : list ascii := list_ascii_of_string s.

(** A machine that is in the middle of a feed move at (1, 2, 3): the next
    action and the motion mode persist from the block before. *)
Definition feeding : Reference.sim := {|
  Reference.sim_next_action := NEXT_ACTION_MOTION;
  Reference.sim_motion_mode := MOTION_MODE_STRAIGHT_FEED;
  Reference.sim_position := [1%Q; 2%Q; 3%Q]
|}.

(** A machine whose spindle does not start. *)
Definition spindle_fails (c : cm_call) : bool :=
  match c with
  | CM_start_spindle_clockwise | CM_start_spindle_counterclockwise => true
  | _ => false
  end.

(** ** Numbers

    What the specification calls a numeric token, and the special forms
    that the [strtod] of the C library reads besides. *)




Module Special.

(** The text starts with the word, in either case; what follows it. *)
Fixpoint word_at (word s : list ascii) : option (list ascii) :=
  match word, s with
  | [], _ => Some s
  | w :: word, c :: s =>
    if Ascii.eqb (toupper c) w then word_at word s else None
  | _ :: _, [] => None
  end.

(** The special forms of [strtod]: INFINITY, INF and NAN after white space
    and an optional sign. *)
Definition scan_special (s : list ascii) : option (list ascii) :=
  let s1 := snd (Reference.read_sign (Reference.skip_space s)) in
  match word_at (text "INFINITY") s1 with
  | Some r => Some r
  | None =>
    match word_at (text "INF") s1 with
    | Some r => Some r
    | None => word_at (text "NAN") s1
    end
  end.

(** [strtod] on the decimal and the special forms: the value read and
    what is left of the text.  An infinity or a NaN is no rational:
    [special] stands for the value of a special form. *)
Definition scan (special : Q) (s : list ascii) : Q * list ascii :=
  match scan_special s with
  | Some r => (special, r)
  | None => Reference.scan_number s
  end.

Definition strtod_special (special : Q) (s : list ascii) : Q * nat :=
  (fst (scan special s), (length s - length (snd (scan special s)))%nat).

Definition libc (signed : bool) (special : Q) : Libc := {|
  plain_char_signed := signed;
  strtod := strtod_special special;
  strtod_end :=
    fun s => Nat.le_sub_l (length s) (length (snd (scan special s)))
|}.

End Special.

(** ** How the parts compose *)

Section Composition.

Context `{libc : Libc} `{cm : CanonicalMachine}.

(** The parser variables as the tokenizer leaves them for a statement. *)
Definition load_statement (st : ascii * Q * Q) (s : State) : State :=
  let '(c, v, f) := st in
  set_gp_fraction f (set_gp_value v (set_gp_letter c s)).

(** The letter dispatch applied to the statements of a block in turn, up to
    and including the first one that leaves a status other than OK. *)
Fixpoint dispatch_all (stmts : list (ascii * Q * Q)) (s : State) : State :=
  match stmts with
  | [] => s
  | st :: stmts =>
    let s := dispatch_statement (load_statement st s) in
    if nonzero (gp_status s) then s else dispatch_all stmts s
  end.

Definition is_spindle (c : cm_call) : bool :=
  match c with
  | CM_start_spindle_clockwise | CM_start_spindle_counterclockwise
  | CM_stop_spindle_turning => true
  | _ => false
  end.

(** The status left by a sequence of calls made one after the other from
    the machine state [m], when [r0] was the status before them: that of
    the last call that is not a spindle call. *)
Fixpoint status_left (r0 : status) (made : list cm_call) (m : machine)
  : status :=
  match made with
  | [] => r0
  | c :: made =>
    status_left (if is_spindle c then r0 else fst (cm_exec c m)) made
      (snd (cm_exec c m))
  end.

(** In a sequence of calls, none but the last and the spindle calls has
    returned a status other than OK. *)
Definition stops_at_failure (made : list cm_call) (m : machine) : Prop :=
  forall (before after : list cm_call) (c : cm_call),
    made = before ++ c :: after -> after <> [] -> is_spindle c = false ->
    nonzero (status_after before c m) = false.

(** The treatment of an entry fits its call: the spindle calls, and only
    they, are unchecked. *)
Definition fits (e : entry) : bool :=
  match e with
  | Unchecked c => is_spindle c
  | Checked c | Final c => negb (is_spindle c)
  end.

(** The calls the dispatcher makes of the calls [due], in their order, from
    the machine state [m]: every call up to and including the first one
    that is a motion or that, not being a spindle call, returns a status
    other than OK. *)
Fixpoint calls_made (m : machine) (due : list cm_call) : list cm_call :=
  match due with
  | [] => []
  | c :: due =>
    if negb (is_spindle c) && (nonzero (fst (cm_exec c m)) || is_motion c)
    then [c]
    else c :: calls_made (snd (cm_exec c m)) due
  end.

(** The treatment of an entry and its call: the checked calls are neither
    spindle calls nor motions, the unchecked ones are the spindle calls,
    the final ones the motions. *)
Definition shaped (e : entry) : bool :=
  match e with
  | Checked c => negb (is_spindle c) && negb (is_motion c)
  | Unchecked c => is_spindle c
  | Final c => negb (is_spindle c) && is_motion c
  end.

(** The steps 1 to 13 as the specification lists them, each with its
    condition on the block models and the arguments of its call; the tool
    change of step 5 is the one that is flagged by M6. *)
Definition step_due (s : State) (c : cm_call) : Prop :=
  let g := gn s in
  let f := gf s in
  match c with
  | CM_message _ => False
  | CM_set_inverse_feed_rate_mode b =>
    f_inverse_feed_rate_mode f = true /\ b = inverse_feed_rate_mode g
  | CM_set_feed_rate x => f_feed_rate f = true /\ x = feed_rate g
  | CM_set_spindle_speed x => f_spindle_speed f = true /\ x = spindle_speed g
  | CM_select_tool t => f_tool f = true /\ t = tool g
  | CM_change_tool t => f_change_tool f = true /\ t = tool g
  | CM_start_spindle_clockwise =>
    f_spindle_mode f = true /\ spindle_mode g = SPINDLE_CW
  | CM_start_spindle_counterclockwise =>
    f_spindle_mode f = true /\ spindle_mode g = SPINDLE_CCW
  | CM_stop_spindle_turning =>
    f_spindle_mode f = true /\ spindle_mode g <> SPINDLE_CW
    /\ spindle_mode g <> SPINDLE_CCW
  | CM_dwell x => next_action g = NEXT_ACTION_DWELL /\ x = dwell_time g
  | CM_select_plane p => f_set_plane f = true /\ p = set_plane g
  | CM_use_length_units b => f_inches_mode f = true /\ b = inches_mode g
  | CM_set_distance_mode b => f_absolute_mode f = true /\ b = absolute_mode g
  | CM_return_to_home => next_action g = NEXT_ACTION_GO_HOME
  | CM_set_origin_offsets x y z =>
    next_action g = NEXT_ACTION_OFFSET_COORDINATES
    /\ x = elt (target g) X /\ y = elt (target g) Y
    /\ z = elt (target g) Z_axis
  | CM_straight_traverse x y z =>
    next_action g = NEXT_ACTION_MOTION
    /\ motion_mode g = MOTION_MODE_STRAIGHT_TRAVERSE
    /\ x = elt (target g) X /\ y = elt (target g) Y
    /\ z = elt (target g) Z_axis
  | CM_straight_feed x y z =>
    next_action g = NEXT_ACTION_MOTION
    /\ motion_mode g = MOTION_MODE_STRAIGHT_FEED
    /\ x = elt (target g) X /\ y = elt (target g) Y
    /\ z = elt (target g) Z_axis
  | CM_arc_feed x y z i j k r m =>
    next_action g = NEXT_ACTION_MOTION
    /\ (motion_mode g = MOTION_MODE_CW_ARC
        \/ motion_mode g = MOTION_MODE_CCW_ARC)
    /\ x = elt (target g) X /\ y = elt (target g) Y
    /\ z = elt (target g) Z_axis
    /\ i = elt (offset g) 0 /\ j = elt (offset g) 1 /\ k = elt (offset g) 2
    /\ r = radius g /\ m = motion_mode g
  end.

(** Two states the dispatcher treats alike: it returns the same status,
    makes the same calls and leaves the same machine. *)
Definition same_dispatch (s s' : State) : Prop :=
  fst (_gc_execute_gcode_block s') = fst (_gc_execute_gcode_block s)
  /\ calls (snd (_gc_execute_gcode_block s'))
     = calls (snd (_gc_execute_gcode_block s))
  /\ gm (snd (_gc_execute_gcode_block s'))
     = gm (snd (_gc_execute_gcode_block s)).

(** The words the letter dispatch accepts without any canonical-machine
    call depending on them: the program flow (M0, M1, M2, M30, M60), the
    tool change (M6), the absolute override (G53) and the origin mode
    (G92), which are stored, and the words that are skipped (M7, M8, M9,
    M48, M49, G40, G49, G61 and the line number N). *)
Definition inert_word (c : ascii) (n : Z) : bool :=
  if Ascii.eqb c "M"
  then existsb (Z.eqb n) [0; 1; 2; 30; 60; 6; 7; 8; 9; 48; 49]
  else if Ascii.eqb c "G" then existsb (Z.eqb n) [53; 92; 40; 49; 61]
  else Ascii.eqb c "N".

(** What the letter dispatch has stored for such a word when it has taken
    the state [s] to [s']: the member of the model and its flag for the
    words that are stored, and nothing at all for the words that are
    skipped. *)
Definition word_stored (c : ascii) (n : Z) (s s' : State) : Prop :=
  if Ascii.eqb c "M" then
    if existsb (Z.eqb n) [0; 1] then
      program_flow (gn s') = PROGRAM_FLOW_STOP
      /\ f_program_flow (gf s') = true
    else if existsb (Z.eqb n) [2; 30; 60] then
      program_flow (gn s') = PROGRAM_FLOW_END
      /\ f_program_flow (gf s') = true
    else if n =? 6 then
      change_tool (gn s') = true /\ f_change_tool (gf s') = true
    else s' = s
  else if Ascii.eqb c "G" then
    if n =? 53 then
      absolute_override (gn s') = true /\ f_absolute_override (gf s') = true
    else if n =? 92 then
      set_origin_mode (gn s') = true /\ f_set_origin_mode (gf s') = true
    else s' = s
  else s' = s.

(** The words that carry a value: the tool, the feed rate, the dwell time,
    the spindle speed, the axes, the arc offsets and the radius. *)
Definition value_word (c : ascii) : bool :=
  strchr ["T"; "F"; "P"; "S"; "X"; "Y"; "Z"; "I"; "J"; "K"; "R"] c.

End Composition.

(** ** The temperature controller device (firmware/temperature/tinyg_tc.c)

    The device registers behind the Kinen channel, the real-time clock run
    from the dispatch loop, and the LED.  The timer and port-direction
    registers that [rtc_init], [pwm_init] and [device_init] write and that
    nothing in the file reads back are left out. *)

Module TinygTc.

(** Modelled from the spec: kinen_core.h and tinyg_tc.h are not among the
    sources.  The status codes are those the file names. *)
Inductive sc_status : Set :=
  | SC_OK
  | SC_EAGAIN
  | SC_NOOP
  | SC_INVALID_ADDRESS
  | SC_INPUT_VALUE_TOO_SMALL
  | SC_INPUT_VALUE_TOO_LARGE.

(** [static struct DeviceSingleton dev]: three [uint8_t]. *)
Record DeviceSingleton : Type := {
  rtc_flag : Z;
  rtc_100ms_count : Z;
  rtc_1sec_count : Z
}.

(** The tasks of the real-time clock. *)
Inductive task : Set := Rtc_10ms | Rtc_100ms | Rtc_1sec.

Definition task_eqb (a b : task) : bool :=
  match a, b with
  | Rtc_10ms, Rtc_10ms | Rtc_100ms, Rtc_100ms | Rtc_1sec, Rtc_1sec => true
  | _, _ => false
  end.

(** What the clock and the LED functions read and change: [dev], the
    8-bit port register that [LED_PORT] names, and, to state what runs
    when, the tasks called so far, oldest first. *)
Record Device : Type := {
  dev : DeviceSingleton;
  LED_PORT : Z;
  ran : list task
}.

Definition set_dev v d :=
  let 'Build_Device _ b c := d in
  Build_Device v b c.
Definition set_LED_PORT v d :=
  let 'Build_Device a _ c := d in
  Build_Device a v c.
Definition set_ran v d :=
  let 'Build_Device a b _ := d in
  Build_Device a b v.

Definition set_rtc_flag v d :=
  let 'Build_DeviceSingleton _ b c := dev d in
  set_dev (Build_DeviceSingleton v b c) d.
Definition set_rtc_100ms_count v d :=
  let 'Build_DeviceSingleton a _ c := dev d in
  set_dev (Build_DeviceSingleton a v c) d.
Definition set_rtc_1sec_count v d :=
  let 'Build_DeviceSingleton a b _ := dev d in
  set_dev (Build_DeviceSingleton a b v) d.

Definition called (t : task) (d : Device) : Device :=
  set_ran (ran d ++ [t]) d.

(** How often a task was called. *)
Fixpoint times (t : task) (l : list task) : nat :=
  match l with
  | [] => O
  | t' :: l => ((if task_eqb t t' then 1 else 0) + times t l)%nat
  end.

Section Device.

(** The constants of the missing headers: the number of addresses of the
    Kinen common registers, the number of device registers, and the mask
    of the LED pin in its port. *)
Variables KINEN_COMMON_MAX DEVICE_ADDRESS_MAX LED_PIN : Z.

(** *** LED functions *)

Definition led_on (d : Device) : Device :=
  set_LED_PORT (uint8 (Z.land (LED_PORT d) (Z.lnot LED_PIN))) d.

Definition led_off (d : Device) : Device :=
  set_LED_PORT (uint8 (Z.lor (LED_PORT d) LED_PIN)) d.

(** The test is [LED_PORT && LED_PIN], the logical and. *)
Definition led_toggle (d : Device) : Device :=
  if negb (LED_PORT d =? 0) && negb (LED_PIN =? 0) then led_on d
  else led_off d.

(** *** RTC functions *)

Definition rtc_init (d : Device) : Device :=
  set_rtc_1sec_count 10 (set_rtc_100ms_count 10 d).

(** [ISR(TIMER0_OVF_vect)] *)
Definition TIMER0_OVF_vect (d : Device) : Device := set_rtc_flag 1 d.

Definition rtc_10ms (d : Device) : Device := led_toggle (called Rtc_10ms d).
Definition rtc_100ms (d : Device) : Device := called Rtc_100ms d.
Definition rtc_1sec (d : Device) : Device := called Rtc_1sec d.

Definition rtc_callback (d : Device) : sc_status * Device :=
  if rtc_flag (dev d) =? 0 then (SC_NOOP, d)
  else
    let d := set_rtc_flag 0 d in
    let d := rtc_10ms d in
    let d := set_rtc_100ms_count (uint8 (rtc_100ms_count (dev d) - 1)) d in
    if negb (rtc_100ms_count (dev d) =? 0) then (SC_OK, d)
    else
      let d := set_rtc_100ms_count 10 d in
      let d := rtc_100ms d in
      let d := set_rtc_1sec_count (uint8 (rtc_1sec_count (dev d) - 1)) d in
      if negb (rtc_1sec_count (dev d) =? 0) then (SC_OK, d)
      else
        let d := set_rtc_1sec_count 10 d in
        let d := rtc_1sec d in
        (SC_OK, d).

(** The timer interrupt followed by the clock handler, [n] times over. *)
Fixpoint ticks (n : nat) (d : Device) : Device :=
  match n with
  | O => d
  | S n => snd (rtc_callback (TIMER0_OVF_vect (ticks n d)))
  end.

(** *** Kinen callback functions

    [device_array] has [DEVICE_ADDRESS_MAX] bytes.  The functions are given
    the address as an [uint8_t]; [device_read_byte] yields the status and
    the byte that [*data] holds afterwards. *)

Definition device_read_byte (addr data : Z) (device_array : list Z)
  : sc_status * Z :=
  let addr := uint8 (addr - KINEN_COMMON_MAX) in
  if DEVICE_ADDRESS_MAX <=? addr then (SC_INVALID_ADDRESS, data)
  else (SC_OK, default 0 (device_array !! Z.to_nat addr)).

Definition device_write_byte (addr data : Z) (device_array : list Z)
  : sc_status * list Z :=
  let addr := uint8 (addr - KINEN_COMMON_MAX) in
  if DEVICE_ADDRESS_MAX <=? addr then (SC_INVALID_ADDRESS, device_array)
  else (SC_OK, <[Z.to_nat addr := data]> device_array).

End Device.

(** A device whose port has a pin other than the LED pin high. *)
Definition heater_on : Device := {|
  dev := {| rtc_flag := 0; rtc_100ms_count := 10; rtc_1sec_count := 10 |};
  LED_PORT := 33;
  ran := []
|}.

End TinygTc.

(** ** Proof tools *)

(** Case analysis on the 256 characters. *)
Ltac each_char c :=
  destruct c as [[] [] [] [] [] [] [] []].

(** * Facts *)

(** ** Buffers *)

Lemma rd_nat (block : list ascii) (i : nat) :
  rd block (Z.of_nat i) = default NUL (block !! i).
Proof. unfold rd. by rewrite Nat2Z.id. Qed.

Lemma wr_nat (block : list ascii) (i : nat) (c : ascii) :
  wr block (Z.of_nat i) c = <[i := c]> block.
Proof. unfold wr. by rewrite Nat2Z.id. Qed.

Lemma uint8_small (z : Z) : 0 <= z <= 255 -> uint8 z = z.
Proof. intros. unfold uint8. apply Z.mod_small. lia. Qed.

Lemma cstring_at_nat (block : list ascii) (i : nat) :
  cstring_at block (Z.of_nat i) = cstring (drop i block).
Proof. unfold cstring_at. by rewrite Nat2Z.id. Qed.

Lemma cstring_length (l : list ascii) : (length (cstring l) <= length l)%nat.
Proof.
  induction l as [|c l IH]; simpl; [lia|].
  destruct (Ascii.eqb c NUL); simpl; lia.
Qed.

Lemma cstring_no_NUL (l : list ascii) : Forall (fun c => c <> NUL) (cstring l).
Proof.
  induction l as [|c l IH]; simpl; [constructor|].
  destruct (Ascii.eqb_spec c NUL); [constructor|]. by constructor.
Qed.

Lemma cstring_id (l : list ascii) :
  Forall (fun c => c <> NUL) l -> cstring l = l.
Proof.
  induction 1 as [|c l Hc _ IH]; simpl; [done|].
  destruct (Ascii.eqb_spec c NUL); [done|]. by rewrite IH.
Qed.

Lemma cstring_idemp (l : list ascii) : cstring (cstring l) = cstring l.
Proof. apply cstring_id, cstring_no_NUL. Qed.

(** Reading the first byte of a C string. *)
Lemma cstring_drop_nil (l : list ascii) (i : nat) :
  cstring (drop i l) = [] -> default NUL (l !! i) = NUL.
Proof.
  intros H. destruct (l !! i) as [c|] eqn:E; [|done]. simpl.
  rewrite (drop_S _ _ _ E) in H. simpl in H.
  destruct (Ascii.eqb_spec c NUL); [done|discriminate].
Qed.

Lemma cstring_drop_cons (l : list ascii) (i : nat) c r :
  cstring (drop i l) = c :: r ->
  l !! i = Some c /\ c <> NUL /\ cstring (drop (S i) l) = r.
Proof.
  intros H. destruct (l !! i) as [c'|] eqn:E.
  - rewrite (drop_S _ _ _ E) in H. simpl in H.
    destruct (Ascii.eqb_spec c' NUL); [discriminate|]. by simplify_eq.
  - apply lookup_ge_None in E. rewrite drop_ge in H by done. discriminate.
Qed.

(** Writing a NUL right after a NUL-free prefix cuts the string there. *)
Lemma cstring_insert_NUL (l : list ascii) (n : nat) :
  (n <= length l)%nat -> Forall (fun c => c <> NUL) (take n l) ->
  cstring (<[n := NUL]> l) = take n l.
Proof.
  revert n. induction l as [|c l IH]; intros [|n] Hn Hp; simpl in *; try done; try lia.
  inversion Hp; subst.
  destruct (Ascii.eqb_spec c NUL); [done|]. rewrite IH; [done|lia|done].
Qed.

(** A C string depends only on the bytes up to its terminator. *)
Lemma cstring_take (l l' : list ascii) (n : nat) :
  take n l = take n l' -> (length (cstring l) < n)%nat ->
  cstring l' = cstring l.
Proof.
  revert l' n. induction l as [|c l IH]; intros l' [|n] Ht Hn; simpl in *; try lia.
  - by destruct l'.
  - destruct l' as [|c' l']; [done|]. simpl in Ht. simplify_eq. simpl.
    destruct (Ascii.eqb c' NUL); [done|]. simpl in Hn.
    f_equal. apply (IH l' n); [done|lia].
Qed.

(** ** Characters *)

Lemma toupper_NUL (c : ascii) : toupper c = NUL -> c = NUL.
Proof. each_char c; vm_compute; congruence. Qed.

Lemma toupper_idemp (c : ascii) : toupper (toupper c) = toupper c.
Proof. each_char c; reflexivity. Qed.

Lemma toupper_paren (c : ascii) : toupper c = "("%char -> c = "("%char.
Proof. each_char c; vm_compute; congruence. Qed.

(** ** The normalizer *)

Section NormalizerFacts.

Context `{libc : Libc} `{cm : CanonicalMachine}.

Lemma command_of_no_NUL (line : list ascii) :
  Forall (fun c => c <> NUL) (command_of line).
Proof.
  induction line as [|c0 line IH]; simpl; [constructor|].
  destruct (isupper (toupper c0) || isdigit (toupper c0)) eqn:E1.
  { constructor; [|done]. intros E. rewrite E in E1. discriminate. }
  destruct (Ascii.eqb (toupper c0) "("); [constructor|].
  destruct (tossed (toupper c0)) eqn:E2; [done|].
  constructor; [|done]. intros E. rewrite E in E2. unfold tossed in E2.
  destruct plain_char_signed eqn:Es; unfold char_to_int in E2; rewrite Es in E2;
    discriminate.
Qed.

Lemma command_of_length (line : list ascii) :
  (length (command_of line) <= length line)%nat.
Proof.
  induction line as [|c0 line IH]; simpl; [lia|].
  repeat match goal with |- context [if ?b then _ else _] => destruct b end;
    simpl; lia.
Qed.

(** The copy loop, started at [i] and [j] on a line whose terminator is
    within reach of the 8-bit index, ends and has copied the command part
    of what was left of the line. *)
Lemma normalize_loop_spec (rest : list ascii) :
  forall (fuel : nat) (block : list ascii) (i j : nat),
    cstring (drop i block) = rest ->
    (j <= i <= length block)%nat ->
    (i + length rest <= 255)%nat ->
    (length rest < fuel)%nat ->
    exists (block' : list ascii) (j' : nat) (comment : option Z),
      normalize_loop fuel block (Z.of_nat i) (Z.of_nat j)
        = Some (block', Z.of_nat j', comment)
      /\ copied block block' j j' (command_of rest)
      /\ comment_at block' j' comment (comment_of rest).
Proof.
  induction rest as [|c0 rest IH]; intros fuel block i j Hs Hij Hr Hf;
    (destruct fuel as [|fuel]; [simpl in Hf; lia|]);
    cbn [normalize_loop command_of comment_of]; cbv zeta; rewrite rd_nat.
  { exists block, j, None. rewrite (cstring_drop_nil _ _ Hs). simpl.
    unfold copied. rewrite app_nil_r. repeat split; try done; lia. }
  simpl in Hr, Hf.
  apply cstring_drop_cons in Hs as (Hi & Hc0 & Hs).
  pose proof (lookup_lt_Some _ _ _ Hi) as Hlen.
  rewrite Hi. simpl default.
  replace (Ascii.eqb (toupper c0) NUL) with false
    by (symmetry; apply Ascii.eqb_neq; intros E; by apply toupper_NUL in E).
  replace (uint8 (Z.of_nat i + 1)) with (Z.of_nat (S i))
    by (rewrite uint8_small; lia).
  replace (uint8 (Z.of_nat j + 1)) with (Z.of_nat (S j))
    by (rewrite uint8_small; lia).
  (* the character is copied *)
  assert (Hkeep : forall c : ascii,
    exists (block' : list ascii) (j' : nat) (comment : option Z),
      normalize_loop fuel (wr block (Z.of_nat j) c)
        (Z.of_nat (S i)) (Z.of_nat (S j))
        = Some (block', Z.of_nat j', comment)
      /\ copied block block' j j' (c :: command_of rest)
      /\ comment_at block' j' comment (comment_of rest)).
  { intros c. rewrite wr_nat.
    destruct (IH fuel (<[j := c]> block) (S i) (S j))
      as (block' & j' & comment & E & (Hl & Ht & Hj & Hjl) & Hc).
    - by rewrite drop_insert_lt by lia.
    - rewrite length_insert. lia.
    - lia.
    - lia.
    - exists block', j', comment. rewrite length_insert in Hl.
      split; [done|]. split; [|done]. unfold copied. simpl.
      split; [done|]. split; [|lia].
      rewrite Ht, (take_S_r _ _ c).
      + rewrite take_insert_ge by lia. by rewrite <- app_assoc.
      + apply list_lookup_insert_eq. lia. }
  (* the character is dropped *)
  assert (Hskip :
    exists (block' : list ascii) (j' : nat) (comment : option Z),
      normalize_loop fuel block (Z.of_nat (S i)) (Z.of_nat j)
        = Some (block', Z.of_nat j', comment)
      /\ copied block block' j j' (command_of rest)
      /\ comment_at block' j' comment (comment_of rest)).
  { apply IH; [done|lia|lia|lia]. }
  destruct (isupper (toupper c0) || isdigit (toupper c0)) eqn:E1.
  { replace (Ascii.eqb c0 "(") with false; [apply Hkeep|].
    symmetry. apply Ascii.eqb_neq. by intros ->. }
  destruct (Ascii.eqb_spec (toupper c0) "(") as [Ep|Ep].
  { apply toupper_paren in Ep. subst c0. simpl Ascii.eqb. cbv iota.
    exists (wr block (Z.of_nat j) NUL), j, (Some (Z.of_nat (S i))).
    unfold copied. rewrite wr_nat, length_insert, take_insert_ge, app_nil_r by lia.
    repeat split; try done; try lia.
    exists (S i). rewrite drop_insert_lt by lia. repeat split; try done; lia. }
  replace (Ascii.eqb c0 "(") with false
    by (symmetry; apply Ascii.eqb_neq; by intros ->).
  unfold tossed.
  destruct (char_to_int (toupper c0) <=? char_to_int " "); [done|].
  destruct (char_to_int (toupper c0) =? 127); [done|].
  destruct (strchr invalid_punctuation (toupper c0)); [done|].
  apply Hkeep.
Qed.

(** The loop over the comment ends and cuts it at the first closing
    parenthesis. *)
Lemma trailing_paren_loop_spec (rest : list ascii) :
  forall (fuel : nat) (block : list ascii) (k i : nat),
    cstring (drop (k + i) block) = rest ->
    (i + length rest <= 255)%nat ->
    (length rest < fuel)%nat ->
    exists block' : list ascii,
      trailing_paren_loop fuel block (Z.of_nat k) (Z.of_nat i) = Some block'
      /\ length block' = length block
      /\ take (k + i) block' = take (k + i) block
      /\ cstring (drop (k + i) block') = until_paren rest.
Proof.
  induction rest as [|c rest IH]; intros fuel block k i Hs Hr Hf;
    (destruct fuel as [|fuel]; [simpl in Hf; lia|]);
    cbn [trailing_paren_loop]; cbv zeta;
    rewrite <- Nat2Z.inj_add, rd_nat.
  - rewrite (cstring_drop_nil _ _ Hs). simpl. eauto.
  - simpl in Hr, Hf. pose proof Hs as Hs0.
    apply cstring_drop_cons in Hs as (Hi & Hc & Hs).
    pose proof (lookup_lt_Some _ _ _ Hi) as Hlen.
    rewrite Hi. simpl default.
    destruct (Ascii.eqb_spec c NUL) as [|_]; [done|].
    assert (Hi1 : uint8 (Z.of_nat i + 1) = Z.of_nat (S i)).
    { rewrite uint8_small; lia. }
    rewrite Hi1. simpl until_paren.
    destruct (Ascii.eqb c ")").
    + replace (uint8 (Z.of_nat (S i) - 1)) with (Z.of_nat i)
        by (rewrite uint8_small; lia).
      rewrite <- Nat2Z.inj_add, wr_nat. eexists. split; [done|].
      rewrite length_insert, take_insert_ge by lia. repeat split.
      rewrite drop_insert_ge, Nat.sub_diag, (drop_S _ _ _ Hi) by lia. done.
    + destruct (IH fuel block k (S i)) as (block' & E & Hl & Ht & Hd).
      * by rewrite Nat.add_succ_r.
      * lia.
      * lia.
      * exists block'. rewrite Nat.add_succ_r in Ht, Hd.
        assert (Ht' : take (k + i) block' = take (k + i) block).
        { apply (f_equal (take (k + i))) in Ht.
          by rewrite !take_take, !Nat.min_l in Ht by lia. }
        repeat split; try done.
        assert (Hi' : block' !! (k + i)%nat = Some c).
        { apply (f_equal (fun l => l !! (k + i)%nat)) in Ht.
          rewrite !lookup_take_lt in Ht by lia. by rewrite Ht. }
        rewrite (drop_S _ _ _ Hi'). simpl.
        destruct (Ascii.eqb_spec c NUL); [done|]. by rewrite Hd.
Qed.

(** The test for the MSG specifier reads the first three bytes of the
    comment, and no further than its terminator. *)
Lemma msg_test (block : list ascii) (k : nat) (text : list ascii) :
  cstring (drop k block) = text ->
  Ascii.eqb (toupper (rd block (Z.of_nat k))) "M"
  && Ascii.eqb (toupper (rd block (Z.of_nat k + 1))) "S"
  && Ascii.eqb (toupper (rd block (Z.of_nat k + 2))) "G" = is_msg text.
Proof.
  intros Hs.
  replace (Z.of_nat k + 1) with (Z.of_nat (S k)) by lia.
  replace (Z.of_nat k + 2) with (Z.of_nat (S (S k))) by lia.
  rewrite !rd_nat.
  destruct text as [|a text].
  { by rewrite (cstring_drop_nil _ _ Hs). }
  apply cstring_drop_cons in Hs as (-> & _ & Hs). simpl default.
  destruct text as [|b text].
  { rewrite (cstring_drop_nil _ _ Hs). simpl. by rewrite andb_false_r. }
  apply cstring_drop_cons in Hs as (-> & _ & Hs). simpl default.
  destruct text as [|c text].
  { rewrite (cstring_drop_nil _ _ Hs). simpl. by rewrite andb_false_r. }
  apply cstring_drop_cons in Hs as (-> & _ & Hs). done.
Qed.

Lemma is_msg_until_paren (text : list ascii) :
  is_msg text = true ->
  exists a b c t,
    text = a :: b :: c :: t /\ until_paren text = a :: b :: c :: until_paren t.
Proof.
  destruct text as [|a [|b [|c t]]]; try discriminate. simpl.
  intros H. apply andb_prop in H as [H Hc]. apply andb_prop in H as [Ha Hb].
  exists a, b, c, t. split; [done|].
  destruct (Ascii.eqb_spec a ")") as [->|]; [discriminate|].
  destruct (Ascii.eqb_spec b ")") as [->|]; [discriminate|].
  destruct (Ascii.eqb_spec c ")") as [->|]; [discriminate|]. done.
Qed.

Lemma comment_of_length (line text : list ascii) :
  comment_of line = Some text -> (length text < length line)%nat.
Proof.
  induction line as [|c line IH]; simpl; [done|].
  destruct (Ascii.eqb c "("); intros H; simplify_eq; [lia|].
  apply IH in H. lia.
Qed.

(** The normalizer, run on a line whose terminator is within reach of the
    8-bit index, ends; it leaves the normalized command in the buffer and
    emits the message of the line. *)
Lemma normalize_spec (fuel : nat) (block : list ascii) (s : State) :
  (length (cstring block) <= 255)%nat -> (255 < fuel)%nat ->
  exists block' : list ascii,
    _gc_normalize_gcode_block fuel block s
      = Some (block', emit (message_of (cstring block)) s)
    /\ length block' = length block
    /\ cstring block' = normalized (cstring block).
Proof.
  intros Hlen Hfuel. unfold _gc_normalize_gcode_block, normalized, message_of.
  change 0 with (Z.of_nat 0). rewrite rd_nat.
  destruct (Ascii.eqb_spec (default NUL (block !! 0%nat)) "/") as [E|Hc0].
  { destruct block as [|c0 block]; [discriminate|]. simpl in E. subst c0.
    simpl. eauto. }
  assert (Hbd : block_deleted (cstring block) = false).
  { destruct block as [|c0 block]; [done|]. simpl in *.
    destruct (Ascii.eqb c0 NUL); [done|]. simpl. by apply Ascii.eqb_neq. }
  rewrite Hbd.
  destruct (normalize_loop_spec (cstring block) fuel block 0 0)
    as (b1 & j & comment & E & (Hl1 & Ht & Hj & Hjl) & Hc);
    [done|lia|lia|lia|].
  unfold comment_at in Hc.
  rewrite E, wr_nat. rewrite take_0, app_nil_l in Ht.
  assert (Hcmd : cstring (<[j := NUL]> b1) = command_of (cstring block)).
  { rewrite cstring_insert_NUL; [done|done|].
    rewrite Ht. apply command_of_no_NUL. }
  destruct comment as [k|], (comment_of (cstring block)) as [text|] eqn:Ec;
    try done.
  2:{ eexists. split; [done|]. by rewrite length_insert. }
  destruct Hc as (k' & -> & Hk & Hkt & Htext).
  assert (Htext' : cstring (drop k' (<[j := NUL]> b1)) = text).
  { by rewrite drop_insert_lt by lia. }
  rewrite (msg_test _ _ _ Htext').
  destruct (is_msg text) eqn:Em.
  2:{ eexists. split; [done|]. by rewrite length_insert. }
  destruct (trailing_paren_loop_spec text fuel (<[j := NUL]> b1) k' 0)
    as (b3 & E3 & Hl3 & Ht3 & Hd3).
  { by rewrite Nat.add_0_r. }
  { lia. }
  { lia. }
  rewrite Nat.add_0_r in Ht3, Hd3. change 0 with (Z.of_nat 0). rewrite E3.
  replace (Z.of_nat k' + 3) with (Z.of_nat (S (S (S k')))) by lia.
  rewrite cstring_at_nat.
  destruct (is_msg_until_paren _ Em) as (a & b & c & t & -> & Hu).
  rewrite Hu in Hd3 |- *.
  apply cstring_drop_cons in Hd3 as (_ & _ & Hd3).
  apply cstring_drop_cons in Hd3 as (_ & _ & Hd3).
  apply cstring_drop_cons in Hd3 as (_ & _ & Hd3).
  rewrite Hd3. simpl drop. eexists. split; [done|].
  split; [by rewrite Hl3, length_insert|].
  rewrite <- Hcmd. apply (cstring_take _ _ k'); [done|].
  rewrite Hcmd, <- Ht, length_take. lia.
Qed.

(** The reach of the 8-bit index is a real bound: on a buffer whose first
    256 bytes hold neither a NUL nor an opening parenthesis the index wraps
    around and the copy loop never leaves. *)
Lemma normalize_loop_wraps (fuel : nat) :
  forall (block : list ascii) (i j : Z),
    0 <= i < 256 -> 0 <= j < 256 ->
    (256 <= length block)%nat ->
    Forall (fun c => c <> NUL /\ c <> "("%char) (take 256 block) ->
    normalize_loop fuel block i j = None.
Proof.
  induction fuel as [|fuel IH]; intros block i j Hi Hj Hlen Hall; [done|].
  cbn [normalize_loop]. cbv zeta.
  assert (Hc : exists c, block !! Z.to_nat i = Some c
                         /\ c <> NUL /\ c <> "("%char).
  { destruct (lookup_lt_is_Some_2 (take 256 block) (Z.to_nat i)) as [c Hc].
    - rewrite length_take. lia.
    - exists c. split; [by apply lookup_take_Some in Hc as [? _]|].
      apply (Forall_lookup_1 _ _ _ _ Hall Hc). }
  destruct Hc as (c & Hc & Hnul & Hpar). unfold rd. rewrite Hc. simpl default.
  destruct (Ascii.eqb_spec (toupper c) NUL) as [E|_];
    [by apply toupper_NUL in E|].
  assert (Hi' : 0 <= uint8 (i + 1) < 256) by (apply Z.mod_pos_bound; lia).
  assert (Hj' : 0 <= uint8 (j + 1) < 256) by (apply Z.mod_pos_bound; lia).
  assert (Hwr : normalize_loop fuel (wr block j (toupper c)) (uint8 (i + 1))
                  (uint8 (j + 1)) = None).
  { apply IH; try done.
    - unfold wr. by rewrite length_insert.
    - unfold wr. rewrite take_insert_lt by lia. apply Forall_insert; [done|].
      split; intros E; [by apply toupper_NUL in E|by apply toupper_paren in E]. }
  destruct (isupper (toupper c) || isdigit (toupper c)); [done|].
  destruct (Ascii.eqb_spec (toupper c) "(") as [E|_];
    [by apply toupper_paren in E|].
  repeat match goal with |- context [if ?b then _ else _] => destruct b end;
    auto.
Qed.

(** So the normalizer never returns from a line of 256 letters. *)
Lemma long_line_is_never_normalized (fuel : nat) (s : State) :
  _gc_normalize_gcode_block fuel (repeat "A"%char 256) s = None.
Proof.
  unfold _gc_normalize_gcode_block.
  replace (Ascii.eqb (rd (repeat "A"%char 256) 0) "/") with false by done.
  rewrite normalize_loop_wraps; [done|lia|lia|by rewrite repeat_length|].
  rewrite take_ge by (by rewrite repeat_length).
  apply Forall_forall. intros c Hc. apply list_elem_of_In, repeat_spec in Hc.
  by subst c.
Qed.

End NormalizerFacts.

(** ** The tokenizer *)

Lemma cstring_drop (l : list ascii) (i : nat) :
  (i <= length (cstring l))%nat -> cstring (drop i l) = drop i (cstring l).
Proof.
  revert i. induction l as [|c l IH]; intros [|i] Hi; simpl in *; try done.
  destruct (Ascii.eqb c NUL); simpl in *; [lia|]. apply IH. lia.
Qed.

Lemma rd_cstring (l : list ascii) (i : nat) :
  (i <= length (cstring l))%nat ->
  rd l (Z.of_nat i) = default NUL (cstring l !! i).
Proof.
  intros Hi. rewrite rd_nat.
  destruct (cstring (drop i l)) as [|c r] eqn:E.
  - rewrite (cstring_drop_nil _ _ E). rewrite cstring_drop in E by done.
    apply (f_equal length) in E. rewrite length_drop in E. simpl in E.
    rewrite (lookup_ge_None_2 (cstring l) i); [done|lia].
  - pose proof E as E'. apply cstring_drop_cons in E as (-> & _ & _).
    rewrite cstring_drop in E' by done.
    destruct (cstring l !! i) as [c'|] eqn:E2.
    + rewrite (drop_S _ _ _ E2) in E'. by simplify_eq.
    + apply lookup_ge_None in E2. rewrite drop_ge in E' by done. done.
Qed.

Section TokenizerFacts.

Context `{libc : Libc} `{cm : CanonicalMachine}.

Lemma isupper_not_NUL (c : ascii) : isupper c = true -> c <> NUL.
Proof. by intros H ->. Qed.

(** One call of the tokenizer at a cursor inside a line whose terminator is
    within reach of the 8-bit cursor. *)
Lemma next_statement_spec (buf : list ascii) (i : nat) (s : State) :
  (i <= length (cstring buf) <= 255)%nat ->
  let c := rd buf (Z.of_nat i) in
  let v := fst (strtod (cstring_at buf (Z.of_nat (S i)))) in
  let n := snd (strtod (cstring_at buf (Z.of_nat (S i)))) in
  (c = NUL /\ i = length (cstring buf)
   /\ _gc_next_statement buf (Z.of_nat i) s = (false, Z.of_nat i, s))
  \/ (c <> NUL /\ isupper c = false
      /\ _gc_next_statement buf (Z.of_nat i) s
         = (false, Z.of_nat i,
            set_gp_status TG_EXPECTED_COMMAND_LETTER (set_gp_letter c s)))
  \/ (isupper c = true /\ n = O
      /\ _gc_next_statement buf (Z.of_nat i) s
         = (false, Z.of_nat (S i),
            set_gp_status TG_BAD_NUMBER_FORMAT
              (set_gp_value v (set_gp_letter c s))))
  \/ (isupper c = true /\ (0 < n)%nat
      /\ (S i + n <= length (cstring buf))%nat
      /\ _gc_next_statement buf (Z.of_nat i) s
         = (true, Z.of_nat (S i + n),
            set_gp_fraction (fraction_of v)
              (set_gp_value v (set_gp_letter c s)))).
Proof.
  intros Hi c v n. unfold _gc_next_statement. fold c.
  destruct (Ascii.eqb_spec c NUL) as [E|E].
  { left. split; [done|]. split; [|done].
    unfold c in E. rewrite rd_cstring in E by lia.
    destruct (cstring buf !! i) as [c'|] eqn:E2.
    - simpl in E. subst c'. apply list_elem_of_lookup_2 in E2.
      pose proof (cstring_no_NUL buf) as H. rewrite Forall_forall in H.
      by apply H in E2.
    - apply lookup_ge_None in E2. lia. }
  right. assert (Hlt : (i < length (cstring buf))%nat).
  { destruct (decide (i = length (cstring buf))) as [->|]; [|lia].
    unfold c in E. rewrite rd_cstring, lookup_ge_None_2 in E by lia. done. }
  replace (gp_letter (set_gp_letter c s)) with c by by destruct s.
  destruct (isupper c) eqn:Eu; simpl negb; cbv iota.
  2:{ left. done. }
  right. replace (uint8 (Z.of_nat i + 1)) with (Z.of_nat (S i))
    by (rewrite uint8_small; lia).
  unfold _gc_read_double.
  pose proof (strtod_end (cstring_at buf (Z.of_nat (S i)))) as Hn.
  replace (length (cstring_at buf (Z.of_nat (S i))))
    with (length (cstring buf) - S i)%nat in Hn
    by (by rewrite cstring_at_nat, cstring_drop, length_drop by lia).
  subst v n.
  destruct (strtod (cstring_at buf (Z.of_nat (S i)))) as [v n]. simpl in *.
  destruct (Nat.eqb_spec n 0) as [->|Hn0]; simpl negb; cbv iota.
  { left. done. }
  right. split; [done|]. split; [lia|]. split; [lia|].
  rewrite uint8_small by lia.
  replace (Z.of_nat (S i) + Z.of_nat n) with (Z.of_nat (S (i + n))) by lia.
  by destruct s.
Qed.

Lemma drop_cstring_cons (buf : list ascii) (i : nat) c r :
  (i <= length (cstring buf))%nat -> drop i (cstring buf) = c :: r ->
  rd buf (Z.of_nat i) = c /\ drop (S i) (cstring buf) = r
  /\ (S i <= length (cstring buf))%nat.
Proof.
  intros Hi Hd. rewrite rd_cstring by done.
  destruct (cstring buf !! i) as [c'|] eqn:E.
  - rewrite (drop_S _ _ _ E) in Hd. simplify_eq.
    apply lookup_lt_Some in E. split; [done|]. split; [done|lia].
  - apply lookup_ge_None in E. rewrite drop_ge in Hd by done. done.
Qed.


End TokenizerFacts.

(** ** The letter dispatch and the parse loop *)

Section ParserFacts.

Context `{libc : Libc} `{cm : CanonicalMachine}.

(** What one statement can do to the state: the cases of the two nested
    switches, grouped by their effect on [gn.next_action]. *)
Lemma dispatch_statement_cases (P : State -> Prop) (s : State) :
  (forall m, P (SET_NEXT_ACTION_MOTION m_motion_mode m s)) ->
  P (SET_NEXT_STATE m_next_action NEXT_ACTION_DWELL s) ->
  P (SET_NEXT_STATE m_next_action NEXT_ACTION_GO_HOME s) ->
  (forall V (a : member V) (v : V),
      (forall g, next_action (put a v g) = next_action g) ->
      P (SET_NEXT_STATE a v s)) ->
  P s ->
  P (set_gp_status TG_UNSUPPORTED_STATEMENT s) ->
  P (dispatch_statement s).
Proof.
  intros Hm Hd Hh Ho Hs Hu. unfold dispatch_statement.
  destruct (gp_letter s) as [[] [] [] [] [] [] [] []];
    try first [exact Hu | exact Hs | (apply Ho; intros []; reflexivity)].
  all: destruct (trunc (gp_value s)) as [|p|p];
    try first [exact Hu | exact Hs | exact Hd | exact Hh | apply Hm
              | (apply Ho; intros []; reflexivity)].
  all: do 8 (try (destruct p as [p|p|];
    try first [exact Hu | exact Hs | exact Hd | exact Hh | apply Hm
              | (apply Ho; intros []; reflexivity)])).
Qed.

Lemma next_statement_frame (buf : list ascii) (i : Z) (s : State) :
  let '(_, _, s') := _gc_next_statement buf i s in
  same_world s s' /\ same_models s s'.
Proof.
  unfold _gc_next_statement, _gc_read_double, same_world, same_models.
  destruct (Ascii.eqb (rd buf i) NUL); [done|].
  destruct (negb (isupper (gp_letter (set_gp_letter (rd buf i) s))));
    [by destruct s|].
  destruct (strtod (cstring_at buf (uint8 (i + 1)))) as [v n].
  destruct (n =? 0)%nat; by destruct s.
Qed.

Lemma dispatch_statement_world (s : State) :
  same_world s (dispatch_statement s).
Proof.
  apply dispatch_statement_cases; intros; by destruct s.
Qed.

(** No statement sets the next action to the offset of coordinates. *)
Lemma dispatch_statement_next_action (s : State) :
  next_action (gn s) <> NEXT_ACTION_OFFSET_COORDINATES ->
  next_action (gn (dispatch_statement s)) <> NEXT_ACTION_OFFSET_COORDINATES.
Proof.
  intros Hs. apply dispatch_statement_cases; try done.
  - intros m. destruct s as [? ? ? ? [] ? ? ? ?]. done.
  - destruct s as [? ? ? ? [] ? ? ? ?]. done.
  - destruct s as [? ? ? ? [] ? ? ? ?]. done.
  - intros V a v Ha. destruct s. simpl in *. by rewrite Ha.
  - by destruct s.
Qed.

(** Whatever the line and the fuel, the parse loop leaves the canonical
    machine alone, and does not invent an offset of coordinates. *)
Lemma parse_loop_frame (fuel : nat) :
  forall (buf : list ascii) (i : Z) (s s' : State),
    parse_loop fuel buf i s = Some s' ->
    same_world s s'
    /\ (next_action (gn s) <> NEXT_ACTION_OFFSET_COORDINATES ->
        next_action (gn s') <> NEXT_ACTION_OFFSET_COORDINATES).
Proof.
  induction fuel as [|fuel IH]; intros buf i s s' E; [done|].
  cbn [parse_loop] in E.
  pose proof (next_statement_frame buf i s) as Hf.
  destruct (_gc_next_statement buf i s) as [[more i1] s1].
  destruct Hf as ((Hm & Hc & Hp) & (Hn & _)).
  destruct more.
  - pose proof (dispatch_statement_world s1) as (Hm2 & Hc2 & Hp2).
    pose proof (dispatch_statement_next_action s1) as Hna.
    destruct (nonzero (gp_status (dispatch_statement s1))).
    + simplify_eq. unfold same_world. rewrite Hm2, Hc2, Hp2, <- Hn. done.
    + apply IH in E as ((Hm3 & Hc3 & Hp3) & Hna3). unfold same_world.
      rewrite Hm3, Hc3, Hp3, Hm2, Hc2, Hp2, <- Hn. auto.
  - simplify_eq. unfold same_world. by rewrite Hn.
Qed.

(** On a line whose terminator is within reach of the 8-bit cursor the
    parse loop ends. *)
Lemma parse_loop_ends (fuel : nat) :
  forall (buf : list ascii) (i : nat) (s : State),
    (i <= length (cstring buf) <= 255)%nat ->
    (length (cstring buf) - i < fuel)%nat ->
    exists s' : State, parse_loop fuel buf (Z.of_nat i) s = Some s'.
Proof.
  induction fuel as [|fuel IH]; intros buf i s Hi Hf; [lia|].
  cbn [parse_loop].
  destruct (next_statement_spec buf i s Hi)
    as [(_ & _ & ->)|[(_ & _ & ->)|[(_ & _ & ->)|(_ & Hn & Hle & ->)]]];
    eauto.
  destruct (nonzero (gp_status _)); [eauto|]. apply IH; lia.
Qed.

Lemma parse_gcode_block_ends (fuel : nat) (buf : list ascii) (s : State) :
  (length (cstring buf) <= 255)%nat -> (255 < fuel)%nat ->
  exists r s', _gc_parse_gcode_block fuel buf s = Some (r, s').
Proof.
  intros Hl Hf. unfold _gc_parse_gcode_block.
  destruct (parse_loop_ends fuel buf 0 (preset_next_state s)) as [s' E];
    [lia|lia|].
  change (Z.of_nat 0) with 0 in E. rewrite E.
  destruct (_gc_execute_gcode_block s'). eauto.
Qed.

End ParserFacts.

(** ** The dispatcher *)

Section DispatcherFacts.

Context `{libc : Libc} `{cm : CanonicalMachine}.

Lemma call_cm_models (c : cm_call) (s : State) :
  same_models s (snd (call_cm c s)).
Proof. unfold call_cm. destruct (cm_exec c (gm s)). by destruct s. Qed.

Lemma set_gp_status_models (r : status) (s : State) :
  same_models s (set_gp_status r s).
Proof. by destruct s. Qed.

Lemma gp_status_set (r : status) (s : State) : gp_status (set_gp_status r s) = r.
Proof. by destruct s. Qed.

Lemma run_plan_app_when (b : bool) (c : cm_call) (p : list entry) (s : State) :
  run_plan (when b (Checked c) ++ p) s
  = if b then
      let (r, s) := call_cm c s in
      if nonzero r then (r, set_gp_status r s) else run_plan p (set_gp_status r s)
    else run_plan p s.
Proof. by destruct b. Qed.

Lemma CALL_CM_FUNC_follows {V} (f : V -> cm_call) (v : member V) k p :
  follows k p ->
  follows (CALL_CM_FUNC f v k)
    (fun g fl => when (flagged v fl) (Checked (f (get v g))) ++ p g fl).
Proof.
  intros Hk s. unfold CALL_CM_FUNC. rewrite run_plan_app_when.
  destruct (flagged v (gf s)); [|apply Hk].
  pose proof (call_cm_models (f (get v (gn s))) s) as [Hn Hf].
  destruct (call_cm (f (get v (gn s))) s) as [r s1]. simpl in Hn, Hf.
  rewrite gp_status_set. destruct (nonzero r); [done|].
  rewrite Hk. destruct (set_gp_status_models r s1) as [-> ->].
  by rewrite Hn, Hf.
Qed.

Lemma call_when_follows (b : GCodeModel -> bool) (c : GCodeModel -> cm_call) k p :
  follows k p ->
  follows (call_when (fun s => b (gn s)) (fun s => c (gn s)) k)
    (fun g fl => when (b g) (Checked (c g)) ++ p g fl).
Proof.
  intros Hk s. unfold call_when. rewrite run_plan_app_when.
  destruct (b (gn s)); [|apply Hk].
  pose proof (call_cm_models (c (gn s)) s) as [Hn Hf].
  destruct (call_cm (c (gn s)) s) as [r s1]. simpl in Hn, Hf.
  rewrite gp_status_set. destruct (nonzero r); [done|].
  rewrite Hk. destruct (set_gp_status_models r s1) as [-> ->].
  by rewrite Hn, Hf.
Qed.

Lemma spindle_on_or_off_follows k p :
  follows k p ->
  follows (spindle_on_or_off k)
    (fun g fl =>
       when (f_spindle_mode fl)
         (Unchecked
            match spindle_mode g with
            | SPINDLE_CW => CM_start_spindle_clockwise
            | SPINDLE_CCW => CM_start_spindle_counterclockwise
            | SPINDLE_OFF => CM_stop_spindle_turning
            end) ++ p g fl).
Proof.
  intros Hk s. unfold spindle_on_or_off.
  destruct (f_spindle_mode (gf s)); [|apply Hk]. simpl.
  destruct (spindle_mode (gn s)); simpl; rewrite Hk;
    match goal with |- context [call_cm ?c s] =>
      by destruct (call_cm_models c s) as [-> ->]
    end.
Qed.

Lemma motion_follows :
  follows
    (finish_when
       (fun s => next_action_is NEXT_ACTION_MOTION s
                 && motion_mode_is MOTION_MODE_STRAIGHT_TRAVERSE s)
       (fun s => CM_straight_traverse (elt (target (gn s)) X)
                   (elt (target (gn s)) Y) (elt (target (gn s)) Z_axis)) (
     finish_when
       (fun s => next_action_is NEXT_ACTION_MOTION s
                 && motion_mode_is MOTION_MODE_STRAIGHT_FEED s)
       (fun s => CM_straight_feed (elt (target (gn s)) X)
                   (elt (target (gn s)) Y) (elt (target (gn s)) Z_axis)) (
     finish_when
       (fun s => next_action_is NEXT_ACTION_MOTION s
                 && (motion_mode_is MOTION_MODE_CW_ARC s
                     || motion_mode_is MOTION_MODE_CCW_ARC s))
       (fun s => CM_arc_feed (elt (target (gn s)) X)
                   (elt (target (gn s)) Y) (elt (target (gn s)) Z_axis)
                   (elt (offset (gn s)) 0) (elt (offset (gn s)) 1)
                   (elt (offset (gn s)) 2) (radius (gn s)) (motion_mode (gn s))) (
     fun s => (gp_status s, s)))))
    (fun g _ => motion_plan g).
Proof.
  intros s. unfold finish_when, motion_plan, next_action_is, motion_mode_is, xyz.
  destruct (next_action_eqb (next_action (gn s)) NEXT_ACTION_MOTION); [|done].
  destruct (motion_mode (gn s)); simpl;
    try (match goal with |- context [call_cm ?c s] =>
           destruct (call_cm c s) as [r s1]
         end; by rewrite gp_status_set).
  done.
Qed.

(** The dispatcher carries out the plan of the block. *)
Lemma execute_gcode_block_plan (s : State) :
  _gc_execute_gcode_block s = run_plan (plan (gn s) (gf s)) s.
Proof.
  revert s.
  assert (H : follows _gc_execute_gcode_block
    (fun g f =>
       when (f_inverse_feed_rate_mode f)
         (Checked (CM_set_inverse_feed_rate_mode (inverse_feed_rate_mode g)))
       ++ when (f_feed_rate f) (Checked (CM_set_feed_rate (feed_rate g)))
       ++ when (f_spindle_speed f) (Checked (CM_set_spindle_speed (spindle_speed g)))
       ++ when (f_tool f) (Checked (CM_select_tool (tool g)))
       ++ when (f_tool f) (Checked (CM_change_tool (tool g)))
       ++ when (f_spindle_mode f)
            (Unchecked
               match spindle_mode g with
               | SPINDLE_CW => CM_start_spindle_clockwise
               | SPINDLE_CCW => CM_start_spindle_counterclockwise
               | SPINDLE_OFF => CM_stop_spindle_turning
               end)
       ++ when (next_action_eqb (next_action g) NEXT_ACTION_DWELL)
            (Checked (CM_dwell (dwell_time g)))
       ++ when (f_set_plane f) (Checked (CM_select_plane (set_plane g)))
       ++ when (f_inches_mode f) (Checked (CM_use_length_units (inches_mode g)))
       ++ when (f_absolute_mode f) (Checked (CM_set_distance_mode (absolute_mode g)))
       ++ when (next_action_eqb (next_action g) NEXT_ACTION_GO_HOME)
            (Checked CM_return_to_home)
       ++ when (next_action_eqb (next_action g) NEXT_ACTION_OFFSET_COORDINATES)
            (Checked (xyz CM_set_origin_offsets g))
       ++ motion_plan g));
    [|intros s; rewrite (H s); unfold plan, settings_plan;
      by rewrite <- !app_assoc].
  unfold _gc_execute_gcode_block.
  apply (CALL_CM_FUNC_follows _ m_inverse_feed_rate_mode).
  apply (CALL_CM_FUNC_follows _ m_feed_rate).
  apply (CALL_CM_FUNC_follows _ m_spindle_speed).
  apply (CALL_CM_FUNC_follows _ m_tool).
  apply (CALL_CM_FUNC_follows _ m_tool).
  apply spindle_on_or_off_follows.
  apply (call_when_follows
           (fun g => next_action_eqb (next_action g) NEXT_ACTION_DWELL)
           (fun g => CM_dwell (dwell_time g))).
  apply (CALL_CM_FUNC_follows _ m_set_plane).
  apply (CALL_CM_FUNC_follows _ m_inches_mode).
  apply (CALL_CM_FUNC_follows _ m_absolute_mode).
  apply (call_when_follows
           (fun g => next_action_eqb (next_action g) NEXT_ACTION_GO_HOME)
           (fun _ => CM_return_to_home)).
  apply (call_when_follows
           (fun g => next_action_eqb (next_action g) NEXT_ACTION_OFFSET_COORDINATES)
           (xyz CM_set_origin_offsets)).
  apply motion_follows.
Qed.

Lemma call_cm_spec (c : cm_call) (s : State) :
  fst (call_cm c s) = fst (cm_exec c (gm s))
  /\ gm (snd (call_cm c s)) = snd (cm_exec c (gm s))
  /\ calls (snd (call_cm c s)) = calls s ++ [c]
  /\ printed (snd (call_cm c s)) = printed s
  /\ same_models s (snd (call_cm c s)).
Proof. unfold call_cm. destruct (cm_exec c (gm s)). by destruct s. Qed.

Lemma ending_cons (e : entry) m p made r :
  is_final e = false ->
  ending (snd (cm_exec (entry_call e) m)) p made r ->
  ending m (e :: p) (e :: made) r.
Proof.
  intros He [-> Hp|before rest c -> -> Hb -> Hr|before rest c -> -> Hb ->].
  - apply ending_done; [done|]. simpl. by rewrite He.
  - apply (ending_failed _ _ _ _ (e :: before) rest c); try done.
    simpl. by rewrite He.
  - apply (ending_final _ _ _ _ (e :: before) rest c); try done.
    simpl. by rewrite He.
Qed.

Lemma run_plan_spec (p : list entry) :
  forall s : State,
    exists made : list entry,
      ending (gm s) p made (fst (run_plan p s))
      /\ calls (snd (run_plan p s)) = calls s ++ map entry_call made
      /\ gm (snd (run_plan p s)) = machine_after (map entry_call made) (gm s)
      /\ printed (snd (run_plan p s)) = printed s
      /\ same_models s (snd (run_plan p s))
      /\ gp_status (snd (run_plan p s)) = fst (run_plan p s).
Proof.
  induction p as [|e p IH]; intros s.
  { exists []. simpl. rewrite app_nil_r. repeat split; try done.
    by apply ending_done. }
  destruct (call_cm_spec (entry_call e) s) as (Hr & Hm & Hc & Hp & Hn & Hf).
  destruct e as [c|c|c]; simpl in *.
  - destruct (call_cm c s) as [r s1]. simpl in *. subst r.
    destruct (nonzero (cm_exec c (gm s)).1) eqn:Enz.
    + exists [Checked c]. simpl. repeat split; try by destruct s1.
      by apply (ending_failed _ _ _ _ [] p c).
    + destruct (IH (set_gp_status (cm_exec c (gm s)).1 s1))
        as (made & He & Hc' & Hm' & Hp' & (Hn' & Hf') & Hs').
      exists (Checked c :: made). repeat split.
      * apply ending_cons; [done|]. simpl. rewrite <- Hm.
        by replace (gm s1) with (gm (set_gp_status (cm_exec c (gm s)).1 s1))
          by by destruct s1.
      * rewrite Hc'. simpl. replace (calls (set_gp_status _ s1)) with (calls s1)
          by by destruct s1. by rewrite Hc, <- app_assoc.
      * rewrite Hm'. simpl. unfold machine_after. simpl. rewrite <- Hm.
        by destruct s1.
      * rewrite Hp', <- Hp. by destruct s1.
      * rewrite Hn', <- Hn. by destruct s1.
      * rewrite Hf', <- Hf. by destruct s1.
      * done.
  - destruct (IH (call_cm c s).2)
      as (made & He & Hc' & Hm' & Hp' & (Hn' & Hf') & Hs').
    exists (Unchecked c :: made). repeat split; try congruence.
    + apply ending_cons; [done|]. simpl. by rewrite <- Hm.
    + rewrite Hc', Hc. simpl. by rewrite <- app_assoc.
    + rewrite Hm', Hm. done.
  - destruct (call_cm c s) as [r s1]. simpl in *. subst r.
    exists [Final c]. simpl. repeat split; try by destruct s1.
    by apply (ending_final _ _ _ _ [] p c).
Qed.

Lemma forallb_when (P : entry -> bool) (b : bool) (e : entry) :
  P e = true -> forallb P (when b e) = true.
Proof. intros H. destruct b; simpl; by rewrite ?H. Qed.

Lemma settings_plan_plain (g : GCodeModel) (f : GCodeFlags) :
  forallb plain (settings_plan g f) = true.
Proof.
  unfold settings_plan. rewrite !forallb_app.
  repeat (apply andb_true_intro; split); apply forallb_when; try done.
  by destruct (spindle_mode g).
Qed.

Lemma motion_plan_cases (g : GCodeModel) :
  motion_plan g = []
  \/ exists c, motion_plan g = [Final c] /\ is_motion c = true.
Proof.
  unfold motion_plan.
  destruct (negb (next_action_eqb (next_action g) NEXT_ACTION_MOTION));
    [by left|].
  destruct (motion_mode g); eauto.
Qed.

Lemma above_weaken (n m : nat) (l : list nat) :
  (n <= m)%nat -> above m l -> above n l.
Proof.
  intros Hnm [Hs Hf]. split; [done|].
  eapply Forall_impl; [exact Hf|]. simpl. intros. lia.
Qed.

Lemma above_when (n : nat) (b : bool) (e : entry) (l : list entry) :
  (n < step_of (entry_call e))%nat ->
  above (step_of (entry_call e)) (map step_of (map entry_call l)) ->
  above n (map step_of (map entry_call (when b e ++ l))).
Proof.
  intros Hn Hl. destruct b; simpl.
  - destruct Hl as [Hs Hf]. split.
    + by constructor.
    + constructor; [done|]. eapply Forall_impl; [exact Hf|]. simpl. intros. lia.
  - apply (above_weaken _ _ _ (Nat.lt_le_incl _ _ Hn) Hl).
Qed.

(** The calls due come in the order of the steps of the dispatcher, at most
    one call a step. *)
Lemma due_sorted (s : State) : StronglySorted lt (map step_of (due s)).
Proof.
  unfold due, plan, settings_plan. rewrite <- !app_assoc.
  assert (Hm : above 12 (map step_of (map entry_call (motion_plan (gn s))))).
  { destruct (motion_plan_cases (gn s)) as [->|(c & -> & Hc)].
    - split; constructor.
    - assert (step_of c = 13%nat) as Hs by by destruct c.
      simpl. rewrite Hs. split; repeat constructor. }
  refine (proj1 (_ : above 0 _)).
  destruct (spindle_mode (gn s));
    repeat (apply above_when; [simpl; lia|]); exact Hm.
Qed.

Lemma forallb_plain_final (l : list entry) :
  forallb plain l = true -> forallb (fun e => negb (is_final e)) l = true.
Proof.
  induction l as [|e l IH]; simpl; [done|].
  unfold plain at 1. intros H. apply andb_prop in H as [H1 H2].
  apply andb_prop in H1 as [-> _]. by rewrite IH.
Qed.

(** In a plan, only a final entry is a motion. *)
Lemma plan_motion_final (g : GCodeModel) (f : GCodeFlags) (e : entry) :
  In e (plan g f) -> is_final e = false -> is_motion (entry_call e) = false.
Proof.
  unfold plan. rewrite in_app_iff. intros [He|He] Hf.
  - pose proof (settings_plan_plain g f) as H.
    rewrite forallb_forall in H. apply H in He. unfold plain in He.
    apply andb_prop in He as [_ He]. by destruct (is_motion (entry_call e)).
  - destruct (motion_plan_cases g) as [E|(c & E & _)]; rewrite E in He;
      simpl in He; [done|]. destruct He as [<-|[]]. done.
Qed.

(** The first final entry of a list of entries is where it is. *)
Lemma first_final (a b ra rb : list entry) (x y : entry) :
  forallb (fun e => negb (is_final e)) a = true ->
  forallb (fun e => negb (is_final e)) b = true ->
  is_final x = true -> is_final y = true ->
  a ++ x :: ra = b ++ y :: rb -> a = b /\ x = y /\ ra = rb.
Proof.
  revert b. induction a as [|e a IH]; intros [|e' b] Ha Hb Hx Hy E;
    simpl in *; simplify_eq.
  - done.
  - rewrite Hx in Hb. done.
  - rewrite Hy in Ha. done.
  - apply andb_prop in Ha as [_ Ha]. apply andb_prop in Hb as [_ Hb].
    destruct (IH b Ha Hb Hx Hy) as (-> & -> & ->); done.
Qed.

(** The dispatcher makes the calls due, in their order, as far as the first
    checked call that fails; once it makes the motion call, it has made all
    the calls due, the motion is the last, and its status is returned. *)
Lemma execute_gcode_block_calls (s : State) :
  let r := fst (_gc_execute_gcode_block s) in
  let s' := snd (_gc_execute_gcode_block s) in
  exists made : list cm_call,
    calls s' = calls s ++ made
    /\ gm s' = machine_after made (gm s)
    /\ made `prefix_of` due s
    /\ forall c : cm_call,
        In c made -> is_motion c = true ->
        made = due s
        /\ exists before : list cm_call,
            made = before ++ [c] /\ r = status_after before c (gm s).
Proof.
  intros r s'. subst r s'. rewrite execute_gcode_block_plan.
  destruct (run_plan_spec (plan (gn s) (gf s)) s)
    as (made & He & Hc & Hm & _).
  exists (map entry_call made). split; [done|]. split; [done|].
  unfold due.
  pose proof (plan_motion_final (gn s) (gf s)) as Hplain.
  destruct He as [-> Hp|before rest c E -> Hb -> Hr|before rest c E -> Hb ->].
  - split; [done|]. intros c Hc' Hmo. exfalso.
    apply in_map_iff in Hc' as (e & <- & He).
    rewrite forallb_forall in Hp. pose proof (Hp e He) as Hf.
    rewrite (Hplain e He) in Hmo; [done|]. by destruct (is_final e).
  - split.
    { rewrite E, !map_app. apply prefix_app, prefix_cons, prefix_nil. }
    intros c' Hc' Hmo. exfalso.
    apply in_map_iff in Hc' as (e & <- & He).
    rewrite (Hplain e) in Hmo; [done| |].
    + rewrite E. rewrite in_app_iff in He |- *. simpl in *. tauto.
    + rewrite in_app_iff in He. destruct He as [He|[<-|[]]]; [|done].
      rewrite forallb_forall in Hb. apply Hb in He. by destruct (is_final e).
  - assert (Hfull : plan (gn s) (gf s) = before ++ [Final c]).
    { unfold plan in *.
      destruct (motion_plan_cases (gn s)) as [E'|(c'' & E' & _)]; rewrite E' in *.
      - exfalso. rewrite app_nil_r in E.
        pose proof (forallb_plain_final _ (settings_plan_plain (gn s) (gf s))) as H.
        rewrite E, forallb_app in H. simpl in H. by rewrite andb_false_r in H.
      - pose proof (forallb_plain_final _ (settings_plan_plain (gn s) (gf s))) as H.
        destruct (first_final _ _ [] rest (Final c'') (Final c) H Hb
                    eq_refl eq_refl E) as (-> & Ec & _). by simplify_eq. }
    split; [by rewrite Hfull|]. intros c' Hc' Hmo. split; [by rewrite Hfull|].
    rewrite map_app in Hc' |- *. simpl in *.
    apply in_app_iff in Hc' as [Hc'|[<-|[]]]; [|eauto].
    exfalso. apply in_map_iff in Hc' as (e & <- & He).
    rewrite (Hplain e) in Hmo; [done| |].
    + rewrite E. rewrite in_app_iff. tauto.
    + rewrite forallb_forall in Hb. apply Hb in He. by destruct (is_final e).
Qed.

End DispatcherFacts.

(** ** Character set and idempotence of the command part *)

Section CommandFacts.

Context `{libc : Libc}.

Lemma kept_charset (c : ascii) :
  islower c = false ->
  Ascii.eqb c "(" = false -> tossed c = false -> code_charset c = true.
Proof.
  unfold tossed, code_charset, char_to_int.
  destruct plain_char_signed; each_char c; vm_compute; congruence.
Qed.

Lemma toupper_not_lower (c : ascii) : islower (toupper c) = false.
Proof. each_char c; reflexivity. Qed.

Lemma command_of_charset (line : list ascii) :
  Forall (fun c => code_charset c = true) (command_of line).
Proof.
  induction line as [|c0 line IH]; simpl; [constructor|].
  destruct (isupper (toupper c0) || isdigit (toupper c0)) eqn:E1.
  { constructor; [|done]. unfold code_charset, spec_charset. by rewrite E1. }
  destruct (Ascii.eqb (toupper c0) "(") eqn:E2; [constructor|].
  destruct (tossed (toupper c0)) eqn:E3; [done|].
  constructor; [|done]. apply kept_charset; [apply toupper_not_lower|done..].
Qed.

Lemma upper_or_digit_not_paren (c : ascii) :
  isupper c || isdigit c = true -> Ascii.eqb c "(" = false.
Proof. destruct (Ascii.eqb_spec c "(") as [->|]; [discriminate|done]. Qed.

Lemma command_of_idemp (line : list ascii) :
  command_of (command_of line) = command_of line.
Proof.
  induction line as [|c0 line IH]; simpl; [done|].
  destruct (isupper (toupper c0) || isdigit (toupper c0)) eqn:E1.
  { simpl. by rewrite toupper_idemp, E1, IH. }
  destruct (Ascii.eqb (toupper c0) "(") eqn:E2; [done|].
  destruct (tossed (toupper c0)) eqn:E3; [done|].
  simpl. by rewrite toupper_idemp, E1, E2, E3, IH.
Qed.

Lemma comment_of_command (line : list ascii) :
  comment_of (command_of line) = None.
Proof.
  induction line as [|c0 line IH]; simpl; [done|].
  destruct (isupper (toupper c0) || isdigit (toupper c0)) eqn:E1.
  { simpl. by rewrite (upper_or_digit_not_paren _ E1). }
  destruct (Ascii.eqb (toupper c0) "(") eqn:E2; [done|].
  destruct (tossed (toupper c0)) eqn:E3; [done|].
  simpl. by rewrite E2.
Qed.

Lemma normalized_length (line : list ascii) :
  (length (normalized line) <= length line)%nat.
Proof.
  unfold normalized. destruct (block_deleted line); simpl; [lia|].
  apply command_of_length.
Qed.

Lemma normalized_no_NUL (line : list ascii) :
  Forall (fun c => c <> NUL) (normalized line).
Proof.
  unfold normalized. destruct (block_deleted line); [constructor|].
  apply command_of_no_NUL.
Qed.

Lemma normalized_again (line : list ascii) :
  normalized (normalized line)
  = if block_deleted (normalized line) then [] else normalized line.
Proof.
  unfold normalized at 1.
  destruct (block_deleted (normalized line)); [done|].
  unfold normalized. destruct (block_deleted line); [done|].
  apply command_of_idemp.
Qed.

Lemma message_of_normalized (line : list ascii) :
  message_of (normalized line) = None.
Proof.
  unfold message_of. destruct (block_deleted (normalized line)); [done|].
  unfold normalized. destruct (block_deleted line); [done|].
  by rewrite comment_of_command.
Qed.

End CommandFacts.

(** ** Scenarios

    The interpreter run on sample lines, with the reference library and a
    machine at rest that accepts every call. *)

Example scenario_feed_move :
  Reference.run Reference.accept_all Reference.at_rest "G1 X10 Y20 F500"
  = Some (TG_OK, text "G1X10Y20F500",
          [CM_set_feed_rate 500; CM_straight_feed 10 20 0]).
Proof. reflexivity. Qed.

Example scenario_block_delete :
  Reference.run Reference.accept_all Reference.at_rest "/G1 X5"
  = Some (TG_OK, [], []).
Proof. reflexivity. Qed.

Example scenario_quit :
  Reference.run Reference.accept_all Reference.at_rest "q"
  = Some (TG_QUIT, text "Q", []).
Proof. reflexivity. Qed.

Example scenario_missing_number :
  Reference.run Reference.accept_all Reference.at_rest "X"
  = Some (TG_BAD_NUMBER_FORMAT, text "X", []).
Proof. reflexivity. Qed.

Example scenario_missing_letter :
  Reference.run Reference.accept_all Reference.at_rest "10"
  = Some (TG_EXPECTED_COMMAND_LETTER, text "10", []).
Proof. reflexivity. Qed.

Example scenario_dwell :
  Reference.run Reference.accept_all Reference.at_rest "g4 p2.5"
  = Some (TG_OK, text "G4P2.5", [CM_dwell (5 # 2)]).
Proof. reflexivity. Qed.

(** ** Numbers *)

Section NumberFacts.










End NumberFacts.

(** ** The calls the dispatcher makes *)

Section OrderFacts.

Context `{libc : Libc} `{cm : CanonicalMachine}.

(** Carrying out a plan makes the calls of the plan up to the first checked
    call that fails or the final call. *)
Lemma run_plan_made (p : list entry) :
  forallb shaped p = true ->
  forall s : State,
    let made := calls_made (gm s) (map entry_call p) in
    calls (snd (run_plan p s)) = calls s ++ made
    /\ fst (run_plan p s) = status_left (gp_status s) made (gm s)
    /\ gm (snd (run_plan p s)) = machine_after made (gm s).
Proof.
  induction p as [|e p IH]; intros Hp s.
  { simpl. by rewrite app_nil_r. }
  simpl in Hp. apply andb_true_iff in Hp as [He Hp].
  destruct (call_cm_spec (entry_call e) s) as (Hr & Hm & Hc & _).
  destruct e as [c|c|c]; simpl in He; cbn [map entry_call calls_made] in *.
  - apply andb_true_iff in He as [Hs Hmo].
    apply negb_true_iff in Hs, Hmo. rewrite Hs, Hmo, orb_false_r.
    cbn [negb andb run_plan status_left].
    destruct (call_cm c s) as [r s1]. simpl in Hr, Hm, Hc. subst r.
    destruct (nonzero (cm_exec c (gm s)).1) eqn:Enz.
    + simpl. rewrite Hs. simpl. by destruct s1; simpl in *; subst.
    + destruct (IH Hp (set_gp_status (cm_exec c (gm s)).1 s1))
        as (Hc' & Hs' & Hm').
      replace (calls (set_gp_status _ s1)) with (calls s1) in Hc'
        by by destruct s1.
      replace (gm (set_gp_status _ s1)) with (gm s1) in Hc', Hs', Hm'
        by by destruct s1.
      rewrite gp_status_set, Hm in Hs'. rewrite Hm in Hc', Hm'.
      simpl. rewrite Hs. split; [by rewrite Hc', Hc, <- app_assoc|].
      split; done.
  - rewrite He. cbn [negb andb run_plan status_left].
    destruct (IH Hp (call_cm c s).2) as (Hc' & Hs' & Hm').
    replace (gp_status (call_cm c s).2) with (gp_status s) in Hs'
      by (unfold call_cm; destruct (cm_exec c (gm s)); by destruct s).
    rewrite Hm in Hc', Hs', Hm'. rewrite He.
    split; [by rewrite Hc', Hc, <- app_assoc|]. split; done.
  - apply andb_true_iff in He as [Hs Hmo]. apply negb_true_iff in Hs.
    rewrite Hs, Hmo, orb_true_r. cbn [negb andb run_plan status_left].
    destruct (call_cm c s) as [r s1]. simpl in Hr, Hm, Hc. subst r.
    simpl. rewrite Hs. simpl. by destruct s1; simpl in *; subst.
Qed.

Lemma plan_shaped (g : GCodeModel) (f : GCodeFlags) :
  forallb shaped (plan g f) = true.
Proof.
  unfold plan, settings_plan. rewrite !forallb_app.
  rewrite !forallb_when; try done.
  - simpl. unfold motion_plan.
    destruct (next_action_eqb _ _); [|done].
    by destruct (motion_mode g).
  - by destruct (spindle_mode g).
Qed.

(** The calls the dispatcher makes, the status it returns and the machine
    it leaves. *)
Lemma execute_gcode_block_made (s : State) :
  let made := calls_made (gm s) (due s) in
  calls (snd (_gc_execute_gcode_block s)) = calls s ++ made
  /\ fst (_gc_execute_gcode_block s) = status_left (gp_status s) made (gm s)
  /\ gm (snd (_gc_execute_gcode_block s)) = machine_after made (gm s).
Proof.
  rewrite execute_gcode_block_plan.
  apply (run_plan_made _ (plan_shaped _ _) s).
Qed.

(** When no call due but a spindle call fails, and no motion is followed by
    another call, every call due is made. *)
Lemma calls_made_all (due : list cm_call) :
  forall m : machine,
    (forall before c after,
        due = before ++ c :: after ->
        (is_spindle c = false -> nonzero (status_after before c m) = false)
        /\ (is_motion c = true -> after = [])) ->
    calls_made m due = due.
Proof.
  induction due as [|c due IH]; intros m H; [done|].
  cbn [calls_made].
  destruct (H [] c due eq_refl) as [Hs Hmo].
  unfold status_after, machine_after in Hs. simpl in Hs.
  assert (Hrest : calls_made (snd (cm_exec c m)) due = due).
  { apply IH. intros before c' after E.
    apply (H (c :: before) c' after). by rewrite E. }
  destruct (is_spindle c); simpl; [by rewrite Hrest|].
  rewrite Hs by done. simpl.
  destruct (is_motion c); [by rewrite Hmo|by rewrite Hrest].
Qed.

Lemma step_of_le (c : cm_call) : (step_of c <= 13)%nat.
Proof. destruct c; simpl; lia. Qed.

(** A motion is the last call due. *)
Lemma due_motion_last (s : State) before c after :
  due s = before ++ c :: after -> is_motion c = true -> after = [].
Proof.
  intros E Hc. pose proof (due_sorted s) as Hs. rewrite E in Hs.
  assert (Hs' : StronglySorted lt (map step_of (c :: after))).
  { clear -Hs. induction before as [|b before IH]; [done|].
    simpl in Hs. apply StronglySorted_inv in Hs as [Hs _]. by apply IH. }
  simpl in Hs'. apply StronglySorted_inv in Hs' as [_ Hs'].
  clear Hs. rename Hs' into Hs.
  destruct after as [|x after]; [done|]. simpl in Hs.
  apply Forall_cons in Hs as [Hs _].
  pose proof (step_of_le x). assert (step_of c = 13%nat) by by destruct c.
  lia.
Qed.

Lemma in_when (c : cm_call) (b : bool) (e : entry) :
  In c (map entry_call (when b e)) <-> b = true /\ entry_call e = c.
Proof. destruct b; simpl; intuition congruence. Qed.

Lemma next_action_eqb_eq (a b : gcNextAction) :
  next_action_eqb a b = true <-> a = b.
Proof. destruct a, b; simpl; intuition congruence. Qed.

(** The calls due are those of the steps of the specification, the tool
    change apart, which is due with the tool word. *)
Lemma in_due (s : State) (c : cm_call) :
  In c (due s)
  <-> match c with
      | CM_change_tool t => f_tool (gf s) = true /\ t = tool (gn s)
      | _ => step_due s c
      end.
Proof.
  unfold due, plan, settings_plan, motion_plan, step_due, xyz.
  rewrite !map_app, !in_app_iff, !in_when, !next_action_eqb_eq. simpl.
  destruct (next_action_eqb_eq (next_action (gn s)) NEXT_ACTION_MOTION)
    as [H1 H2].
  destruct (next_action_eqb (next_action (gn s)) NEXT_ACTION_MOTION);
    simpl; destruct c, (spindle_mode (gn s)), (motion_mode (gn s)); simpl;
    intuition (try congruence).
Qed.

End OrderFacts.

(** * The claims *)

(** C1.  A parse error does not keep the block from the canonical machine:
    [_gc_parse_gcode_block] leaves its loop at the offending statement and
    then runs the dispatcher on what was accumulated.  On [F100G500] the
    feed rate is committed and the entry point returns OK, the status of
    that call having replaced the parse error.  On [G500] alone nothing is
    flagged: with the machine at rest the error is returned and no call is
    made, but with a feed move persisting the move is made again and OK is
    returned. *)
Theorem parse_error_is_dispatched :
  Reference.run Reference.accept_all Reference.at_rest "F100G500"
    = Some (TG_OK, text "F100G500", [CM_set_feed_rate 100])
  /\ Reference.run Reference.accept_all Reference.at_rest "G500"
     = Some (TG_UNSUPPORTED_STATEMENT, text "G500", [])
  /\ Reference.run Reference.accept_all feeding "G500"
     = Some (TG_OK, text "G500", [CM_straight_feed 1 2 3]).
Proof. repeat split; reflexivity. Qed.

(** C2.  The tool change is gated on the flag of the tool word, not on the
    flag M6 sets: a block with a T word and no M6 changes the tool, a block
    with M6 and no T word does not; and in every state the change of tool
    is due exactly when [gf.tool] is set. *)
Theorem tool_change_follows_tool_word :
  Reference.run Reference.accept_all Reference.at_rest "T1"
    = Some (TG_OK, text "T1", [CM_select_tool 1; CM_change_tool 1])
  /\ Reference.run Reference.accept_all Reference.at_rest "M6"
     = Some (TG_OK, text "M6", [])
  /\ forall (libc : Libc) (cm : CanonicalMachine) (s : State) (t : Z),
       In (CM_change_tool t) (due s)
       <-> f_tool (gf s) = true /\ t = tool (gn s).
Proof.
  split; [reflexivity|]. split; [reflexivity|].
  intros libc cm s t. unfold due, plan, settings_plan.
  assert (Hw : forall b e,
    In (CM_change_tool t) (map entry_call (when b e))
    <-> b = true /\ entry_call e = CM_change_tool t).
  { intros [] e; simpl; intuition congruence. }
  rewrite !map_app, !in_app_iff, !Hw. simpl.
  assert (Hmo : ~ In (CM_change_tool t) (map entry_call (motion_plan (gn s)))).
  { destruct (motion_plan_cases (gn s)) as [->|(c & -> & Hc)]; simpl; [tauto|].
    intros [->|[]]. discriminate. }
  split.
  - intros H. destruct (spindle_mode (gn s));
      decompose [or and] H; unfold xyz in *; try congruence; try tauto;
      split; congruence.
  - intros [Hf ->]. left. do 4 right. left. done.
Qed.

(** C3, as stated, fails: the entry point tests only the first character of
    the normalized command, so [Q10] quits although the command is not the
    single letter Q. *)
Lemma quit_on_Q10 :
  Reference.run Reference.accept_all Reference.at_rest "Q10"
    = Some (TG_QUIT, text "Q10", [])
  /\ text "Q10" <> text "Q".
Proof. split; [reflexivity|discriminate]. Qed.

(** C3, amended.  On a line of at most 255 characters the entry point ends.
    It returns OK on an empty normalized command, it returns the quit status
    without parsing whenever the normalized command begins with the letter
    Q, and it parses every other command as a block and returns the status
    the parse and dispatch has left in [gp]. *)
Theorem quit_on_leading_Q `{libc : Libc} `{cm : CanonicalMachine}
    (fuel : nat) (block : list ascii) (s : State) :
  (length (cstring block) <= 255)%nat -> (255 < fuel)%nat ->
  let command := normalized (cstring block) in
  let s1 := emit (message_of (cstring block)) s in
  exists block' : list ascii,
    cstring block' = command
    /\ match command with
       | [] => gc_gcode_parser fuel block s = Some (TG_OK, block', s1)
       | c :: _ =>
         if Ascii.eqb c "Q" then
           gc_gcode_parser fuel block s = Some (TG_QUIT, block', s1)
         else
           exists (r : status) (s2 : State),
             _gc_parse_gcode_block fuel block' s1 = Some (r, s2)
             /\ gc_gcode_parser fuel block s
                = Some (gp_status s2, block',
                        if nonzero r
                        then tg_print_status (gp_status s2) block' s2
                        else s2)
       end.
Proof.
  intros Hlen Hfuel command s1.
  destruct (normalize_spec fuel block s Hlen Hfuel) as (block' & E & Hl & Hc).
  exists block'. split; [done|]. unfold gc_gcode_parser. rewrite E.
  fold s1. fold command in Hc.
  change 0 with (Z.of_nat 0). rewrite rd_cstring by lia. rewrite Hc.
  destruct command as [|c command'] eqn:Ecmd; [done|]. simpl.
  assert (Hc0 : c <> NUL).
  { pose proof (normalized_no_NUL (cstring block)) as H.
    fold command in H. rewrite Ecmd in H. by inversion H. }
  destruct (Ascii.eqb_spec c NUL) as [|_]; [done|].
  destruct (Ascii.eqb c "Q"); [done|].
  destruct (parse_gcode_block_ends fuel block' s1) as (r & s2 & Ep);
    [|done|].
  { rewrite Hc. pose proof (normalized_length (cstring block)) as H.
    fold command in H. rewrite Ecmd in H. lia. }
  exists r, s2. rewrite Ep. split; [done|].
  destruct (nonzero r); [|done]. by destruct s2.
Qed.

Lemma quit_on_leading_Q_witness :
  exists block' : list ascii,
    cstring block' = text "Q10"
    /\ @gc_gcode_parser (Reference.libc true) (Reference.cm Reference.accept_all)
         300 (text "q 10")
         (Reference.start Reference.accept_all Reference.at_rest)
       = Some (TG_QUIT, block',
               Reference.start Reference.accept_all Reference.at_rest).
Proof.
  destruct (@quit_on_leading_Q (Reference.libc true)
              (Reference.cm Reference.accept_all) 300 (text "q 10")
              (Reference.start Reference.accept_all Reference.at_rest))
    as (block' & Hc & H).
  - simpl. lia.
  - lia.
  - exists block'. split; [exact Hc|exact H].
Defined.

(** C4, as stated, fails on its scenario: the message of [(MSG hello)] is
    the comment after the three letters, which starts with the space. *)
Lemma msg_hello_keeps_space :
  Reference.run Reference.accept_all Reference.at_rest "(MSG hello)"
    = Some (TG_OK, [], [CM_message (text " hello")])
  /\ text " hello" <> text "hello".
Proof. split; [reflexivity|discriminate]. Qed.

(** C4, amended.  In a line of at most 255 characters that is not a deleted
    block, a comment whose first three letters are MSG, in either case,
    makes the normalizer emit exactly one message: the comment after those
    three letters, up to its first closing parenthesis if it has one, whole
    otherwise.  For [(MSG hello)] the message is [ hello], with the space
    that follows MSG; the command is empty, the status OK, and no other
    call is made. *)
Theorem msg_comment_emitted `{libc : Libc} `{cm : CanonicalMachine}
    (fuel : nat) (block : list ascii) (s : State) (comment : list ascii) :
  (length (cstring block) <= 255)%nat -> (255 < fuel)%nat ->
  block_deleted (cstring block) = false ->
  comment_of (cstring block) = Some comment ->
  is_msg comment = true ->
  (exists (block' : list ascii) (s' : State),
      _gc_normalize_gcode_block fuel block s = Some (block', s')
      /\ calls s' = calls s ++ [CM_message (drop 3 (until_paren comment))]
      /\ cstring block' = command_of (cstring block))
  /\ Reference.run Reference.accept_all Reference.at_rest "(MSG hello)"
     = Some (TG_OK, [], [CM_message (text " hello")]).
Proof.
  intros Hlen Hfuel Hbd Hcm Hmsg. split; [|reflexivity].
  destruct (normalize_spec fuel block s Hlen Hfuel) as (block' & E & Hl & Hc).
  unfold message_of, normalized in *. rewrite Hbd, Hcm, Hmsg in *.
  eexists _, _. split; [exact E|]. split; [|done].
  simpl. unfold call_cm. destruct (cm_exec _ _). by destruct s.
Qed.

Lemma msg_comment_emitted_witness :
  exists (block' : list ascii) (s' : @State (Reference.cm Reference.accept_all)),
    @_gc_normalize_gcode_block (Reference.libc true)
      (Reference.cm Reference.accept_all) 300 (text "g1 (msg Tool 2) x")
      (Reference.start Reference.accept_all Reference.at_rest)
      = Some (block', s')
    /\ calls s' = [CM_message (text " Tool 2")]
    /\ cstring block' = text "G1".
Proof.
  apply (@msg_comment_emitted (Reference.libc true)
           (Reference.cm Reference.accept_all) 300 (text "g1 (msg Tool 2) x")
           (Reference.start Reference.accept_all Reference.at_rest)
           (text "msg Tool 2) x")).
  - simpl. lia.
  - lia.
  - reflexivity.
  - reflexivity.
  - reflexivity.
Defined.

(** C5, as stated, fails: the line [ /] is normalized to [/], and the
    normalizer run on that output takes it for a deleted block and empties
    it. *)
Lemma renormalizing_slash :
  exists (b1 b2 : list ascii)
         (s1 s2 : @State (Reference.cm Reference.accept_all)),
    @_gc_normalize_gcode_block (Reference.libc true)
      (Reference.cm Reference.accept_all) 300 (text " /")
      (Reference.start Reference.accept_all Reference.at_rest) = Some (b1, s1)
    /\ @_gc_normalize_gcode_block (Reference.libc true)
         (Reference.cm Reference.accept_all) 300 b1 s1 = Some (b2, s2)
    /\ cstring b1 = text "/"
    /\ cstring b2 <> cstring b1.
Proof. eexists _, _, _, _. repeat split; try reflexivity. discriminate. Qed.

(** C5, amended.  On a line of at most 255 characters the normalizer ends,
    and run again on the buffer it has left it ends again, emits nothing,
    and leaves the command unchanged, unless that command begins with a
    slash, in which case it leaves the empty string. *)
Theorem normalize_twice `{libc : Libc} `{cm : CanonicalMachine}
    (fuel : nat) (block : list ascii) (s : State) :
  (length (cstring block) <= 255)%nat -> (255 < fuel)%nat ->
  exists (b1 b2 : list ascii) (s1 : State),
    _gc_normalize_gcode_block fuel block s = Some (b1, s1)
    /\ _gc_normalize_gcode_block fuel b1 s1 = Some (b2, s1)
    /\ cstring b2 = if block_deleted (cstring b1) then [] else cstring b1.
Proof.
  intros Hlen Hfuel.
  destruct (normalize_spec fuel block s Hlen Hfuel) as (b1 & E1 & _ & Hc1).
  destruct (normalize_spec fuel b1 (emit (message_of (cstring block)) s))
    as (b2 & E2 & _ & Hc2); [|done|].
  { rewrite Hc1. pose proof (normalized_length (cstring block)). lia. }
  rewrite Hc1, message_of_normalized in E2. simpl in E2.
  exists b1, b2, (emit (message_of (cstring block)) s).
  split; [done|]. split; [done|].
  rewrite Hc2, Hc1. apply normalized_again.
Qed.

Lemma normalize_twice_witness :
  exists (b1 b2 : list ascii) (s1 : @State (Reference.cm Reference.accept_all)),
    @_gc_normalize_gcode_block (Reference.libc true)
      (Reference.cm Reference.accept_all) 300 (text "g1 x-1.5 (fast)")
      (Reference.start Reference.accept_all Reference.at_rest) = Some (b1, s1)
    /\ @_gc_normalize_gcode_block (Reference.libc true)
         (Reference.cm Reference.accept_all) 300 b1 s1 = Some (b2, s1)
    /\ cstring b2 = if block_deleted (cstring b1) then [] else cstring b1.
Proof.
  apply (@normalize_twice (Reference.libc true)
           (Reference.cm Reference.accept_all) 300 (text "g1 x-1.5 (fast)")
           (Reference.start Reference.accept_all Reference.at_rest)).
  - simpl. lia.
  - lia.
Defined.

(** C6, as stated, fails: the ampersand is neither dropped by the copy loop
    nor in the character set of the specification. *)
Lemma ampersand_is_kept :
  exists (block' : list ascii) (s' : @State (Reference.cm Reference.accept_all)),
    @_gc_normalize_gcode_block (Reference.libc true)
      (Reference.cm Reference.accept_all) 300 (text "&")
      (Reference.start Reference.accept_all Reference.at_rest)
      = Some (block', s')
    /\ cstring block' = text "&"
    /\ ~ Forall (fun c => spec_charset c = true) (cstring block').
Proof.
  eexists _, _. repeat split; try reflexivity.
  intros H. inversion H. discriminate.
Qed.

(** C6, amended.  On a line of at most 255 characters the normalizer ends
    and leaves in place a command, possibly empty, whose every character is
    an uppercase letter, a digit, one of the punctuation characters of the
    specification, an ampersand or a backslash, or, where plain [char] is
    unsigned, a byte above 127. *)
Theorem normalized_charset `{libc : Libc} `{cm : CanonicalMachine}
    (fuel : nat) (block : list ascii) (s : State) :
  (length (cstring block) <= 255)%nat -> (255 < fuel)%nat ->
  exists (block' : list ascii) (s' : State),
    _gc_normalize_gcode_block fuel block s = Some (block', s')
    /\ Forall (fun c => code_charset c = true) (cstring block').
Proof.
  intros Hlen Hfuel.
  destruct (normalize_spec fuel block s Hlen Hfuel) as (block' & E & _ & Hc).
  eexists _, _. split; [exact E|]. rewrite Hc. unfold normalized.
  destruct (block_deleted (cstring block)); [constructor|].
  apply command_of_charset.
Qed.

Lemma normalized_charset_witness :
  exists (block' : list ascii) (s' : @State (Reference.cm Reference.accept_all)),
    @_gc_normalize_gcode_block (Reference.libc true)
      (Reference.cm Reference.accept_all) 300 (text "n10 g1 x[#1+2] ; y")
      (Reference.start Reference.accept_all Reference.at_rest)
      = Some (block', s')
    /\ Forall (fun c => @code_charset (Reference.libc true) c = true)
         (cstring block').
Proof.
  apply (@normalized_charset (Reference.libc true)
           (Reference.cm Reference.accept_all) 300 (text "n10 g1 x[#1+2] ; y")
           (Reference.start Reference.accept_all Reference.at_rest)).
  - simpl. lia.
  - lia.
Defined.

(** C7.  The status of the spindle calls is dropped: when the spindle fails
    to start, the dispatch goes on to the motion and the entry point returns
    OK.  A sibling step, the feed rate, does stop the dispatch and return
    the status when its call fails. *)
Theorem spindle_status_is_dropped :
  Reference.run spindle_fails Reference.at_rest "M3G0X1"
    = Some (TG_OK, text "M3G0X1",
            [CM_start_spindle_clockwise; CM_straight_traverse 1 0 0])
  /\ Reference.run
       (fun c => match c with CM_set_feed_rate _ => true | _ => false end)
       Reference.at_rest "F100G0X1"
     = Some (Reference.TG_REJECTED, text "F100G0X1", [CM_set_feed_rate 100]).
Proof. split; reflexivity. Qed.

(** C8.  The order of the dispatch is as claimed, but not every flagged
    step is carried out: the tool change of step 5 is made with the tool
    word and not with the flag that M6 raises.  On [M6 G0 Y1] the parser
    raises the change-tool flag, and the dispatcher makes the traverse and
    no tool change.

    For every state the parser can leave, hence whatever the order of the
    words of the block:
    - the calls due are in the order of the steps 1 to 13, one call a step
      at most, and a motion is the last of them;
    - every call but the tool change is due exactly under the condition,
      and with the arguments, that the specification gives its step; the
      tool change is due exactly when the tool word was given;
    - the dispatcher makes the calls due in this order, up to and
      including the first that is a motion or that, not being a spindle
      call, returns a status other than OK, and no other call; it returns
      the status of the last call made that is not a spindle call, and
      leaves the machine as the calls made have left it;
    - so when no call due but a spindle call fails, every call due is
      made, the motion last, and the status of the motion is returned.
    On [F100 G0 X10], and on the same words in another order, the feed rate
    is set before the traverse is made.  The sample lines are read with a
    [strtod] that reads the decimal forms, as the one of the target's C
    library does; one that also reads the hexadecimal forms reads [0X10]
    after the G as one number. *)
Theorem dispatch_order :
  (exists s' : @State (Reference.cm Reference.accept_all),
      @_gc_parse_gcode_block (Reference.libc true)
        (Reference.cm Reference.accept_all) 300 (text "M6G0Y1")
        (Reference.start Reference.accept_all Reference.at_rest)
        = Some (TG_OK, s')
      /\ f_change_tool (gf s') = true
      /\ step_due s' (CM_change_tool 0)
      /\ calls s' = [CM_straight_traverse 0 1 0])
  /\ Reference.run Reference.accept_all Reference.at_rest "M6 G0 Y1"
     = Some (TG_OK, text "M6G0Y1", [CM_straight_traverse 0 1 0])
  /\ (forall (libc : Libc) (cm : CanonicalMachine) (s : State),
        let r := fst (_gc_execute_gcode_block s) in
        let s' := snd (_gc_execute_gcode_block s) in
        let made := calls_made (gm s) (due s) in
        StronglySorted lt (map step_of (due s))
        /\ (forall before c after,
              due s = before ++ c :: after -> is_motion c = true ->
              after = [])
        /\ (forall c : cm_call,
              In c (due s)
              <-> match c with
                  | CM_change_tool t =>
                    f_tool (gf s) = true /\ t = tool (gn s)
                  | _ => step_due s c
                  end)
        /\ calls s' = calls s ++ made
        /\ r = status_left (gp_status s) made (gm s)
        /\ gm s' = machine_after made (gm s)
        /\ ((forall before c after,
                due s = before ++ c :: after -> is_spindle c = false ->
                nonzero (status_after before c (gm s)) = false) ->
            made = due s
            /\ forall before c,
                 due s = before ++ [c] -> is_motion c = true ->
                 r = status_after before c (gm s)))
  /\ Reference.run Reference.accept_all Reference.at_rest "F100 G0 X10"
     = Some (TG_OK, text "F100G0X10",
             [CM_set_feed_rate 100; CM_straight_traverse 10 0 0])
  /\ Reference.run Reference.accept_all Reference.at_rest "G0 X10 F100"
     = Some (TG_OK, text "G0X10F100",
             [CM_set_feed_rate 100; CM_straight_traverse 10 0 0])
  /\ Reference.run Reference.accept_all Reference.at_rest "G17 G2 Y1 I2 F5 G91"
     = Some (TG_OK, text "G17G2Y1I2F5G91",
             [CM_set_feed_rate 5; CM_select_plane CANON_PLANE_XY;
              CM_set_distance_mode false;
              CM_arc_feed 0 1 0 2 0 0 0 MOTION_MODE_CW_ARC]).
Proof.
  split.
  { eexists. split; [vm_compute; reflexivity|]. by vm_compute. }
  split; [by vm_compute|]. split; [|repeat split; by vm_compute].
  intros libc cm s r s' made.
  destruct (execute_gcode_block_made s) as (Hc & Hr & Hm).
  split; [apply due_sorted|]. split; [apply due_motion_last|].
  split; [apply in_due|]. split; [done|]. split; [done|]. split; [done|].
  intros Hok.
  assert (Hall : made = due s).
  { apply calls_made_all. intros before c after E. split.
    - by apply (Hok before c after).
    - by apply (due_motion_last s before c after). }
  split; [done|]. intros before c E Hmo. subst r. rewrite Hr.
  fold made. rewrite Hall, E. clear -Hmo.
  assert (Hsp : is_spindle c = false) by by destruct c.
  generalize (gp_status s) (gm s). unfold status_after, machine_after.
  induction before as [|b before IH]; intros r0 m; simpl.
  - by rewrite Hsp.
  - apply IH.
Qed.




(** C10.  A G92 statement sets the origin-offset mode and its flag and
    nothing else; the call that sets the origin offsets is due exactly when
    the next action of the block is the offset of coordinates; and a block
    parsed while the next action the machine reports is another one never
    makes that call, whatever the words of the block.  (A line of at most
    255 characters is parsed to its end.) *)
Theorem g92_sets_no_origin_offsets `{libc : Libc} `{cm : CanonicalMachine}
    (fuel : nat) (buf : list ascii) (s : State) :
  cm_get_next_action (gm s) <> NEXT_ACTION_OFFSET_COORDINATES ->
  (forall s0 : State,
      gp_letter s0 = "G"%char -> trunc (gp_value s0) = 92 ->
      dispatch_statement s0 = SET_NEXT_STATE m_set_origin_mode true s0)
  /\ (forall s0 : State,
        (exists x y z : Q, In (CM_set_origin_offsets x y z) (due s0))
        <-> next_action (gn s0) = NEXT_ACTION_OFFSET_COORDINATES)
  /\ (forall (r : status) (s' : State),
        _gc_parse_gcode_block fuel buf s = Some (r, s') ->
        exists made : list cm_call,
          calls s' = calls s ++ made
          /\ forall x y z : Q, ~ In (CM_set_origin_offsets x y z) made)
  /\ ((length (cstring buf) <= 255)%nat -> (255 < fuel)%nat ->
      exists (r : status) (s' : State),
        _gc_parse_gcode_block fuel buf s = Some (r, s')).
Proof.
  intros Hna.
  assert (Hdue : forall (s0 : State) (x y z : Q),
    In (CM_set_origin_offsets x y z) (due s0) ->
    next_action (gn s0) = NEXT_ACTION_OFFSET_COORDINATES).
  { intros s0 x y z. unfold due, plan, settings_plan.
    assert (Hw : forall b e,
      In (CM_set_origin_offsets x y z) (map entry_call (when b e))
      <-> b = true /\ entry_call e = CM_set_origin_offsets x y z).
    { intros [] e; simpl; intuition congruence. }
    rewrite !map_app, !in_app_iff, !Hw. simpl.
    assert (Hmo : ~ In (CM_set_origin_offsets x y z)
                     (map entry_call (motion_plan (gn s0)))).
    { destruct (motion_plan_cases (gn s0)) as [->|(c & -> & Hc)]; simpl;
        [tauto|]. intros [->|[]]. discriminate. }
    intros H. destruct (spindle_mode (gn s0));
      decompose [or and] H; try congruence; try tauto;
      by destruct (next_action (gn s0)). }
  split.
  { intros s0 Hl Hv. unfold dispatch_statement. by rewrite Hl, Hv. }
  split.
  { intros s0. split; [intros (x & y & z & H); by apply (Hdue s0 x y z)|].
    intros E. eexists _, _, _. unfold due, plan, settings_plan.
    rewrite !map_app, !in_app_iff, E. simpl. left. do 11 right. by left. }
  split; [|apply parse_gcode_block_ends].
  intros r s' Hp. unfold _gc_parse_gcode_block in Hp.
  destruct (parse_loop fuel buf 0 (preset_next_state s)) as [s1|] eqn:El;
    [|done].
  apply parse_loop_frame in El as ((Hm1 & Hc1 & _) & Hna1).
  assert (Hna2 : next_action (gn s1) <> NEXT_ACTION_OFFSET_COORDINATES).
  { apply Hna1. by destruct s. }
  destruct (execute_gcode_block_calls s1) as (made & Hc & _ & Hpre & _).
  injection Hp as Hp. rewrite Hp in Hc. simpl in Hc. exists made. split.
  { rewrite Hc, Hc1. by destruct s. }
  intros x y z Hin. apply Hna2, (Hdue s1 x y z).
  destruct Hpre as [rest ->]. apply in_app_iff. by left.
Qed.

Lemma g92_sets_no_origin_offsets_witness :
  exists (r : status) (s' : @State (Reference.cm Reference.accept_all))
         (made : list cm_call),
    @_gc_parse_gcode_block (Reference.libc true)
      (Reference.cm Reference.accept_all) 300 (text "G92X1Y2F3")
      (Reference.start Reference.accept_all Reference.at_rest) = Some (r, s')
    /\ calls s' = made
    /\ forall x y z : Q, ~ In (CM_set_origin_offsets x y z) made.
Proof.
  destruct (@g92_sets_no_origin_offsets (Reference.libc true)
              (Reference.cm Reference.accept_all) 300 (text "G92X1Y2F3")
              (Reference.start Reference.accept_all Reference.at_rest))
    as (_ & _ & Hsafe & Hend).
  - discriminate.
  - destruct Hend as (r & s' & E).
    + simpl. lia.
    + lia.
    + destruct (Hsafe r s' E) as (made & Hc & Hno).
      exists r, s', made. split; [exact E|]. split; [exact Hc|exact Hno].
Defined.


(** * Further properties of gcode.c *)

(** ** Lines with the same command *)

Section LineFacts.

Context `{libc : Libc} `{cm : CanonicalMachine}.

Lemma command_of_before_comment (pre rest : list ascii) :
  Forall (fun c => c <> "("%char) pre ->
  command_of (pre ++ "("%char :: rest) = command_of pre.
Proof.
  induction 1 as [|c pre Hc _ IH]; simpl.
  - replace (isupper (toupper "(")) with false by by destruct plain_char_signed.
    replace (isdigit (toupper "(")) with false by by destruct plain_char_signed.
    done.
  - rewrite IH.
    destruct (Ascii.eqb_spec (toupper c) "(") as [E|E]; [|done].
    by apply toupper_paren in E.
Qed.

Lemma comment_of_before_comment (pre rest : list ascii) :
  Forall (fun c => c <> "("%char) pre ->
  comment_of (pre ++ "("%char :: rest) = Some rest.
Proof.
  induction 1 as [|c pre Hc _ IH]; simpl; [done|].
  by destruct (Ascii.eqb_spec c "(").
Qed.

Lemma comment_of_none (line : list ascii) :
  Forall (fun c => c <> "("%char) line -> comment_of line = None.
Proof.
  induction 1 as [|c pre Hc _ IH]; simpl; [done|].
  by destruct (Ascii.eqb_spec c "(").
Qed.

Lemma block_deleted_app (pre post : list ascii) :
  pre <> [] -> block_deleted (pre ++ post) = block_deleted pre.
Proof. by destruct pre. Qed.

(** A character the copy loop drops is no letter, no digit and no
    parenthesis. *)
Lemma tossed_plain (c : ascii) :
  tossed c = true ->
  toupper c = c /\ isupper c || isdigit c = false /\ Ascii.eqb c "(" = false.
Proof.
  unfold tossed, toupper, islower, isupper, isdigit, char_to_int.
  destruct plain_char_signed; each_char c; vm_compute; intros H;
    try discriminate; done.
Qed.

Lemma command_of_app (pre post : list ascii) :
  Forall (fun c => c <> "("%char) pre ->
  command_of (pre ++ post) = command_of pre ++ command_of post.
Proof.
  induction 1 as [|c pre Hc _ IH]; simpl; [done|]. rewrite IH.
  destruct (isupper (toupper c) || isdigit (toupper c)); [done|].
  destruct (Ascii.eqb_spec (toupper c) "(") as [E|E].
  { by apply toupper_paren in E. }
  by destruct (tossed (toupper c)).
Qed.

Lemma comment_of_app (pre post : list ascii) :
  Forall (fun c => c <> "("%char) pre ->
  comment_of (pre ++ post) = comment_of post.
Proof.
  induction 1 as [|c pre Hc _ IH]; simpl; [done|].
  by destruct (Ascii.eqb_spec c "(").
Qed.

Lemma command_of_tossed (c : ascii) (post : list ascii) :
  tossed c = true -> command_of (c :: post) = command_of post.
Proof.
  intros H. pose proof (tossed_plain c H) as (Hu & Hd & Hp).
  simpl. by rewrite Hu, Hd, Hp, H.
Qed.

Lemma comment_of_tossed (c : ascii) (post : list ascii) :
  tossed c = true -> comment_of (c :: post) = comment_of post.
Proof.
  intros H. pose proof (tossed_plain c H) as (_ & _ & Hp).
  simpl. by rewrite Hp.
Qed.

(** The line in upper case. *)
Lemma toupper_slash (c : ascii) :
  Ascii.eqb (toupper c) "/" = Ascii.eqb c "/".
Proof.
  unfold toupper, islower, char_to_int.
  destruct plain_char_signed; by each_char c.
Qed.

Lemma toupper_is_paren (c : ascii) :
  Ascii.eqb (toupper c) "(" = Ascii.eqb c "(".
Proof.
  unfold toupper, islower, char_to_int.
  destruct plain_char_signed; by each_char c.
Qed.

Lemma toupper_is_NUL (c : ascii) :
  Ascii.eqb (toupper c) NUL = Ascii.eqb c NUL.
Proof.
  unfold toupper, islower, char_to_int.
  destruct plain_char_signed; by each_char c.
Qed.

Lemma cstring_toupper (l : list ascii) :
  cstring (map toupper l) = map toupper (cstring l).
Proof.
  induction l as [|c l IH]; simpl; [done|].
  rewrite toupper_is_NUL. destruct (Ascii.eqb c NUL); simpl; [done|].
  by rewrite IH.
Qed.

Lemma command_of_toupper (line : list ascii) :
  command_of (map toupper line) = command_of line.
Proof.
  induction line as [|c line IH]; simpl; [done|].
  by rewrite toupper_idemp, IH.
Qed.

Lemma comment_of_toupper (line : list ascii) :
  comment_of (map toupper line) = map toupper <$> comment_of line.
Proof.
  induction line as [|c line IH]; simpl; [done|].
  rewrite toupper_is_paren. by destruct (Ascii.eqb c "(").
Qed.

Lemma is_msg_toupper (t : list ascii) : is_msg (map toupper t) = is_msg t.
Proof.
  destruct t as [|a [|b [|c t]]]; simpl; try done.
  by rewrite !toupper_idemp.
Qed.

Lemma normalized_toupper (line : list ascii) :
  normalized (map toupper line) = normalized line.
Proof.
  unfold normalized. rewrite command_of_toupper.
  destruct line as [|c line]; simpl; [done|]. by rewrite toupper_slash.
Qed.

Lemma message_of_toupper (line : list ascii) :
  message_of line = None -> message_of (map toupper line) = None.
Proof.
  unfold message_of. rewrite comment_of_toupper.
  replace (block_deleted (map toupper line)) with (block_deleted line)
    by (destruct line; simpl; by rewrite ?toupper_slash).
  destruct (block_deleted line); [done|].
  destruct (comment_of line) as [t|]; simpl; [|done].
  rewrite is_msg_toupper. by destruct (is_msg t).
Qed.

(** The tokenizer and the parse loop read the buffer up to its terminator
    only. *)
Lemma next_statement_ext (b1 b2 : list ascii) (i : nat) (s : State) :
  cstring b1 = cstring b2 ->
  (i <= length (cstring b1) <= 255)%nat ->
  _gc_next_statement b1 (Z.of_nat i) s = _gc_next_statement b2 (Z.of_nat i) s.
Proof.
  intros E Hi. unfold _gc_next_statement.
  assert (Hrd : rd b1 (Z.of_nat i) = rd b2 (Z.of_nat i)).
  { rewrite !rd_cstring by (rewrite <- ?E; lia). by rewrite E. }
  rewrite Hrd.
  destruct (Ascii.eqb_spec (rd b2 (Z.of_nat i)) NUL) as [En|En]; [done|].
  assert (Hlt : (i < length (cstring b1))%nat).
  { destruct (decide (i = length (cstring b1))) as [->|]; [|lia].
    rewrite <- Hrd, rd_cstring, lookup_ge_None_2 in En by lia. done. }
  replace (uint8 (Z.of_nat i + 1)) with (Z.of_nat (S i))
    by (rewrite uint8_small; lia).
  unfold _gc_read_double.
  rewrite !cstring_at_nat, !cstring_drop by (rewrite <- ?E; lia).
  by rewrite E.
Qed.

Lemma parse_loop_ext (b1 b2 : list ascii) :
  cstring b1 = cstring b2 ->
  forall (fuel : nat) (i : nat) (s : State),
    (i <= length (cstring b1) <= 255)%nat ->
    parse_loop fuel b1 (Z.of_nat i) s = parse_loop fuel b2 (Z.of_nat i) s.
Proof.
  intros E. induction fuel as [|fuel IH]; intros i s Hi; [done|].
  cbn [parse_loop]. rewrite (next_statement_ext b1 b2 i s E Hi).
  assert (Hi2 : (i <= length (cstring b2) <= 255)%nat) by (rewrite <- E; lia).
  destruct (next_statement_spec b2 i s Hi2)
    as [(_ & _ & ->)|[(_ & _ & ->)|[(_ & _ & ->)|(_ & _ & Hle & ->)]]];
    try done.
  destruct (nonzero _); [done|]. apply IH. rewrite E. lia.
Qed.

Lemma parse_gcode_block_ext (fuel : nat) (b1 b2 : list ascii) (s : State) :
  cstring b1 = cstring b2 -> (length (cstring b1) <= 255)%nat ->
  _gc_parse_gcode_block fuel b1 s = _gc_parse_gcode_block fuel b2 s.
Proof.
  intros E Hl. unfold _gc_parse_gcode_block.
  change 0 with (Z.of_nat 0). rewrite (parse_loop_ext b1 b2 E); [done|lia].
Qed.

(** The entry point, on a line within reach of the 8-bit indices of the
    normalizer. *)
Lemma entry_point_spec (fuel : nat) (block : list ascii) (s : State) :
  (length (cstring block) <= 255)%nat -> (255 < fuel)%nat ->
  let command := normalized (cstring block) in
  let s1 := emit (message_of (cstring block)) s in
  exists block' : list ascii,
    cstring block' = command /\ length block' = length block
    /\ gc_gcode_parser fuel block s
       = if Ascii.eqb (default NUL (command !! 0%nat)) NUL
         then Some (TG_OK, block', s1)
         else if Ascii.eqb (default NUL (command !! 0%nat)) "Q"
         then Some (TG_QUIT, block', s1)
         else
           match _gc_parse_gcode_block fuel block' s1 with
           | None => None
           | Some (r, s2) =>
             let s3 := if nonzero r
                       then tg_print_status (gp_status s2) block' s2 else s2 in
             Some (gp_status s3, block', s3)
           end.
Proof.
  intros Hlen Hfuel command s1.
  destruct (normalize_spec fuel block s Hlen Hfuel) as (block' & E & Hl & Hc).
  exists block'. split; [done|]. split; [done|].
  unfold gc_gcode_parser. rewrite E.
  change (rd block' 0) with (rd block' (Z.of_nat 0)).
  rewrite rd_cstring by lia. rewrite Hc. done.
Qed.

(** Two lines with the same normalized command and the same message. *)
Lemma lines_agree (fuel : nat) (b1 b2 : list ascii) (s : State) :
  (length (cstring b1) <= 255)%nat -> (length (cstring b2) <= 255)%nat ->
  (255 < fuel)%nat ->
  normalized (cstring b1) = normalized (cstring b2) ->
  message_of (cstring b1) = message_of (cstring b2) ->
  exists (r : status) (b1' b2' : list ascii) (s' : State),
    gc_gcode_parser fuel b1 s = Some (r, b1', s')
    /\ gc_gcode_parser fuel b2 s = Some (r, b2', s')
    /\ cstring b1' = cstring b2'.
Proof.
  intros Hl1 Hl2 Hfuel Hn Hm.
  destruct (entry_point_spec fuel b1 s Hl1 Hfuel) as (b1' & Hc1 & _ & E1).
  destruct (entry_point_spec fuel b2 s Hl2 Hfuel) as (b2' & Hc2 & _ & E2).
  rewrite <- Hn, <- Hm in E2. rewrite <- Hn in Hc2.
  assert (Hcc : cstring b1' = cstring b2') by congruence.
  assert (Hl : (length (cstring b1') <= 255)%nat).
  { rewrite Hc1. pose proof (normalized_length (cstring b1)). lia. }
  rewrite <- (parse_gcode_block_ext fuel b1' b2' _ Hcc Hl) in E2.
  destruct (parse_gcode_block_ends fuel b1' (emit (message_of (cstring b1)) s)
              Hl Hfuel) as (r & s2 & Ep).
  rewrite Ep in E1, E2. unfold tg_print_status in E1, E2.
  rewrite <- Hcc in E2.
  destruct (Ascii.eqb _ NUL); [by eauto 10|].
  destruct (Ascii.eqb _ "Q"); [by eauto 10|].
  eauto 10.
Qed.

End LineFacts.

(** X1.  The interpreter reads a line through its normalized command and its
    message only: two lines of at most 255 characters that have the same
    normalized command and the same message give the same status and leave
    the same state, and the same command in the buffer. *)
Theorem result_depends_on_normalized_line `{libc : Libc} `{cm : CanonicalMachine}
    (fuel : nat) (b1 b2 : list ascii) (s : State) :
  (length (cstring b1) <= 255)%nat -> (length (cstring b2) <= 255)%nat ->
  (255 < fuel)%nat ->
  normalized (cstring b1) = normalized (cstring b2) ->
  message_of (cstring b1) = message_of (cstring b2) ->
  exists (r : status) (b1' b2' : list ascii) (s' : State),
    gc_gcode_parser fuel b1 s = Some (r, b1', s')
    /\ gc_gcode_parser fuel b2 s = Some (r, b2', s')
    /\ cstring b1' = cstring b2'.
Proof. apply lines_agree. Qed.

Lemma result_depends_on_normalized_line_witness :
  exists (r : status) (b1' b2' : list ascii)
         (s' : @State (Reference.cm Reference.accept_all)),
    @gc_gcode_parser (Reference.libc true) (Reference.cm Reference.accept_all)
      300 (text "g1 x2.5 y-3 f100")
      (Reference.start Reference.accept_all Reference.at_rest)
      = Some (r, b1', s')
    /\ @gc_gcode_parser (Reference.libc true) (Reference.cm Reference.accept_all)
         300 (text "G1X2.5$Y-3 F100 (to the corner)")
         (Reference.start Reference.accept_all Reference.at_rest)
       = Some (r, b2', s')
    /\ cstring b1' = cstring b2'.
Proof.
  apply (@result_depends_on_normalized_line (Reference.libc true)
           (Reference.cm Reference.accept_all) 300 (text "g1 x2.5 y-3 f100")
           (text "G1X2.5$Y-3 F100 (to the corner)")
           (Reference.start Reference.accept_all Reference.at_rest)).
  - simpl. lia.
  - simpl. lia.
  - lia.
  - vm_compute. reflexivity.
  - vm_compute. reflexivity.
Defined.

(** X2.  Lower-case letters are read as upper-case ones: a line of at most
    255 characters that emits no message gives the same status and leaves
    the same state as the line put in upper case. *)
Theorem lower_case_reads_as_upper_case `{libc : Libc} `{cm : CanonicalMachine}
    (fuel : nat) (block : list ascii) (s : State) :
  (length (cstring block) <= 255)%nat -> (255 < fuel)%nat ->
  message_of (cstring block) = None ->
  exists (r : status) (b1 b2 : list ascii) (s' : State),
    gc_gcode_parser fuel block s = Some (r, b1, s')
    /\ gc_gcode_parser fuel (map toupper block) s = Some (r, b2, s')
    /\ cstring b1 = cstring b2.
Proof.
  intros Hl Hfuel Hm. apply lines_agree; try done.
  - by rewrite cstring_toupper, length_map.
  - by rewrite cstring_toupper, normalized_toupper.
  - rewrite cstring_toupper, Hm. symmetry. by apply message_of_toupper.
Qed.

Lemma lower_case_reads_as_upper_case_witness :
  exists (r : status) (b1 b2 : list ascii)
         (s' : @State (Reference.cm Reference.accept_all)),
    @gc_gcode_parser (Reference.libc true) (Reference.cm Reference.accept_all)
      300 (text "g2 x1 y1 i0.5 (arc)")
      (Reference.start Reference.accept_all Reference.at_rest)
      = Some (r, b1, s')
    /\ @gc_gcode_parser (Reference.libc true) (Reference.cm Reference.accept_all)
         300 (map toupper (text "g2 x1 y1 i0.5 (arc)"))
         (Reference.start Reference.accept_all Reference.at_rest)
       = Some (r, b2, s')
    /\ cstring b1 = cstring b2.
Proof.
  apply (@lower_case_reads_as_upper_case (Reference.libc true)
           (Reference.cm Reference.accept_all) 300 (text "g2 x1 y1 i0.5 (arc)")
           (Reference.start Reference.accept_all Reference.at_rest)).
  - simpl. lia.
  - lia.
  - vm_compute. reflexivity.
Defined.

(** X3.  A character the copy loop drops (white space, a control character,
    DEL, one of the invalid punctuation characters) may stand anywhere in
    the command part after its first character: the line with it and the
    line without it give the same status and leave the same state. *)
Theorem dropped_character_changes_nothing `{libc : Libc} `{cm : CanonicalMachine}
    (fuel : nat) (b1 b2 pre post : list ascii) (c : ascii) (s : State) :
  cstring b1 = pre ++ post -> cstring b2 = pre ++ c :: post ->
  pre <> [] -> Forall (fun c => c <> "("%char) pre -> tossed c = true ->
  (length (cstring b2) <= 255)%nat -> (255 < fuel)%nat ->
  exists (r : status) (b1' b2' : list ascii) (s' : State),
    gc_gcode_parser fuel b1 s = Some (r, b1', s')
    /\ gc_gcode_parser fuel b2 s = Some (r, b2', s')
    /\ cstring b1' = cstring b2'.
Proof.
  intros E1 E2 Hpre Hpar Hc Hl Hfuel. apply lines_agree; try done.
  - rewrite E1. rewrite E2 in Hl. rewrite length_app in *. simpl in Hl. lia.
  - rewrite E1, E2. unfold normalized.
    rewrite !block_deleted_app, !command_of_app, command_of_tossed by done.
    done.
  - rewrite E1, E2. unfold message_of.
    rewrite !block_deleted_app, !comment_of_app, comment_of_tossed by done.
    done.
Qed.

Lemma dropped_character_changes_nothing_witness :
  exists (r : status) (b1' b2' : list ascii)
         (s' : @State (Reference.cm Reference.accept_all)),
    @gc_gcode_parser (Reference.libc true) (Reference.cm Reference.accept_all)
      300 (text "G1X1.5F20")
      (Reference.start Reference.accept_all Reference.at_rest)
      = Some (r, b1', s')
    /\ @gc_gcode_parser (Reference.libc true) (Reference.cm Reference.accept_all)
         300 (text "G1X1 .5F20")
         (Reference.start Reference.accept_all Reference.at_rest)
       = Some (r, b2', s')
    /\ cstring b1' = cstring b2'.
Proof.
  apply (@dropped_character_changes_nothing (Reference.libc true)
           (Reference.cm Reference.accept_all) 300 (text "G1X1.5F20")
           (text "G1X1 .5F20") (text "G1X1") (text ".5F20") " "%char
           (Reference.start Reference.accept_all Reference.at_rest)).
  - reflexivity.
  - reflexivity.
  - discriminate.
  - repeat constructor; discriminate.
  - vm_compute. reflexivity.
  - simpl. lia.
  - lia.
Defined.

(** X4.  A comment ends the block: a line with a comment that does not start
    with MSG gives the same status and leaves the same state as the line cut
    before the opening parenthesis, whatever follows the parenthesis, words
    after a closing parenthesis included. *)
Theorem comment_ends_the_block `{libc : Libc} `{cm : CanonicalMachine}
    (fuel : nat) (b1 b2 pre rest : list ascii) (s : State) :
  cstring b1 = pre ++ "("%char :: rest -> cstring b2 = pre ->
  Forall (fun c => c <> "("%char) pre -> is_msg rest = false ->
  (length (cstring b1) <= 255)%nat -> (255 < fuel)%nat ->
  exists (r : status) (b1' b2' : list ascii) (s' : State),
    gc_gcode_parser fuel b1 s = Some (r, b1', s')
    /\ gc_gcode_parser fuel b2 s = Some (r, b2', s')
    /\ cstring b1' = cstring b2'.
Proof.
  intros E1 E2 Hpar Hmsg Hl Hfuel. apply lines_agree; try done.
  - rewrite E2. rewrite E1, length_app in Hl. lia.
  - rewrite E1, E2. unfold normalized. rewrite command_of_before_comment by done.
    destruct pre as [|c pre]; [done|]. done.
  - rewrite E1, E2. unfold message_of.
    rewrite comment_of_before_comment, comment_of_none, Hmsg by done.
    by destruct (block_deleted _), (block_deleted _).
Qed.

Lemma comment_ends_the_block_witness :
  exists (r : status) (b1' b2' : list ascii)
         (s' : @State (Reference.cm Reference.accept_all)),
    @gc_gcode_parser (Reference.libc true) (Reference.cm Reference.accept_all)
      300 (text "G1 X5 (slowly) Y7")
      (Reference.start Reference.accept_all Reference.at_rest)
      = Some (r, b1', s')
    /\ @gc_gcode_parser (Reference.libc true) (Reference.cm Reference.accept_all)
         300 (text "G1 X5 ")
         (Reference.start Reference.accept_all Reference.at_rest)
       = Some (r, b2', s')
    /\ cstring b1' = cstring b2'.
Proof.
  apply (@comment_ends_the_block (Reference.libc true)
           (Reference.cm Reference.accept_all) 300 (text "G1 X5 (slowly) Y7")
           (text "G1 X5 ") (text "G1 X5 ") (text "slowly) Y7")
           (Reference.start Reference.accept_all Reference.at_rest)).
  - reflexivity.
  - reflexivity.
  - repeat constructor; discriminate.
  - vm_compute. reflexivity.
  - simpl. lia.
  - lia.
Defined.

(** ** Block delete, buffer bounds and lines that are too long *)

(** X5.  A buffer that starts with a slash is emptied in place and nothing
    else happens, whatever follows the slash (a MSG comment, more than 255
    characters) and whatever the fuel. *)
Theorem block_delete_discards_line `{libc : Libc} `{cm : CanonicalMachine}
    (fuel : nat) (block : list ascii) (s : State) :
  rd block 0 = "/"%char ->
  gc_gcode_parser fuel block s = Some (TG_OK, wr block 0 NUL, s)
  /\ cstring (wr block 0 NUL) = []
  /\ length (wr block 0 NUL) = length block.
Proof.
  intros H. unfold gc_gcode_parser, _gc_normalize_gcode_block. rewrite H.
  simpl Ascii.eqb. cbv iota.
  destruct block as [|c block]; [discriminate|].
  unfold rd, wr. simpl. done.
Qed.

Lemma block_delete_discards_line_witness :
  @gc_gcode_parser (Reference.libc true) (Reference.cm Reference.accept_all)
    0 (text "/G1 X5 (MSG skipped)")
    (Reference.start Reference.accept_all Reference.at_rest)
  = Some (TG_OK, wr (text "/G1 X5 (MSG skipped)") 0 NUL,
          Reference.start Reference.accept_all Reference.at_rest)
  /\ cstring (wr (text "/G1 X5 (MSG skipped)") 0 NUL) = []
  /\ length (wr (text "/G1 X5 (MSG skipped)") 0 NUL)
     = length (text "/G1 X5 (MSG skipped)").
Proof.
  apply (@block_delete_discards_line (Reference.libc true)
           (Reference.cm Reference.accept_all) 0 (text "/G1 X5 (MSG skipped)")
           (Reference.start Reference.accept_all Reference.at_rest)).
  reflexivity.
Defined.

(** X6.  A line that is too long hangs the interpreter: when the first 256
    bytes of the buffer hold neither a NUL nor an opening parenthesis and
    the line is not a deleted block, the 8-bit index of the copy loop wraps
    around and the entry point returns for no fuel at all. *)
Theorem line_of_256_characters_never_returns `{libc : Libc} `{cm : CanonicalMachine}
    (fuel : nat) (block : list ascii) (s : State) :
  (256 <= length block)%nat ->
  Forall (fun c => c <> NUL /\ c <> "("%char) (take 256 block) ->
  rd block 0 <> "/"%char ->
  gc_gcode_parser fuel block s = None.
Proof.
  intros Hl Hall Hs. unfold gc_gcode_parser, _gc_normalize_gcode_block.
  destruct (Ascii.eqb_spec (rd block 0) "/"); [done|].
  by rewrite normalize_loop_wraps.
Qed.

Lemma line_of_256_characters_never_returns_witness :
  @gc_gcode_parser (Reference.libc true) (Reference.cm Reference.accept_all)
    1000 (text "G1" ++ repeat " "%char 254 ++ text "X1")
    (Reference.start Reference.accept_all Reference.at_rest)
  = None.
Proof.
  apply (@line_of_256_characters_never_returns (Reference.libc true)
           (Reference.cm Reference.accept_all) 1000
           (text "G1" ++ repeat " "%char 254 ++ text "X1")
           (Reference.start Reference.accept_all Reference.at_rest)).
  - vm_compute. lia.
  - vm_compute. repeat constructor; discriminate.
  - vm_compute. discriminate.
Defined.

(** ** The bytes the normalizer writes *)

Section WriteFacts.

Context `{libc : Libc} `{cm : CanonicalMachine}.

(** A C string ends at the latest where a NUL stands. *)
Lemma cstring_length_upto (b : list ascii) (n : nat) :
  default NUL (b !! n) = NUL -> (length (cstring b) <= n)%nat.
Proof.
  revert n. induction b as [|c b IH]; intros n H; simpl; [lia|].
  destruct (Ascii.eqb_spec c NUL) as [|Hc]; simpl; [lia|].
  destruct n as [|n]; [done|]. apply IH in H. lia.
Qed.

Lemma cstring_end (b : list ascii) :
  default NUL (b !! length (cstring b)) = NUL.
Proof.
  induction b as [|c b IH]; simpl; [done|].
  by destruct (Ascii.eqb_spec c NUL) as [->|Hc].
Qed.

(** The copy loop writes behind its read cursor only: the bytes from the
    terminator of the line on are left as they are, and the comment
    pointer does not point beyond the terminator. *)
Lemma normalize_loop_frame (fuel : nat) :
  forall (block : list ascii) (i j : nat) block' jz comment,
    normalize_loop fuel block (Z.of_nat i) (Z.of_nat j)
      = Some (block', jz, comment) ->
    (j <= i)%nat ->
    (i + length (cstring (drop i block)) <= 255)%nat ->
    (forall n : nat,
        (i + length (cstring (drop i block)) <= n)%nat ->
        block' !! n = block !! n)
    /\ forall k : Z,
         comment = Some k ->
         0 <= k <= Z.of_nat (i + length (cstring (drop i block))).
Proof.
  induction fuel as [|fuel IH]; intros block i j block' jz comment E Hij Hr;
    [done|].
  cbn [normalize_loop] in E. cbv zeta in E. rewrite rd_nat in E.
  destruct (cstring (drop i block)) as [|c0 rest] eqn:Hs.
  { rewrite (cstring_drop_nil _ _ Hs) in E. simpl in E. by simplify_eq. }
  simpl in Hr. apply cstring_drop_cons in Hs as (Hi & Hc0 & Hs).
  rewrite Hi in E. simpl default in E.
  replace (Ascii.eqb (toupper c0) NUL) with false in E
    by (symmetry; apply Ascii.eqb_neq; intros E'; by apply toupper_NUL in E').
  replace (uint8 (Z.of_nat i + 1)) with (Z.of_nat (S i)) in E
    by (rewrite uint8_small; lia).
  replace (uint8 (Z.of_nat j + 1)) with (Z.of_nat (S j)) in E
    by (rewrite uint8_small; lia).
  assert (Hkeep : forall c : ascii,
    normalize_loop fuel (wr block (Z.of_nat j) c)
      (Z.of_nat (S i)) (Z.of_nat (S j)) = Some (block', jz, comment) ->
    (forall n : nat,
        (i + length (c0 :: rest) <= n)%nat -> block' !! n = block !! n)
    /\ forall k : Z,
         comment = Some k -> 0 <= k <= Z.of_nat (i + length (c0 :: rest))).
  { intros c E'. rewrite wr_nat in E'.
    apply IH in E' as [Hn Hk]; [|lia|].
    - rewrite drop_insert_lt, Hs in Hn, Hk by lia. simpl. split.
      + intros n Hle. rewrite Hn by lia.
        apply list_lookup_insert_ne. lia.
      + intros k Ek. apply Hk in Ek. lia.
    - rewrite drop_insert_lt, Hs by lia. lia. }
  assert (Hskip :
    normalize_loop fuel block (Z.of_nat (S i)) (Z.of_nat j)
      = Some (block', jz, comment) ->
    (forall n : nat,
        (i + length (c0 :: rest) <= n)%nat -> block' !! n = block !! n)
    /\ forall k : Z,
         comment = Some k -> 0 <= k <= Z.of_nat (i + length (c0 :: rest))).
  { intros E'. apply IH in E' as [Hn Hk]; [|lia|rewrite Hs; lia].
    rewrite Hs in Hn, Hk. simpl. split.
    - intros n Hle. apply Hn. lia.
    - intros k Ek. apply Hk in Ek. lia. }
  destruct (isupper (toupper c0) || isdigit (toupper c0)); [by apply (Hkeep _ E)|].
  destruct (Ascii.eqb (toupper c0) "(").
  { simplify_eq. simpl. split.
    - intros n Hle. rewrite wr_nat. apply list_lookup_insert_ne. lia.
    - intros k Ek. simplify_eq. lia. }
  destruct (char_to_int (toupper c0) <=? char_to_int " "); [by apply (Hskip E)|].
  destruct (char_to_int (toupper c0) =? 127); [by apply (Hskip E)|].
  destruct (strchr invalid_punctuation (toupper c0)); [by apply (Hskip E)|].
  by apply (Hkeep _ E).
Qed.

(** The loop over the comment writes inside the comment only. *)
Lemma trailing_paren_loop_frame (fuel : nat) :
  forall (block : list ascii) (k i : nat) block',
    trailing_paren_loop fuel block (Z.of_nat k) (Z.of_nat i) = Some block' ->
    (i + length (cstring (drop (k + i) block)) <= 255)%nat ->
    forall n : nat,
      (k + i + length (cstring (drop (k + i) block)) <= n)%nat ->
      block' !! n = block !! n.
Proof.
  induction fuel as [|fuel IH]; intros block k i block' E Hr n Hn; [done|].
  cbn [trailing_paren_loop] in E. cbv zeta in E.
  rewrite <- Nat2Z.inj_add, rd_nat in E.
  destruct (cstring (drop (k + i) block)) as [|c rest] eqn:Hs.
  { rewrite (cstring_drop_nil _ _ Hs) in E. simpl in E. by simplify_eq. }
  simpl in Hr, Hn. apply cstring_drop_cons in Hs as (Hi & Hc & Hs).
  rewrite Hi in E. simpl default in E.
  destruct (Ascii.eqb_spec c NUL) as [|_]; [done|].
  replace (uint8 (Z.of_nat i + 1)) with (Z.of_nat (S i)) in E
    by (rewrite uint8_small; lia).
  destruct (Ascii.eqb c ")").
  - replace (uint8 (Z.of_nat (S i) - 1)) with (Z.of_nat i) in E
      by (rewrite uint8_small; lia).
    rewrite <- Nat2Z.inj_add, wr_nat in E. simplify_eq.
    apply list_lookup_insert_ne. lia.
  - apply (IH _ _ _ _ E); rewrite Nat.add_succ_r, Hs; lia.
Qed.

(** The normalizer changes no byte beyond the terminator of the line. *)
Lemma normalize_frame (fuel : nat) (block block' : list ascii) (s s' : State) :
  (length (cstring block) <= 255)%nat -> (255 < fuel)%nat ->
  _gc_normalize_gcode_block fuel block s = Some (block', s') ->
  forall n : nat, (length (cstring block) < n)%nat -> block' !! n = block !! n.
Proof.
  intros Hl Hfuel E n Hn. unfold _gc_normalize_gcode_block in E.
  destruct (Ascii.eqb (rd block 0) "/").
  { simplify_eq. change 0 with (Z.of_nat 0). rewrite wr_nat.
    apply list_lookup_insert_ne. lia. }
  change 0 with (Z.of_nat 0) in E.
  destruct (normalize_loop_spec (cstring block) fuel block 0 0)
    as (b1 & j & comment & E1 & (_ & _ & Hj & _) & _); [done|lia|lia|lia|].
  pose proof (command_of_length (cstring block)) as Hcl. simpl in Hj.
  destruct (normalize_loop_frame _ _ _ _ _ _ _ E1) as [Hf1 Hk];
    [lia|rewrite drop_0; simpl; lia|]. rewrite drop_0 in Hf1, Hk.
  simpl in Hf1, Hk.
  rewrite E1, wr_nat in E.
  assert (Hf2 : <[j := NUL]> b1 !! n = block !! n).
  { rewrite list_lookup_insert_ne by lia. apply Hf1. lia. }
  destruct comment as [kz|]; [|by simplify_eq].
  destruct (Ascii.eqb _ "M" && Ascii.eqb _ "S" && Ascii.eqb _ "G");
    [|by simplify_eq].
  destruct (Hk kz eq_refl) as [Hk0 HkL].
  rewrite <- (Z2Nat.id kz) in E by done.
  destruct (trailing_paren_loop fuel (<[j := NUL]> b1) (Z.of_nat (Z.to_nat kz))
              (Z.of_nat 0)) as [b3|] eqn:E3; [|done].
  injection E as <- _. rewrite <- Hf2.
  assert (Hend : (length (cstring (drop (Z.to_nat kz) (<[j := NUL]> b1)))
                  <= length (cstring block) - Z.to_nat kz)%nat).
  { apply cstring_length_upto. rewrite lookup_drop.
    replace (Z.to_nat kz + (length (cstring block) - Z.to_nat kz))%nat
      with (length (cstring block)) by lia.
    destruct (decide (j = length (cstring block))) as [Ej|Ej].
    - rewrite Ej.
      destruct (decide (length (cstring block) < length b1)%nat).
      + by rewrite list_lookup_insert_eq.
      + by rewrite lookup_ge_None_2 by (rewrite length_insert; lia).
    - rewrite list_lookup_insert_ne, Hf1 by lia. apply cstring_end. }
  apply (trailing_paren_loop_frame _ _ _ _ _ E3);
    rewrite Nat.add_0_r; lia.
Qed.

End WriteFacts.

(** X7.  The normalizer writes within the line: on a line of at most 255
    characters it returns, every byte of the buffer that lies beyond the
    terminator of the line is left as it was, and the command it leaves is
    not longer than the line. *)
Theorem normalizer_writes_within_line `{libc : Libc} `{cm : CanonicalMachine}
    (fuel : nat) (block : list ascii) (s : State) :
  (length (cstring block) <= 255)%nat -> (255 < fuel)%nat ->
  exists (block' : list ascii) (s' : State),
    _gc_normalize_gcode_block fuel block s = Some (block', s')
    /\ drop (S (length (cstring block))) block'
       = drop (S (length (cstring block))) block
    /\ (length (cstring block') <= length (cstring block))%nat.
Proof.
  intros Hl Hfuel.
  destruct (normalize_spec fuel block s Hl Hfuel) as (block' & E & Hlen & Hc).
  exists block', (emit (message_of (cstring block)) s).
  split; [done|]. split; [|rewrite Hc; apply normalized_length].
  apply list_eq. intros n. rewrite !lookup_drop.
  apply (normalize_frame fuel block block' _ _ Hl Hfuel E). lia.
Qed.

Lemma normalizer_writes_within_line_witness :
  exists (block' : list ascii)
         (s' : @State (Reference.cm Reference.accept_all)),
    @_gc_normalize_gcode_block (Reference.libc true)
      (Reference.cm Reference.accept_all) 300
      (text "n20 g0 x1 (MSG go)" ++ NUL :: text "G1 Y2")
      (Reference.start Reference.accept_all Reference.at_rest)
      = Some (block', s')
    /\ drop (S (length (cstring
                          (text "n20 g0 x1 (MSG go)" ++ NUL :: text "G1 Y2"))))
         block'
       = drop (S (length (cstring
                            (text "n20 g0 x1 (MSG go)" ++ NUL :: text "G1 Y2"))))
           (text "n20 g0 x1 (MSG go)" ++ NUL :: text "G1 Y2")
    /\ (length (cstring block')
        <= length (cstring
                     (text "n20 g0 x1 (MSG go)" ++ NUL :: text "G1 Y2")))%nat.
Proof.
  apply (@normalizer_writes_within_line (Reference.libc true)
           (Reference.cm Reference.accept_all) 300
           (text "n20 g0 x1 (MSG go)" ++ NUL :: text "G1 Y2")
           (Reference.start Reference.accept_all Reference.at_rest)).
  - vm_compute. lia.
  - lia.
Defined.

(** ** The parse loop, word by word *)

Section BlockFacts.

Context `{libc : Libc} `{cm : CanonicalMachine}.

(** On a line made of statements the parse loop applies the letter
    dispatch to each of them in turn. *)
Lemma parse_loop_statements (line : list ascii) stmts :
  statements_of line stmts ->
  forall (fuel : nat) (buf : list ascii) (i : nat) (s : State),
    (i <= length (cstring buf) <= 255)%nat ->
    drop i (cstring buf) = line ->
    (length stmts < fuel)%nat ->
    parse_loop fuel buf (Z.of_nat i) s = Some (dispatch_all stmts s).
Proof.
  induction 1 as [|c num rest v stmts Hu Hnum Hv _ IH];
    intros fuel buf i s Hi Hd Hf;
    (destruct fuel as [|fuel]; [simpl in Hf; lia|]);
    cbn [parse_loop dispatch_all].
  - assert (Hnul : rd buf (Z.of_nat i) = NUL).
    { apply (f_equal length) in Hd. rewrite length_drop in Hd. simpl in Hd.
      rewrite rd_cstring, lookup_ge_None_2 by lia. done. }
    destruct (next_statement_spec buf i s Hi)
      as [(_ & _ & ->)|[(Hc & _)|[(Hup & _)|(Hup & _)]]];
      rewrite ?Hnul in *; done.
  - apply drop_cstring_cons in Hd as (Hc & Hd & ?); [|lia].
    destruct (next_statement_spec buf i s Hi)
      as [(Hc' & _)|[(_ & Hnu & _)|[(_ & Hn & _)|(_ & Hn & Hle & ->)]]].
    + rewrite Hc in Hc'. by apply isupper_not_NUL in Hu.
    + congruence.
    + rewrite cstring_at_nat, cstring_drop, Hd, Hv in Hn by lia. simpl in Hn.
      by destruct num.
    + rewrite cstring_at_nat, cstring_drop, Hd, Hv in Hle |- * by lia.
      simpl in Hle |- *. rewrite Hc.
      destruct (nonzero _); [done|].
      apply (IH fuel buf (S (i + length num))).
      * lia.
      * change (S (i + length num)) with (S i + length num)%nat.
        rewrite <- drop_drop, Hd, drop_app_length. done.
      * simpl in Hf. lia.
Qed.

End BlockFacts.

(** X8.  A block made of statements is parsed word by word and then
    dispatched: the models are preset from the canonical machine, the letter
    dispatch is applied to the statements in the order of the line, up to
    the first one that leaves a status other than OK, and the dispatcher is
    run on the models this leaves. *)
Theorem block_is_parsed_word_by_word `{libc : Libc} `{cm : CanonicalMachine}
    (fuel : nat) (buf : list ascii) (stmts : list (ascii * Q * Q))
    (s : State) :
  (length (cstring buf) <= 255)%nat ->
  statements_of (cstring buf) stmts ->
  (length stmts < fuel)%nat ->
  _gc_parse_gcode_block fuel buf s
  = Some (_gc_execute_gcode_block (dispatch_all stmts (preset_next_state s))).
Proof.
  intros Hl Hs Hf. unfold _gc_parse_gcode_block.
  change 0 with (Z.of_nat 0).
  rewrite (parse_loop_statements _ _ Hs fuel buf 0); try done. lia.
Qed.

Lemma block_is_parsed_word_by_word_witness :
  @_gc_parse_gcode_block (Reference.libc true)
    (Reference.cm Reference.accept_all) 3 (text "G1X-10.5")
    (Reference.start Reference.accept_all Reference.at_rest)
  = Some (_gc_execute_gcode_block
            (dispatch_all
               [("G"%char, 1%Q, fraction_of 1);
                ("X"%char, (-21 # 2)%Q, fraction_of (-21 # 2))]
               (preset_next_state
                  (Reference.start Reference.accept_all Reference.at_rest)))).
Proof.
  apply (@block_is_parsed_word_by_word (Reference.libc true)
           (Reference.cm Reference.accept_all) 3 (text "G1X-10.5")).
  - simpl. lia.
  - apply (statements_cons "G" (text "1") (text "X-10.5") 1%Q);
      [reflexivity|discriminate|reflexivity|].
    apply (statements_cons "X" (text "-10.5") [] (-21 # 2)%Q);
      [reflexivity|discriminate|reflexivity|].
    apply statements_nil.
  - simpl. lia.
Defined.

(** ** The status and the calls of the dispatcher *)

Section StatusFacts.

Context `{libc : Libc} `{cm : CanonicalMachine}.

Lemma stops_at_failure_nil (m : machine) : stops_at_failure [] m.
Proof. intros [|] ? ? E; discriminate. Qed.

Lemma stops_at_failure_one (c : cm_call) (m : machine) :
  stops_at_failure [c] m.
Proof.
  intros before after c' E Ha _. apply (f_equal length) in E.
  rewrite length_app in E. simpl in E. destruct after; [done|].
  simpl in E. lia.
Qed.

Lemma stops_at_failure_cons (c : cm_call) (made : list cm_call) (m : machine) :
  (is_spindle c = false -> nonzero (fst (cm_exec c m)) = false) ->
  stops_at_failure made (snd (cm_exec c m)) ->
  stops_at_failure (c :: made) m.
Proof.
  intros H1 H2 [|c0 before] after c' E Ha Hs; simpl in E; simplify_eq.
  - by apply H1.
  - by apply (H2 before after c').
Qed.

(** Carrying out a plan whose entries fit their calls. *)
Lemma run_plan_status (p : list entry) :
  forallb fits p = true ->
  forall s : State,
    exists made : list cm_call,
      calls (snd (run_plan p s)) = calls s ++ made
      /\ fst (run_plan p s) = status_left (gp_status s) made (gm s)
      /\ stops_at_failure made (gm s).
Proof.
  induction p as [|e p IH]; intros Hp s.
  { exists []. simpl. rewrite app_nil_r. split; [done|]. split; [done|].
    apply stops_at_failure_nil. }
  simpl in Hp. apply andb_true_iff in Hp as [He Hp].
  destruct (call_cm_spec (entry_call e) s) as (Hr & Hm & Hc & _).
  destruct e as [c|c|c]; simpl in *.
  - apply negb_true_iff in He.
    destruct (call_cm c s) as [r s1]. simpl in *. subst r.
    destruct (nonzero (cm_exec c (gm s)).1) eqn:Enz.
    + exists [c]. simpl. rewrite He. split; [by destruct s1|]. split; [done|].
      apply stops_at_failure_one.
    + destruct (IH Hp (set_gp_status (cm_exec c (gm s)).1 s1))
        as (made & Hc' & Hs' & Hst).
      exists (c :: made). simpl. rewrite He.
      replace (calls (set_gp_status _ s1)) with (calls s1) in Hc'
        by by destruct s1.
      replace (gm (set_gp_status _ s1)) with (gm s1) in Hs', Hst
        by by destruct s1.
      rewrite gp_status_set, Hm in Hs'. rewrite Hm in Hst.
      split; [by rewrite Hc', Hc, <- app_assoc|]. split; [done|].
      by apply stops_at_failure_cons.
  - destruct (IH Hp (call_cm c s).2) as (made & Hc' & Hs' & Hst).
    exists (c :: made). simpl. rewrite He.
    replace (gp_status (call_cm c s).2) with (gp_status s) in Hs'
      by (unfold call_cm; destruct (cm_exec c (gm s)); by destruct s).
    rewrite Hm in Hs', Hst.
    split; [by rewrite Hc', Hc, <- app_assoc|]. split; [done|].
    apply stops_at_failure_cons; [|done]. intros E. by rewrite E in He.
  - apply negb_true_iff in He.
    destruct (call_cm c s) as [r s1]. simpl in *. subst r.
    exists [c]. simpl. rewrite He. split; [by destruct s1|]. split; [done|].
    apply stops_at_failure_one.
Qed.

Lemma plan_fits (g : GCodeModel) (f : GCodeFlags) :
  forallb fits (plan g f) = true.
Proof.
  unfold plan, settings_plan. rewrite !forallb_app.
  rewrite !forallb_when; try done.
  - simpl. unfold motion_plan.
    destruct (next_action_eqb _ _); [|done].
    by destruct (motion_mode g).
  - by destruct (spindle_mode g).
Qed.

(** Carrying out a plan reads the status, the machine and the calls made
    so far, and nothing else of the state. *)
Lemma run_plan_same (p : list entry) :
  forall s s' : State,
    gm s' = gm s -> calls s' = calls s -> gp_status s' = gp_status s ->
    fst (run_plan p s') = fst (run_plan p s)
    /\ calls (snd (run_plan p s')) = calls (snd (run_plan p s))
    /\ gm (snd (run_plan p s')) = gm (snd (run_plan p s)).
Proof.
  induction p as [|e p IH]; intros s s' Hm Hc Hs; [done|].
  destruct (call_cm_spec (entry_call e) s) as (Hr1 & Hm1 & Hc1 & _).
  destruct (call_cm_spec (entry_call e) s') as (Hr2 & Hm2 & Hc2 & _).
  rewrite Hm in Hr2, Hm2. rewrite Hc in Hc2.
  destruct e as [c|c|c]; simpl in *.
  - destruct (call_cm c s) as [r1 s1], (call_cm c s') as [r2 s2].
    simpl in *. subst r1 r2.
    destruct (nonzero _).
    + by destruct s1, s2; simpl in *; subst.
    + apply IH; destruct s1, s2; simpl in *; congruence.
  - apply IH; try congruence.
    unfold call_cm. destruct (cm_exec c (gm s)), (cm_exec c (gm s')).
    by destruct s, s'.
  - destruct (call_cm c s) as [r1 s1], (call_cm c s') as [r2 s2].
    simpl in *. subst r1 r2. by destruct s1, s2; simpl in *; subst.
Qed.

Lemma same_dispatch_plan (s s' : State) :
  gm s' = gm s -> calls s' = calls s -> gp_status s' = gp_status s ->
  plan (gn s') (gf s') = plan (gn s) (gf s) ->
  same_dispatch s s'.
Proof.
  intros Hm Hc Hs Hp. unfold same_dispatch.
  rewrite !execute_gcode_block_plan, Hp. by apply run_plan_same.
Qed.

Lemma same_dispatch_refl (s : State) : same_dispatch s s.
Proof. done. Qed.

(** A block parsed and dispatched: what is printed, and the status. *)
Lemma parse_gcode_block_frame (fuel : nat) (buf : list ascii) (s : State)
    (r : status) (s' : State) :
  _gc_parse_gcode_block fuel buf s = Some (r, s') ->
  printed s' = printed s /\ gp_status s' = r.
Proof.
  unfold _gc_parse_gcode_block. intros E.
  destruct (parse_loop fuel buf 0 (preset_next_state s)) as [s1|] eqn:El;
    [|done].
  apply parse_loop_frame in El as ((_ & _ & Hp) & _).
  rewrite execute_gcode_block_plan in E.
  destruct (run_plan_spec (plan (gn s1) (gf s1)) s1)
    as (made & _ & _ & _ & Hp' & _ & Hs).
  destruct (run_plan (plan (gn s1) (gf s1)) s1) as [r1 s2].
  simpl in *. simplify_eq. rewrite Hp', Hp. split; [by destruct s|done].
Qed.

End StatusFacts.

(** X9.  The status the dispatcher returns is the status of the last call it
    has made that is not a spindle call, and the status it was entered with
    when it has made none; the status stored in [gp] is the one returned. No
    call but the last and the spindle calls has returned a status other than
    OK; the machine is left as the calls made have left it. *)
Theorem dispatcher_returns_last_checked_status
    `{libc : Libc} `{cm : CanonicalMachine} (s : State) :
  let r := fst (_gc_execute_gcode_block s) in
  let s' := snd (_gc_execute_gcode_block s) in
  exists made : list cm_call,
    calls s' = calls s ++ made
    /\ r = status_left (gp_status s) made (gm s)
    /\ gp_status s' = r
    /\ stops_at_failure made (gm s)
    /\ gm s' = machine_after made (gm s).
Proof.
  intros r s'. subst r s'. rewrite execute_gcode_block_plan.
  destruct (run_plan_status (plan (gn s) (gf s)) (plan_fits _ _) s)
    as (made & Hc & Hr & Hst).
  destruct (run_plan_spec (plan (gn s) (gf s)) s)
    as (made' & _ & Hc' & Hm & _ & _ & Hs).
  exists made. repeat split; try done.
  rewrite Hm. f_equal. rewrite Hc in Hc'. by apply app_inv_head in Hc'.
Qed.

(** X10.  The program flow words M0, M1, M2, M30 and M60, the tool change
    M6, the absolute override G53 and the origin mode G92 are accepted and
    stored (M0 and M1 as a program stop, M2, M30 and M60 as a program end,
    the others as a flag that is true, each with its changed-value flag
    raised), and M7, M8, M9, M48, M49, G40, G49, G61 and N are accepted and
    skipped (the state is left as it is): none of them sets an error
    status, and none changes the status the dispatcher returns, the calls
    it makes or the machine it leaves. *)
Theorem inert_words_change_no_dispatch `{libc : Libc} `{cm : CanonicalMachine}
    (s : State) :
  inert_word (gp_letter s) (trunc (gp_value s)) = true ->
  gp_status (dispatch_statement s) = gp_status s
  /\ same_dispatch s (dispatch_statement s)
  /\ word_stored (gp_letter s) (trunc (gp_value s)) s (dispatch_statement s).
Proof.
  unfold inert_word, word_stored, dispatch_statement.
  set (n := trunc (gp_value s)). clearbody n.
  destruct (Ascii.eqb_spec (gp_letter s) "M") as [->|_].
  { simpl. rewrite !orb_true_iff, !Z.eqb_eq. intros H.
    decompose [or] H; try done; subst n; simpl;
      first [ by (split; [done|split; [apply same_dispatch_refl|done]])
            | (split; [by destruct s|]);
              (split; [|by destruct s as [? ? ? ? [] [] ? ? ?]]);
              apply same_dispatch_plan; by destruct s as [? ? ? ? [] [] ? ? ?] ]. }
  destruct (Ascii.eqb_spec (gp_letter s) "G") as [->|_].
  { simpl. rewrite !orb_true_iff, !Z.eqb_eq. intros H.
    decompose [or] H; try done; subst n; simpl;
      first [ by (split; [done|split; [apply same_dispatch_refl|done]])
            | (split; [by destruct s|]);
              (split; [|by destruct s as [? ? ? ? [] [] ? ? ?]]);
              apply same_dispatch_plan; by destruct s as [? ? ? ? [] [] ? ? ?] ]. }
  destruct (Ascii.eqb_spec (gp_letter s) "N") as [->|_]; [|done].
  intros _. split; [done|]. split; [apply same_dispatch_refl|done].
Qed.

Lemma inert_words_change_no_dispatch_witness :
  gp_status
    (dispatch_statement
       (load_statement ("M"%char, 2%Q, 0%Q)
          (Reference.start Reference.accept_all feeding)))
  = gp_status
      (load_statement ("M"%char, 2%Q, 0%Q)
         (Reference.start Reference.accept_all feeding))
  /\ same_dispatch
       (load_statement ("M"%char, 2%Q, 0%Q)
          (Reference.start Reference.accept_all feeding))
       (dispatch_statement
          (load_statement ("M"%char, 2%Q, 0%Q)
             (Reference.start Reference.accept_all feeding)))
  /\ (program_flow
        (gn (dispatch_statement
               (load_statement ("M"%char, 2%Q, 0%Q)
                  (Reference.start Reference.accept_all feeding))))
      = PROGRAM_FLOW_END
      /\ f_program_flow
           (gf (dispatch_statement
                  (load_statement ("M"%char, 2%Q, 0%Q)
                     (Reference.start Reference.accept_all feeding))))
         = true).
Proof.
  apply (@inert_words_change_no_dispatch (Reference.libc true)
           (Reference.cm Reference.accept_all)
           (load_statement ("M"%char, 2%Q, 0%Q)
              (Reference.start Reference.accept_all feeding))).
  reflexivity.
Defined.

(** X11.  The entry point reports a status through [tg_print_status] exactly
    when the line was parsed and the status returned is not OK, with the
    status and the normalized command; an empty line, a deleted block and a
    quit are not reported. The status returned for a parsed line is the one
    left in [gp]. *)
Theorem status_is_reported_when_not_ok `{libc : Libc} `{cm : CanonicalMachine}
    (fuel : nat) (block : list ascii) (s : State) :
  (length (cstring block) <= 255)%nat -> (255 < fuel)%nat ->
  let command := normalized (cstring block) in
  let parsed :=
    match command with [] => false | c :: _ => negb (Ascii.eqb c "Q") end in
  exists (r : status) (block' : list ascii) (s' : State),
    gc_gcode_parser fuel block s = Some (r, block', s')
    /\ printed s'
       = printed s ++ (if parsed && nonzero r then [(r, command)] else [])
    /\ (parsed = true -> gp_status s' = r).
Proof.
  intros Hl Hfuel command parsed.
  destruct (entry_point_spec fuel block s Hl Hfuel) as (block' & Hc & _ & E).
  fold command in Hc, E.
  assert (Hemit : printed (emit (message_of (cstring block)) s) = printed s).
  { destruct (message_of (cstring block)) as [t|]; [|done]. simpl.
    by destruct (call_cm_spec (CM_message t) s) as (_ & _ & _ & -> & _). }
  pose proof (normalized_no_NUL (cstring block)) as Hnul. fold command in Hnul.
  destruct command as [|c command'] eqn:Ecmd; simpl in E.
  { exists TG_OK, block', (emit (message_of (cstring block)) s).
    split; [done|]. subst parsed. simpl. by rewrite Hemit, app_nil_r. }
  apply Forall_cons in Hnul as [Hnul _].
  destruct (Ascii.eqb_spec c NUL) as [|_]; [done|].
  subst parsed. destruct (Ascii.eqb_spec c "Q") as [->|_]; simpl.
  { exists TG_QUIT, block', (emit (message_of (cstring block)) s).
    split; [done|]. by rewrite Hemit, app_nil_r. }
  assert (Hl' : (length (cstring block') <= 255)%nat).
  { rewrite Hc. pose proof (normalized_length (cstring block)) as Hn.
    fold command in Hn. rewrite Ecmd in Hn. lia. }
  destruct (parse_gcode_block_ends fuel block'
              (emit (message_of (cstring block)) s) Hl' Hfuel)
    as (r & s2 & Ep).
  rewrite Ep in E.
  apply parse_gcode_block_frame in Ep as (Hp & Hs). rewrite Hemit in Hp.
  destruct (nonzero r) eqn:Enz.
  - exists r, block', (tg_print_status (gp_status s2) block' s2).
    rewrite E. unfold tg_print_status. rewrite Hc, Hs, Hp, Enz.
    destruct s2; simpl in *; by subst.
  - exists r, block', s2. rewrite E, Hs, Hp, Enz, app_nil_r. done.
Qed.

Lemma status_is_reported_when_not_ok_witness :
  exists (r : status) (block' : list ascii)
         (s' : @State (Reference.cm Reference.accept_all)),
    @gc_gcode_parser (Reference.libc true) (Reference.cm Reference.accept_all)
      300 (text "k2 w1") (Reference.start Reference.accept_all Reference.at_rest)
      = Some (r, block', s')
    /\ printed s'
       = [] ++ (if true && nonzero r then [(r, text "K2W1")] else [])
    /\ (true = true -> gp_status s' = r).
Proof.
  apply (@status_is_reported_when_not_ok (Reference.libc true)
           (Reference.cm Reference.accept_all) 300 (text "k2 w1")
           (Reference.start Reference.accept_all Reference.at_rest)).
  - simpl. lia.
  - lia.
Defined.

(** ** Modal state *)

(** X12.  The motion mode is modal: while the canonical machine reports a
    motion as next action, in the straight traverse or the straight feed
    mode, a block that holds nothing but an X word makes that motion again,
    to the X given and the Y and Z of the machine's position, and returns
    the status of this call. *)
Theorem axis_word_repeats_the_motion `{libc : Libc} `{cm : CanonicalMachine}
    (fuel : nat) (buf : list ascii) (v : Q) (s : State) :
  (length (cstring buf) <= 255)%nat ->
  statements_of (cstring buf) [("X"%char, v, fraction_of v)] ->
  (1 < fuel)%nat ->
  cm_get_next_action (gm s) = NEXT_ACTION_MOTION ->
  cm_get_motion_mode (gm s) = MOTION_MODE_STRAIGHT_TRAVERSE
  \/ cm_get_motion_mode (gm s) = MOTION_MODE_STRAIGHT_FEED ->
  let move :=
    (match cm_get_motion_mode (gm s) with
     | MOTION_MODE_STRAIGHT_TRAVERSE => CM_straight_traverse
     | _ => CM_straight_feed
     end) v (cm_get_position Y (gm s)) (cm_get_position Z_axis (gm s)) in
  exists s' : State,
    _gc_parse_gcode_block fuel buf s = Some (fst (cm_exec move (gm s)), s')
    /\ calls s' = calls s ++ [move]
    /\ gm s' = snd (cm_exec move (gm s)).
Proof.
  intros Hl Hs Hf Hna Hmm move.
  unfold _gc_parse_gcode_block. change 0 with (Z.of_nat 0).
  rewrite (parse_loop_statements _ _ Hs fuel buf 0); [|lia|done|simpl; lia].
  destruct s as [a b c d g f m cs pr]. simpl in Hna, Hmm, move |- *.
  unfold _gc_execute_gcode_block, CALL_CM_FUNC, spindle_on_or_off, call_when,
    finish_when, next_action_is, motion_mode_is.
  simpl. rewrite Hna. simpl.
  destruct Hmm as [E|E]; subst move; rewrite E; simpl; unfold call_cm; simpl;
    destruct (cm_exec _ m) as [r m']; simpl; eexists; done.
Qed.

Lemma axis_word_repeats_the_motion_witness :
  exists s' : @State (Reference.cm Reference.accept_all),
    @_gc_parse_gcode_block (Reference.libc true)
      (Reference.cm Reference.accept_all) 2 (text "X10")
      (Reference.start Reference.accept_all feeding)
      = Some (TG_OK, s')
    /\ calls s' = [] ++ [CM_straight_feed 10 2 3]
    /\ gm s' = feeding.
Proof.
  apply (@axis_word_repeats_the_motion (Reference.libc true)
           (Reference.cm Reference.accept_all) 2 (text "X10") 10%Q
           (Reference.start Reference.accept_all feeding)).
  - simpl. lia.
  - apply (statements_cons "X" (text "10") [] 10%Q);
      [reflexivity|discriminate|reflexivity|].
    apply statements_nil.
  - lia.
  - reflexivity.
  - right. reflexivity.
Defined.

(** ** Words of a block *)

(** X13.  The order of the value words of a block does not matter: two words
    with different letters among T, F, P, S, X, Y, Z, I, J, K and R leave
    the same models and the same status in either order, and so the same
    dispatch. *)
Theorem value_words_commute `{libc : Libc} `{cm : CanonicalMachine}
    (c1 c2 : ascii) (v1 v2 f1 f2 : Q) (s : State) :
  value_word c1 = true -> value_word c2 = true -> c1 <> c2 ->
  gp_status s = TG_OK ->
  let s12 := dispatch_all [(c1, v1, f1); (c2, v2, f2)] s in
  let s21 := dispatch_all [(c2, v2, f2); (c1, v1, f1)] s in
  gn s12 = gn s21 /\ gf s12 = gf s21
  /\ gp_status s12 = TG_OK /\ gp_status s21 = TG_OK
  /\ same_dispatch s21 s12.
Proof.
  intros H1 H2 Hne Hs s12 s21. unfold value_word, strchr in H1, H2.
  simpl existsb in H1, H2. rewrite !orb_true_iff in H1, H2.
  destruct s as [a b c d g f m cs pr]. simpl in Hs. subst d.
  assert (H : (gn s12 = gn s21 /\ gf s12 = gf s21)
              /\ (gp_status s12 = TG_OK /\ gp_status s21 = TG_OK)
              /\ gm s12 = gm s21 /\ calls s12 = calls s21).
  { subst s12 s21. destruct g, f.
    repeat match goal with
           | H : _ \/ _ |- _ => destruct H as [H|H]
           | H : false = true |- _ => discriminate H
           | H : Ascii.eqb _ _ = true |- _ => apply Ascii.eqb_eq in H; subst
           end;
      try done; simpl; repeat split;
      first [reflexivity
            | f_equal; apply list_insert_insert_ne; cbv [X Y Z_axis]; lia]. }
  destruct H as ((Hgn & Hgf) & (Hs1 & Hs2) & Hm & Hc).
  repeat split; try done.
  all: apply same_dispatch_plan; try congruence.
Qed.

Lemma value_words_commute_witness :
  gn (dispatch_all [("F"%char, 100%Q, 0%Q); ("X"%char, 10%Q, 0%Q)]
        (Reference.start Reference.accept_all feeding))
  = gn (dispatch_all [("X"%char, 10%Q, 0%Q); ("F"%char, 100%Q, 0%Q)]
          (Reference.start Reference.accept_all feeding))
  /\ gf (dispatch_all [("F"%char, 100%Q, 0%Q); ("X"%char, 10%Q, 0%Q)]
           (Reference.start Reference.accept_all feeding))
     = gf (dispatch_all [("X"%char, 10%Q, 0%Q); ("F"%char, 100%Q, 0%Q)]
             (Reference.start Reference.accept_all feeding))
  /\ gp_status
       (dispatch_all [("F"%char, 100%Q, 0%Q); ("X"%char, 10%Q, 0%Q)]
          (Reference.start Reference.accept_all feeding)) = TG_OK
  /\ gp_status
       (dispatch_all [("X"%char, 10%Q, 0%Q); ("F"%char, 100%Q, 0%Q)]
          (Reference.start Reference.accept_all feeding)) = TG_OK
  /\ same_dispatch
       (dispatch_all [("X"%char, 10%Q, 0%Q); ("F"%char, 100%Q, 0%Q)]
          (Reference.start Reference.accept_all feeding))
       (dispatch_all [("F"%char, 100%Q, 0%Q); ("X"%char, 10%Q, 0%Q)]
          (Reference.start Reference.accept_all feeding)).
Proof.
  apply (@value_words_commute (Reference.libc true)
           (Reference.cm Reference.accept_all) "F"%char "X"%char
           100%Q 10%Q 0%Q 0%Q (Reference.start Reference.accept_all feeding)).
  - reflexivity.
  - reflexivity.
  - discriminate.
  - reflexivity.
Defined.



(** * Properties of tinyg_tc.c *)

Module TinygTcFacts.

Import TinygTc.

(** ** Bytes and bits *)

Lemma testbit_uint8 (z n : Z) :
  0 <= n -> Z.testbit (uint8 z) n = (n <? 8) && Z.testbit z n.
Proof.
  intros Hn. unfold uint8. change 256 with (2 ^ 8).
  destruct (Z.ltb_spec n 8).
  - by rewrite Z.mod_pow2_bits_low.
  - by rewrite Z.mod_pow2_bits_high.
Qed.

Lemma testbit_byte (p n : Z) :
  0 <= p < 256 -> 8 <= n -> Z.testbit p n = false.
Proof.
  intros Hp Hn. rewrite <- (uint8_small p) by lia.
  rewrite testbit_uint8 by lia. destruct (Z.ltb_spec n 8); [lia|done].
Qed.

Lemma uint8_land (p x : Z) : 0 <= p < 256 -> uint8 (Z.land p x) = Z.land p x.
Proof.
  intros Hp. apply Z.bits_inj'. intros n Hn.
  rewrite testbit_uint8, Z.land_spec by lia.
  destruct (Z.ltb_spec n 8); [done|]. by rewrite (testbit_byte p n) by lia.
Qed.

Lemma uint8_lor (p q : Z) :
  0 <= p < 256 -> 0 <= q < 256 -> uint8 (Z.lor p q) = Z.lor p q.
Proof.
  intros Hp Hq. apply Z.bits_inj'. intros n Hn.
  rewrite testbit_uint8, Z.lor_spec by lia.
  destruct (Z.ltb_spec n 8); [done|].
  by rewrite (testbit_byte p n), (testbit_byte q n) by lia.
Qed.

Lemma land_clear_other (p q : Z) :
  Z.land (Z.land p (Z.lnot q)) (Z.lnot q) = Z.land p (Z.lnot q).
Proof. by rewrite <- Z.land_assoc, Z.land_diag. Qed.

Lemma land_clear_pin (p q : Z) : Z.land (Z.land p (Z.lnot q)) q = 0.
Proof.
  apply Z.bits_inj'. intros n Hn.
  rewrite !Z.land_spec, Z.lnot_spec, Z.bits_0 by lia.
  by destruct (Z.testbit p n), (Z.testbit q n).
Qed.

Lemma land_set_other (p q : Z) :
  Z.land (Z.lor p q) (Z.lnot q) = Z.land p (Z.lnot q).
Proof.
  apply Z.bits_inj'. intros n Hn.
  rewrite !Z.land_spec, Z.lor_spec, Z.lnot_spec by lia.
  by destruct (Z.testbit p n), (Z.testbit q n).
Qed.

(** ** The clock *)

Lemma times_app (t : task) (l l' : list task) :
  times t (l ++ l') = (times t l + times t l')%nat.
Proof. induction l as [|t' l IH]; simpl; [done|]. rewrite IH. lia. Qed.

(** One tick, from counters that are within their periods. *)
Lemma rtc_step (LED_PIN : Z) (d : Device) :
  let a := rtc_100ms_count (dev d) in
  let b := rtc_1sec_count (dev d) in
  1 <= a <= 10 -> 1 <= b <= 10 ->
  exists port : Z,
    rtc_callback LED_PIN (TIMER0_OVF_vect d)
    = (SC_OK,
       {| dev := {| rtc_flag := 0;
                    rtc_100ms_count := if a =? 1 then 10 else a - 1;
                    rtc_1sec_count :=
                      if a =? 1 then if b =? 1 then 10 else b - 1 else b |};
          LED_PORT := port;
          ran := ran d ++ [Rtc_10ms]
                   ++ (if a =? 1
                       then [Rtc_100ms] ++ (if b =? 1 then [Rtc_1sec] else [])
                       else []) |}).
Proof.
  destruct d as [[f a b] p l]. simpl. intros Ha Hb.
  unfold rtc_callback, TIMER0_OVF_vect, rtc_10ms, led_toggle. simpl.
  destruct (negb (p =? 0) && negb (LED_PIN =? 0)); simpl;
    rewrite (uint8_small (a - 1)) by lia;
    (destruct (Z.eqb_spec a 1) as [->|Ha1];
     [simpl; rewrite (uint8_small (b - 1)) by lia;
      destruct (Z.eqb_spec b 1) as [->|Hb1];
      [simpl; rewrite <- ?app_assoc; eexists; reflexivity|];
      destruct (Z.eqb_spec (b - 1) 0); [lia|];
      simpl; rewrite <- ?app_assoc; eexists; reflexivity|]);
    (destruct (Z.eqb_spec (a - 1) 0); [lia|]);
    simpl; rewrite ?app_nil_r; eexists; reflexivity.
Qed.

Lemma succ_div_mod (n : nat) :
  if (n mod 10 =? 9)%nat
  then (S n mod 10 = 0 /\ S n / 10 = S (n / 10))%nat
  else (S n mod 10 = S (n mod 10) /\ S n / 10 = n / 10)%nat.
Proof.
  pose proof (Nat.div_mod_eq n 10). pose proof (Nat.div_mod_eq (S n) 10).
  pose proof (Nat.mod_upper_bound n 10).
  pose proof (Nat.mod_upper_bound (S n) 10).
  destruct (Nat.eqb_spec (n mod 10) 9) as [E|E]; lia.
Qed.

(** The state of the clock after [n] ticks. *)
Lemma rtc_after_ticks (LED_PIN : Z) (d : Device) (n : nat) :
  let d' := ticks LED_PIN n (rtc_init d) in
  rtc_100ms_count (dev d') = 10 - Z.of_nat (n mod 10)
  /\ rtc_1sec_count (dev d') = 10 - Z.of_nat (n / 10 mod 10)
  /\ times Rtc_10ms (ran d') = (times Rtc_10ms (ran d) + n)%nat
  /\ times Rtc_100ms (ran d') = (times Rtc_100ms (ran d) + n / 10)%nat
  /\ times Rtc_1sec (ran d') = (times Rtc_1sec (ran d) + n / 10 / 10)%nat
  /\ ((0 < n)%nat -> rtc_flag (dev d') = 0).
Proof.
  induction n as [|n IH].
  { destruct d as [[f a b] p l]. simpl. repeat split; try lia. }
  cbn zeta in IH |- *. cbn [ticks].
  set (d' := ticks LED_PIN n (rtc_init d)) in *.
  destruct IH as (Ha & Hb & H1 & H2 & H3 & _).
  pose proof (Nat.mod_upper_bound n 10) as Hu1.
  pose proof (Nat.mod_upper_bound (n / 10) 10) as Hu2.
  destruct (rtc_step LED_PIN d') as [port ->]; [lia|lia|].
  cbn [snd dev ran rtc_100ms_count rtc_1sec_count rtc_flag].
  rewrite !times_app, H1, H2, H3, Ha, Hb.
  pose proof (succ_div_mod n) as Hn.
  pose proof (succ_div_mod (n / 10)) as Hq.
  destruct (Nat.eqb_spec (n mod 10) 9) as [E|E].
  - destruct Hn as [-> ->].
    replace (10 - Z.of_nat (n mod 10) =? 1) with true
      by (symmetry; apply Z.eqb_eq; lia).
    destruct (Nat.eqb_spec (n / 10 mod 10) 9) as [E2|E2].
    + destruct Hq as [-> ->].
      replace (10 - Z.of_nat (n / 10 mod 10) =? 1) with true
        by (symmetry; apply Z.eqb_eq; lia).
      simpl. repeat split; lia.
    + destruct Hq as [-> ->].
      replace (10 - Z.of_nat (n / 10 mod 10) =? 1) with false
        by (symmetry; apply Z.eqb_neq; lia).
      simpl. repeat split; lia.
  - destruct Hn as [-> ->].
    replace (10 - Z.of_nat (n mod 10) =? 1) with false
      by (symmetry; apply Z.eqb_neq; lia).
    simpl. repeat split; lia.
Qed.

End TinygTcFacts.

(** ** The real-time clock *)

(** X15.  After [rtc_init], when every timer interrupt is followed by a run
    of the clock handler, the 10 ms task has run once per tick, the 100 ms
    task once every 10 ticks and the 1 s task once every 100 ticks; the two
    down counters stay between 1 and 10; and a run of the handler that no
    interrupt precedes returns [SC_NOOP] and changes nothing. *)
Theorem rtc_tasks_run_on_schedule (LED_PIN : Z) (d : TinygTc.Device) (n : nat) :
  let d' := TinygTc.ticks LED_PIN n (TinygTc.rtc_init d) in
  let d'' := TinygTc.ticks LED_PIN (S n) (TinygTc.rtc_init d) in
  TinygTc.times TinygTc.Rtc_10ms (TinygTc.ran d')
    = (TinygTc.times TinygTc.Rtc_10ms (TinygTc.ran d) + n)%nat
  /\ TinygTc.times TinygTc.Rtc_100ms (TinygTc.ran d')
     = (TinygTc.times TinygTc.Rtc_100ms (TinygTc.ran d) + n / 10)%nat
  /\ TinygTc.times TinygTc.Rtc_1sec (TinygTc.ran d')
     = (TinygTc.times TinygTc.Rtc_1sec (TinygTc.ran d) + n / 100)%nat
  /\ TinygTc.rtc_100ms_count (TinygTc.dev d') = 10 - Z.of_nat (n mod 10)
  /\ TinygTc.rtc_1sec_count (TinygTc.dev d') = 10 - Z.of_nat (n / 10 mod 10)
  /\ TinygTc.rtc_callback LED_PIN d'' = (TinygTc.SC_NOOP, d'').
Proof.
  intros d' d''.
  destruct (TinygTcFacts.rtc_after_ticks LED_PIN d n)
    as (Ha & Hb & H1 & H2 & H3 & _).
  destruct (TinygTcFacts.rtc_after_ticks LED_PIN d (S n))
    as (_ & _ & _ & _ & _ & Hf).
  fold d' in Ha, Hb, H1, H2, H3. fold d'' in Hf.
  repeat split; try done.
  - rewrite H3. by rewrite Nat.Div0.div_div.
  - unfold TinygTc.rtc_callback. rewrite Hf by lia. done.
Qed.

(** ** The LED *)

(** X16.  [led_toggle] tests the whole port, not the LED pin: it leaves the
    other pins of the port as they are, clears the LED pin whenever any pin
    of the port is high, and sets it only when the port reads zero. So while
    another pin of the port is high, toggling again changes nothing. *)
Theorem led_toggle_tests_the_whole_port (LED_PIN : Z) (d : TinygTc.Device) :
  0 <= TinygTc.LED_PORT d < 256 -> 0 < LED_PIN < 256 ->
  let d' := TinygTc.led_toggle LED_PIN d in
  0 <= TinygTc.LED_PORT d' < 256
  /\ Z.land (TinygTc.LED_PORT d') (Z.lnot LED_PIN)
     = Z.land (TinygTc.LED_PORT d) (Z.lnot LED_PIN)
  /\ Z.land (TinygTc.LED_PORT d') LED_PIN
     = (if TinygTc.LED_PORT d =? 0 then LED_PIN else 0)
  /\ (Z.land (TinygTc.LED_PORT d) (Z.lnot LED_PIN) <> 0 ->
      TinygTc.led_toggle LED_PIN d' = d').
Proof.
  destruct d as [dv p l]. simpl. intros Hp HP.
  unfold TinygTc.led_toggle, TinygTc.led_on, TinygTc.led_off. simpl.
  destruct (Z.eqb_spec LED_PIN 0) as [|_]; [lia|].
  destruct (Z.eqb_spec p 0) as [->|Hp0]; simpl.
  - rewrite Z.lor_0_l, uint8_small by lia.
    split; [lia|]. split; [by rewrite Z.land_lnot_diag, Z.land_0_l|].
    split; [by rewrite Z.land_diag|]. by rewrite Z.land_0_l.
  - assert (Hb : 0 <= uint8 (Z.land p (Z.lnot LED_PIN)) < 256)
      by (apply Z.mod_pos_bound; lia).
    rewrite TinygTcFacts.uint8_land in Hb |- * by lia.
    split; [done|].
    split; [apply TinygTcFacts.land_clear_other|].
    split; [apply TinygTcFacts.land_clear_pin|].
    intros Hother. destruct (Z.eqb_spec (Z.land p (Z.lnot LED_PIN)) 0);
      [done|]. simpl.
    rewrite TinygTcFacts.land_clear_other.
    by rewrite TinygTcFacts.uint8_land by lia.
Qed.

Lemma led_toggle_tests_the_whole_port_witness :
  0 <= TinygTc.LED_PORT (TinygTc.led_toggle 32 TinygTc.heater_on) < 256
  /\ Z.land (TinygTc.LED_PORT (TinygTc.led_toggle 32 TinygTc.heater_on))
       (Z.lnot 32)
     = Z.land (TinygTc.LED_PORT TinygTc.heater_on) (Z.lnot 32)
  /\ Z.land (TinygTc.LED_PORT (TinygTc.led_toggle 32 TinygTc.heater_on)) 32
     = (if TinygTc.LED_PORT TinygTc.heater_on =? 0 then 32 else 0)
  /\ (Z.land (TinygTc.LED_PORT TinygTc.heater_on) (Z.lnot 32) <> 0 ->
      TinygTc.led_toggle 32 (TinygTc.led_toggle 32 TinygTc.heater_on)
      = TinygTc.led_toggle 32 TinygTc.heater_on).
Proof.
  apply (led_toggle_tests_the_whole_port 32 TinygTc.heater_on).
  - simpl. lia.
  - lia.
Defined.

(** ** The device registers *)

(** X17.  When the device registers lie within the 8-bit address space,
    after the Kinen common registers, exactly the addresses from
    [KINEN_COMMON_MAX] up to [KINEN_COMMON_MAX + DEVICE_ADDRESS_MAX - 1] are
    read and written, at their offset in the array; every other address
    yields [SC_INVALID_ADDRESS] and leaves the array and the byte of the
    caller as they are. *)
Theorem device_address_window (KINEN_COMMON_MAX DEVICE_ADDRESS_MAX : Z)
    (addr data byte : Z) (device_array : list Z) :
  0 <= addr < 256 -> 0 <= KINEN_COMMON_MAX -> 0 <= DEVICE_ADDRESS_MAX ->
  KINEN_COMMON_MAX + DEVICE_ADDRESS_MAX <= 256 ->
  let valid :=
    (KINEN_COMMON_MAX <=? addr)
    && (addr <? KINEN_COMMON_MAX + DEVICE_ADDRESS_MAX) in
  TinygTc.device_read_byte KINEN_COMMON_MAX DEVICE_ADDRESS_MAX addr data
    device_array
  = (if valid
     then (TinygTc.SC_OK,
           default 0 (device_array !! Z.to_nat (addr - KINEN_COMMON_MAX)))
     else (TinygTc.SC_INVALID_ADDRESS, data))
  /\ TinygTc.device_write_byte KINEN_COMMON_MAX DEVICE_ADDRESS_MAX addr byte
       device_array
     = (if valid
        then (TinygTc.SC_OK,
              <[Z.to_nat (addr - KINEN_COMMON_MAX) := byte]> device_array)
        else (TinygTc.SC_INVALID_ADDRESS, device_array)).
Proof.
  intros Ha HK HD HKD valid. subst valid.
  unfold TinygTc.device_read_byte, TinygTc.device_write_byte.
  destruct (Z.leb_spec KINEN_COMMON_MAX addr) as [Hle|Hlt]; simpl.
  - rewrite (uint8_small (addr - KINEN_COMMON_MAX)) by lia.
    destruct (Z.ltb_spec addr (KINEN_COMMON_MAX + DEVICE_ADDRESS_MAX)),
      (Z.leb_spec DEVICE_ADDRESS_MAX (addr - KINEN_COMMON_MAX)); try lia; done.
  - replace (uint8 (addr - KINEN_COMMON_MAX))
      with (addr - KINEN_COMMON_MAX + 256)
      by (unfold uint8; Z.div_mod_to_equations; lia).
    destruct (Z.leb_spec DEVICE_ADDRESS_MAX (addr - KINEN_COMMON_MAX + 256));
      [done|lia].
Qed.

Lemma device_address_window_witness :
  TinygTc.device_read_byte 16 4 17 0 [10; 20; 30; 40] = (TinygTc.SC_OK, 20)
  /\ TinygTc.device_write_byte 16 4 17 99 [10; 20; 30; 40]
     = (TinygTc.SC_OK, [10; 99; 30; 40]).
Proof.
  apply (device_address_window 16 4 17 0 99 [10; 20; 30; 40]); lia.
Defined.

(** X18.  A byte written at an address that is accepted is the byte read
    back from that address, and the array keeps its size. *)
Theorem device_write_then_read (KINEN_COMMON_MAX DEVICE_ADDRESS_MAX : Z)
    (addr data byte : Z) (device_array : list Z) :
  length device_array = Z.to_nat DEVICE_ADDRESS_MAX ->
  fst (TinygTc.device_write_byte KINEN_COMMON_MAX DEVICE_ADDRESS_MAX addr byte
         device_array) = TinygTc.SC_OK ->
  TinygTc.device_read_byte KINEN_COMMON_MAX DEVICE_ADDRESS_MAX addr data
    (snd (TinygTc.device_write_byte KINEN_COMMON_MAX DEVICE_ADDRESS_MAX addr
            byte device_array))
  = (TinygTc.SC_OK, byte)
  /\ length (snd (TinygTc.device_write_byte KINEN_COMMON_MAX
                    DEVICE_ADDRESS_MAX addr byte device_array))
     = length device_array.
Proof.
  unfold TinygTc.device_read_byte, TinygTc.device_write_byte.
  intros Hlen.
  pose proof (Z.mod_pos_bound (addr - KINEN_COMMON_MAX) 256) as Hi.
  fold (uint8 (addr - KINEN_COMMON_MAX)) in Hi.
  destruct (Z.leb_spec DEVICE_ADDRESS_MAX (uint8 (addr - KINEN_COMMON_MAX)));
    simpl; [done|].
  intros _. rewrite list_lookup_insert_eq, length_insert by lia. done.
Qed.

Lemma device_write_then_read_witness :
  TinygTc.device_read_byte 16 4 19 0
    (snd (TinygTc.device_write_byte 16 4 19 77 [0; 0; 0; 0]))
  = (TinygTc.SC_OK, 77)
  /\ length (snd (TinygTc.device_write_byte 16 4 19 77 [0; 0; 0; 0]))
     = length [0; 0; 0; 0].
Proof.
  apply (device_write_then_read 16 4 19 0 77 [0; 0; 0; 0]); reflexivity.
Defined.

(** X19.  A write leaves every other address as it reads: whether it is
    accepted or not, the status and the byte read at another address are the
    same before and after it. *)
Theorem device_write_keeps_other_bytes (KINEN_COMMON_MAX DEVICE_ADDRESS_MAX : Z)
    (addr other data byte : Z) (device_array : list Z) :
  0 <= addr < 256 -> 0 <= other < 256 -> other <> addr ->
  TinygTc.device_read_byte KINEN_COMMON_MAX DEVICE_ADDRESS_MAX other data
    (snd (TinygTc.device_write_byte KINEN_COMMON_MAX DEVICE_ADDRESS_MAX addr
            byte device_array))
  = TinygTc.device_read_byte KINEN_COMMON_MAX DEVICE_ADDRESS_MAX other data
      device_array.
Proof.
  unfold TinygTc.device_read_byte, TinygTc.device_write_byte.
  intros Ha Ho Hne.
  pose proof (Z.mod_pos_bound (addr - KINEN_COMMON_MAX) 256) as Hi.
  pose proof (Z.mod_pos_bound (other - KINEN_COMMON_MAX) 256) as Hj.
  assert (Hd : uint8 (addr - KINEN_COMMON_MAX)
               <> uint8 (other - KINEN_COMMON_MAX))
    by (unfold uint8; Z.div_mod_to_equations; lia).
  fold (uint8 (addr - KINEN_COMMON_MAX)) in Hi.
  fold (uint8 (other - KINEN_COMMON_MAX)) in Hj.
  destruct (Z.leb_spec DEVICE_ADDRESS_MAX (uint8 (addr - KINEN_COMMON_MAX)));
    simpl; [done|].
  destruct (Z.leb_spec DEVICE_ADDRESS_MAX (uint8 (other - KINEN_COMMON_MAX)));
    [done|].
  rewrite list_lookup_insert_ne by lia. done.
Qed.

Lemma device_write_keeps_other_bytes_witness :
  TinygTc.device_read_byte 16 4 17 0
    (snd (TinygTc.device_write_byte 16 4 18 77 [10; 20; 30; 40]))
  = TinygTc.device_read_byte 16 4 17 0 [10; 20; 30; 40].
Proof.
  apply (device_write_keeps_other_bytes 16 4 18 17 0 77 [10; 20; 30; 40]);
    lia.
Defined.
